(** * GoFSH: caret-value-rule extraction and FSH export

    A shallow embedding of [src/export/FSHExporter.ts] and
    [src/extractor/CaretValueRuleExtractor.ts].

    Conventions of the embedding
    - a JavaScript string is a [string]: a sequence of code units, compared
      unit by unit ([String.compare]), each unit being one [ascii];
    - a JavaScript [Map] and the own properties of an object are association
      lists in insertion order ([JMap]);
    - [undefined] is [None]; a thrown [TypeError] is [TypeError] of [Res];
    - the logger is a list of entries returned next to the result. *)

From Stdlib Require Import List String Ascii Bool Arith ZArith Lia.
From Stdlib Require Import Sorting.Sorted Sorting.Permutation Structures.OrderedTypeEx.
From Stdlib Require Import Numbers.DecimalString.
Import ListNotations.
Open Scope string_scope.
Open Scope list_scope.
Set Warnings "-register-all".

(* ------------------------------------------------------------------ *)
(** ** JavaScript strings *)

Module Str.

Definition LF : string := String (ascii_of_nat 10) "".
Definition CR : string := String (ascii_of_nat 13) "".
Definition DQ : string := String (ascii_of_nat 34) "".

(** [String(n)] for an integer. *)
Definition ofZ (z : Z) : string := NilZero.string_of_int (Z.to_int z).
Definition ofNat (n : nat) : string := ofZ (Z.of_nat n).

Fixpoint drop (n : nat) (s : string) : string :=
  match n, s with
  | S n', String _ s' => drop n' s'
  | _, _ => s
  end.

(** [s.indexOf(pat)], [None] standing for [-1]. *)
Fixpoint indexOf (pat s : string) : option nat :=
  if prefix pat s then Some 0
  else match s with
       | EmptyString => None
       | String _ s' => option_map S (indexOf pat s')
       end.

(** [s.replace(pat, rep)] for a string pattern: the first occurrence only.
    ([rep] never holds a [$] where the exporter and extractor call it.) *)
Fixpoint replaceFirst (pat rep s : string) : string :=
  if prefix pat s then rep ++ drop (length pat) s
  else match s with
       | EmptyString => EmptyString
       | String c s' => String c (replaceFirst pat rep s')
       end.

(** [s.split(c)] for a one-character separator. *)
Fixpoint split (sep : ascii) (s : string) : list string :=
  match s with
  | EmptyString => [EmptyString]
  | String c s' =>
      if Ascii.eqb c sep then EmptyString :: split sep s'
      else match split sep s' with
           | [] => [String c EmptyString]
           | p :: ps => String c p :: ps
           end
  end.

(** [l.join(sep)]. *)
Definition join (sep : string) (l : list string) : string := String.concat sep l.

(** White space and line terminators among the 8-bit code units. *)
Definition isWhiteSpace (c : ascii) : bool :=
  let n := nat_of_ascii c in
  (((9 <=? n) && (n <=? 13)) || (n =? 32) || (n =? 160))%nat.

Fixpoint trimStart (s : string) : string :=
  match s with
  | EmptyString => EmptyString
  | String c s' => if isWhiteSpace c then trimStart s' else s
  end.

Fixpoint trimEnd (s : string) : string :=
  match s with
  | EmptyString => EmptyString
  | String c s' =>
      match trimEnd s' with
      | EmptyString => if isWhiteSpace c then EmptyString else String c EmptyString
      | t => String c t
      end
  end.

(** [s.trim()]. *)
Definition trim (s : string) : string := trimEnd (trimStart s).

(** [a > b] on strings. *)
Definition gtb (a b : string) : bool := String.ltb b a.

Definition isDigit (c : ascii) : bool :=
  let n := nat_of_ascii c in ((48 <=? n) && (n <=? 57))%nat.

End Str.

(* ------------------------------------------------------------------ *)
(** ** Insertion-ordered maps with string keys *)

Module JMap.

Abbreviation t V := (list (string * V)).

Definition keys {V} (m : t V) : list string := map fst m.

Fixpoint get {V} (k : string) (m : t V) : option V :=
  match m with
  | [] => None
  | (k', v) :: m' => if String.eqb k k' then Some v else get k m'
  end.

Definition has {V} (k : string) (m : t V) : bool :=
  match get k m with Some _ => true | None => false end.

(** [m.set(k, v)]: an existing key keeps its position. *)
Fixpoint set {V} (k : string) (v : V) (m : t V) : t V :=
  match m with
  | [] => [(k, v)]
  | (k', v') :: m' =>
      if String.eqb k k' then (k, v) :: m' else (k', v') :: set k v m'
  end.

(** [delete o[k]]. *)
Definition delete {V} (k : string) (m : t V) : t V :=
  filter (fun kv => negb (String.eqb k (fst kv))) m.

(** [m.get(k).push(x)]; calling [push] on [undefined] throws. *)
Definition push {A} (k : string) (x : A) (m : t (list A)) : option (t (list A)) :=
  match get k m with
  | Some l => Some (set k (l ++ [x]) m)
  | None => None
  end.

End JMap.

(* ------------------------------------------------------------------ *)
(** ** [Array.prototype.sort] *)

Module JArray.

(** The comparator the exporter passes never answers [0], so the language
    leaves the order to the engine.  The model is the insertion sort V8
    runs on short arrays: an element goes left of the first element it
    compares below.  Which of two rows that compare the same way both
    times comes first is the engine's choice. *)
Fixpoint insertBy {A} (compareFn : A -> A -> Z) (x : A) (l : list A) : list A :=
  match l with
  | [] => [x]
  | y :: l' => if (compareFn x y <? 0)%Z then x :: l else y :: insertBy compareFn x l'
  end.

Definition sort {A} (compareFn : A -> A -> Z) (l : list A) : list A :=
  fold_left (fun sorted x => insertBy compareFn x sorted) l [].

End JArray.

(* ------------------------------------------------------------------ *)
(** ** The logger *)

Inductive Level := Info | Warn | Error.
Abbreviation Log := (list (Level * string)).

(* ------------------------------------------------------------------ *)
(** ** src/export/FSHExporter.ts *)

Module Exporter.

(** The value of a rule, as far as [rule.value === name] can tell. *)
Inductive RuleValue :=
| StringValue (s : string)
| OtherValue.

(** The rule classes the exporter tells apart with [instanceof]. *)
Inductive Rule :=
| ExportableAssignmentRule (isInstance : bool) (value : RuleValue)
| ExportableCaretValueRule (isInstance : bool) (value : RuleValue)
| ExportableObeysRule (keys : list string)
| OtherRule.

Record ExportableAlias := { alias : string; url : string }.
Record ExportableProfile := { profile_name : string; profile_rules : list Rule }.
Record ExportableExtension := { extension_name : string; extension_rules : list Rule }.
Record ExportableCodeSystem := { codeSystem_name : string }.
Record ExportableValueSet := { valueSet_name : string }.
Record ExportableInstance :=
  { instance_name : string;
    instanceOf : string;
    usage : string;
    instance_rules : list Rule }.
Record ExportableInvariant := { invariant_name : string }.
Record ExportableMapping := { mapping_name : string }.

Inductive NamedExportable :=
| NProfile (p : ExportableProfile)
| NExtension (e : ExportableExtension)
| NCodeSystem (c : ExportableCodeSystem)
| NValueSet (v : ExportableValueSet)
| NInstance (i : ExportableInstance)
| NInvariant (i : ExportableInvariant)
| NMapping (m : ExportableMapping).

Inductive Exportable :=
| EAlias (a : ExportableAlias)
| ENamed (n : NamedExportable).

Coercion ENamed : NamedExportable >-> Exportable.

Record Package :=
  { aliases : list ExportableAlias;
    profiles : list ExportableProfile;
    extensions : list ExportableExtension;
    codeSystems : list ExportableCodeSystem;
    valueSets : list ExportableValueSet;
    instances : list ExportableInstance;
    invariants : list ExportableInvariant;
    mappings : list ExportableMapping }.

Definition name (e : NamedExportable) : string :=
  match e with
  | NProfile p => profile_name p
  | NExtension e => extension_name e
  | NCodeSystem c => codeSystem_name c
  | NValueSet v => valueSet_name v
  | NInstance i => instance_name i
  | NInvariant i => invariant_name i
  | NMapping m => mapping_name m
  end.

(** [exportable.constructor.name] *)
Definition constructorName (e : NamedExportable) : string :=
  match e with
  | NProfile _ => "ExportableProfile"
  | NExtension _ => "ExportableExtension"
  | NCodeSystem _ => "ExportableCodeSystem"
  | NValueSet _ => "ExportableValueSet"
  | NInstance _ => "ExportableInstance"
  | NInvariant _ => "ExportableInvariant"
  | NMapping _ => "ExportableMapping"
  end.

Inductive Platform := Posix | Win32.

(** What the exporter takes from outside the file: the rendering of one
    exportable ([toFSH()]), the [text-table] package and [os.EOL]. *)
Class Host :=
  { toFSH : Exportable -> string;
    table : list (list string) -> string;
    platform : Platform }.

Definition EOL `{Host} : string :=
  match platform with
  | Posix => Str.LF
  | Win32 => Str.CR ++ Str.LF
  end.

Definition Files := JMap.t (list Exportable).

Definition plural (n : nat) : string := if Nat.eqb n 1 then "" else "s".

Section Grouping.

Variable fshPackage : Package.

Definition groupAsSingleFile : Files :=
  let results :=
    map EAlias (aliases fshPackage)
    ++ map (fun p => ENamed (NProfile p)) (profiles fshPackage)
    ++ map (fun e => ENamed (NExtension e)) (extensions fshPackage)
    ++ map (fun c => ENamed (NCodeSystem c)) (codeSystems fshPackage)
    ++ map (fun v => ENamed (NValueSet v)) (valueSets fshPackage)
    ++ map (fun i => ENamed (NInstance i)) (instances fshPackage)
    ++ map (fun i => ENamed (NInvariant i)) (invariants fshPackage)
    ++ map (fun m => ENamed (NMapping m)) (mappings fshPackage) in
  JMap.set "resources.fsh" results [].

(** One [files.set(`${x.name}-Kind.fsh`, [x])] per definition. *)
Definition setEach {A} (inj : A -> NamedExportable) (suffix : string)
           (l : list A) (files : Files) : Files :=
  fold_left (fun f x => JMap.set (name (inj x) ++ suffix) [ENamed (inj x)] f) l files.

Definition groupAsFilePerDefinition : Files :=
  let files := JMap.set "aliases.fsh" (map EAlias (aliases fshPackage)) [] in
  let files := setEach NInvariant "-Invariant.fsh" (invariants fshPackage) files in
  let files := setEach NMapping "-Mapping.fsh" (mappings fshPackage) files in
  let files := setEach NProfile "-Profile.fsh" (profiles fshPackage) files in
  let files := setEach NExtension "-Extension.fsh" (extensions fshPackage) files in
  let files := setEach NCodeSystem "-CodeSystem.fsh" (codeSystems fshPackage) files in
  let files := setEach NValueSet "-ValueSet.fsh" (valueSets fshPackage) files in
  setEach NInstance "-Instance.fsh" (instances fshPackage) files.

Definition groupByFSHType : Files :=
  let files := JMap.set "aliases.fsh" (map EAlias (aliases fshPackage)) [] in
  let files := JMap.set "profiles.fsh" (map (fun p => ENamed (NProfile p)) (profiles fshPackage)) files in
  let files := JMap.set "extensions.fsh" (map (fun e => ENamed (NExtension e)) (extensions fshPackage)) files in
  let files := JMap.set "valueSets.fsh" (map (fun v => ENamed (NValueSet v)) (valueSets fshPackage)) files in
  let files := JMap.set "codeSystems.fsh" (map (fun c => ENamed (NCodeSystem c)) (codeSystems fshPackage)) files in
  let files := JMap.set "instances.fsh" (map (fun i => ENamed (NInstance i)) (instances fshPackage)) files in
  let files := JMap.set "invariants.fsh" (map (fun i => ENamed (NInvariant i)) (invariants fshPackage)) files in
  JMap.set "mappings.fsh" (map (fun m => ENamed (NMapping m)) (mappings fshPackage)) files.

End Grouping.

(** The rules of an instance, profile or extension; [None] for the
    exportables the [filter] of [inlineInstanceUsedIn] drops. *)
Definition resourceRules (e : Exportable) : option (list Rule) :=
  match e with
  | ENamed (NInstance i) => Some (instance_rules i)
  | ENamed (NProfile p) => Some (profile_rules p)
  | ENamed (NExtension x) => Some (extension_rules x)
  | _ => None
  end.

Definition profileRules (e : Exportable) : option (list Rule) :=
  match e with
  | ENamed (NProfile p) => Some (profile_rules p)
  | _ => None
  end.

(** The test of [inlineInstanceUsedIn] on one rule. *)
Definition refersToInstance (n : string) (r : Rule) : bool :=
  match r with
  | ExportableAssignmentRule isInstance (StringValue v)
  | ExportableCaretValueRule isInstance (StringValue v) => isInstance && String.eqb v n
  | _ => false
  end.

(** The test of [invariantUsedIn] on one rule: [rule.keys.includes(name)]. *)
Definition obeysInvariant (n : string) (r : Rule) : bool :=
  match r with
  | ExportableObeysRule keys => existsb (String.eqb n) keys
  | _ => false
  end.

(** The nested [forEach]es of both [...UsedIn] methods: one [push(file)]
    per rule that passes [test], in iteration order. *)
Definition usedIn (rulesOf : Exportable -> option (list Rule)) (test : Rule -> bool)
           (files : Files) : list string :=
  flat_map (fun '(file, exportables) =>
    flat_map (fun e =>
      match rulesOf e with
      | Some rules => flat_map (fun r => if test r then [file] else []) rules
      | None => []
      end) exportables) files.

Definition inlineInstanceUsedIn (inlineInstance : ExportableInstance) (files : Files) : list string :=
  usedIn resourceRules (refersToInstance (instance_name inlineInstance)) files.

Definition invariantUsedIn (invariant : ExportableInvariant) (files : Files) : list string :=
  usedIn profileRules (obeysInvariant (invariant_name invariant)) files.

(** [usedIn.length === 1 ? files.get(usedIn[0]).push(x) : files.get(shared).push(x)] *)
Definition placeByUse (used : list string) (shared : string) (x : Exportable)
           (files : Files) : option Files :=
  match used with
  | [file] => JMap.push file x files
  | _ => JMap.push shared x files
  end.

Definition placeNonInline (files : Files) (instance : ExportableInstance) : option Files :=
  if String.eqb (usage instance) "Example" && JMap.has (instanceOf instance ++ ".fsh") files
  then JMap.push (instanceOf instance ++ ".fsh") (ENamed (NInstance instance)) files
  else JMap.push "instances.fsh" (ENamed (NInstance instance)) files.

Definition placeInline (files : Files) (instance : ExportableInstance) : option Files :=
  placeByUse (inlineInstanceUsedIn instance files) "instances.fsh"
             (ENamed (NInstance instance)) files.

Definition placeInvariant (files : Files) (invariant : ExportableInvariant) : option Files :=
  placeByUse (invariantUsedIn invariant files) "invariants.fsh"
             (ENamed (NInvariant invariant)) files.

(** A [forEach] whose body may throw. *)
Fixpoint forEachM {A S} (f : S -> A -> option S) (l : list A) (s : S) : option S :=
  match l with
  | [] => Some s
  | x :: l' => match f s x with Some s' => forEachM f l' s' | None => None end
  end.

Definition groupByProfile (fshPackage : Package) : option Files :=
  let files :=
    fold_left (fun f p => JMap.set (profile_name p ++ ".fsh") [ENamed (NProfile p)] f)
              (profiles fshPackage) [] in
  let files := JMap.set "instances.fsh" [] files in
  let '(inlineInstances, nonInlineInstances) :=
    partition (fun i => String.eqb (usage i) "Inline") (instances fshPackage) in
  match forEachM placeNonInline nonInlineInstances files with
  | None => None
  | Some files =>
    match forEachM placeInline inlineInstances files with
    | None => None
    | Some files =>
      let files := JMap.set "invariants.fsh" [] files in
      match forEachM placeInvariant (invariants fshPackage) files with
      | None => None
      | Some files =>
        let files := JMap.set "aliases.fsh" (map EAlias (aliases fshPackage)) files in
        let files := JMap.set "extensions.fsh" (map (fun e => ENamed (NExtension e)) (extensions fshPackage)) files in
        let files := JMap.set "valueSets.fsh" (map (fun v => ENamed (NValueSet v)) (valueSets fshPackage)) files in
        let files := JMap.set "codeSystems.fsh" (map (fun c => ENamed (NCodeSystem c)) (codeSystems fshPackage)) files in
        Some (JMap.set "mappings.fsh" (map (fun m => ENamed (NMapping m)) (mappings fshPackage)) files)
      end
    end
  end.


(** [partition(exportables, e => e instanceof ExportableAlias)] *)
Fixpoint partitionAliases (exportables : list Exportable)
  : list ExportableAlias * list NamedExportable :=
  match exportables with
  | [] => ([], [])
  | e :: rest =>
      let '(aliases, namedExportables) := partitionAliases rest in
      match e with
      | EAlias a => (a :: aliases, namedExportables)
      | ENamed n => (aliases, n :: namedExportables)
      end
  end.

Definition fileContent `{Host} (exportables : list Exportable) : string :=
  let '(aliases, namedExportables) := partitionAliases exportables in
  Str.trim
    (Str.join (EOL ++ EOL)
       [ Str.join EOL (map (fun a => toFSH (EAlias a)) aliases);
         Str.join (EOL ++ EOL) (map (fun e => toFSH (ENamed e)) namedExportables) ]).

(** The name, FSH type and file of one entity. *)
Definition indexLine (file : string) (exportable : NamedExportable) : list string :=
  [ name exportable;
    Str.replaceFirst "Exportable" "" (constructorName exportable);
    file ].

(** The body of [files.forEach((exportables, file) => ...)] in [export]. *)
Definition writeFile `{Host} (acc : JMap.t string * list (list string))
           (entry : string * list Exportable) : JMap.t string * list (list string) :=
  let '(writtenFiles, index) := acc in
  let '(file, exportables) := entry in
  let content := fileContent exportables in
  if String.eqb content "" then acc
  else (JMap.set file content writtenFiles,
        index ++ map (indexLine file) (snd (partitionAliases exportables))).

(** [(line1, line2) => (line1[0] > line2[0] ? 1 : -1)] *)
Definition compareLines (line1 line2 : list string) : Z :=
  if Str.gtb (hd "" line1) (hd "" line2) then 1%Z else (-1)%Z.

Definition indexHeader : list string := ["Name"; "Type"; "File"].

(** The index of [export] just before it is rendered by [table]. *)
Definition exportIndex `{Host} (files : Files) : list (list string) :=
  indexHeader :: JArray.sort compareLines (snd (fold_left writeFile files ([], []))).

Definition writeFiles `{Host} (files : Files) : JMap.t string :=
  JMap.set "index.txt" (table (exportIndex files)) (fst (fold_left writeFile files ([], []))).

Definition exported (what : string) (n : nat) : Level * string :=
  (Info, ("Exported " ++ Str.ofNat n ++ " " ++ what ++ plural n ++ ".")%string).

(** The [switch] of [export]; [style] is [None] when the caller passes
    [undefined] or [null]. *)
Definition groupFiles (fshPackage : Package) (style : option string) : option (Log * Files) :=
  match style with
  | Some s =>
      if String.eqb s "single-file" then Some ([], groupAsSingleFile fshPackage)
      else if String.eqb s "group-by-fsh-type" then Some ([], groupByFSHType fshPackage)
      else if String.eqb s "group-by-profile"
           then option_map (pair []) (groupByProfile fshPackage)
      else if String.eqb s "file-per-definition"
           then Some ([], groupAsFilePerDefinition fshPackage)
      else
        Some ([(Warn, ("Unrecognized output style " ++ Str.DQ ++ s ++ Str.DQ
                       ++ ". Defaulting to " ++ Str.DQ ++ "by-category" ++ Str.DQ
                       ++ " style.")%string)],
              groupByFSHType fshPackage)
  | None => Some ([], groupByFSHType fshPackage)
  end.

Definition export `{Host} (fshPackage : Package) (style : option string)
  : option (Log * JMap.t string) :=
  match groupFiles fshPackage style with
  | None => None
  | Some (log, files) =>
      Some (log ++
            [ exported "Profile" (List.length (profiles fshPackage));
              exported "Extension" (List.length (extensions fshPackage));
              exported "CodeSystem" (List.length (codeSystems fshPackage));
              exported "ValueSet" (List.length (valueSets fshPackage));
              exported "Instance" (List.length (instances fshPackage));
              exported "Invariant" (List.length (invariants fshPackage));
              exported "Mapping" (List.length (mappings fshPackage)) ],
            writeFiles files)
  end.

End Exporter.

(* ------------------------------------------------------------------ *)
(** ** JSON values as JavaScript sees them *)

(** A parsed JSON document.  Numbers are kept as integers: no function of
    the extractor computes with them, they are only compared and printed. *)
Inductive JSON :=
| JNull
| JBool (b : bool)
| JNumber (n : Z)
| JString (s : string)
| JArray (items : list JSON)
| JObject (props : list (string * JSON)).

(** The outcome of code that may throw. *)
Inductive Res (A : Type) :=
| Ok (a : A)
| TypeError.
Arguments Ok {A} _.
Arguments TypeError {A}.

Definition bind {A B} (c : Res A) (k : A -> Res B) : Res B :=
  match c with
  | Ok a => k a
  | TypeError => TypeError
  end.

Notation "x <- c ;; k" := (bind c (fun x => k))
  (at level 61, c at next level, right associativity).

Module Js.

(** lodash [isEqual]: arrays item by item, objects key by key whatever the
    order of the keys. *)
Fixpoint isEqual (a b : JSON) {struct a} : bool :=
  match a, b with
  | JNull, JNull => true
  | JBool x, JBool y => Bool.eqb x y
  | JNumber x, JNumber y => Z.eqb x y
  | JString x, JString y => String.eqb x y
  | JArray xs, JArray ys =>
      (fix items (xs ys : list JSON) {struct xs} : bool :=
         match xs, ys with
         | [], [] => true
         | x :: xs', y :: ys' => isEqual x y && items xs' ys'
         | _, _ => false
         end) xs ys
  | JObject m, JObject m' =>
      Nat.eqb (List.length m) (List.length m')
      && (fix props (m : list (string * JSON)) {struct m} : bool :=
            match m with
            | [] => true
            | (k, v) :: rest =>
                match JMap.get k m' with
                | Some v' => isEqual v v'
                | None => false
                end && props rest
            end) m
  | _, _ => false
  end.

(** [isEqual] when either side may be [undefined]. *)
Definition isEqualOpt (a b : option JSON) : bool :=
  match a, b with
  | None, None => true
  | Some x, Some y => isEqual x y
  | _, _ => false
  end.

(** [a === b] for values of two different documents: two objects or two
    arrays are never the same reference. *)
Definition strictEq (a b : option JSON) : bool :=
  match a, b with
  | None, None => true
  | Some JNull, Some JNull => true
  | Some (JBool x), Some (JBool y) => Bool.eqb x y
  | Some (JNumber x), Some (JNumber y) => Z.eqb x y
  | Some (JString x), Some (JString y) => String.eqb x y
  | _, _ => false
  end.

(** [v == null] *)
Definition isNullish (v : option JSON) : bool :=
  match v with
  | None | Some JNull => true
  | _ => false
  end.

(** [String(v)], which is what a template literal applies. *)
Fixpoint toString (v : JSON) : string :=
  match v with
  | JNull => "null"
  | JBool true => "true"
  | JBool false => "false"
  | JNumber n => Str.ofZ n
  | JString s => s
  | JArray l =>
      Str.join ","
        ((fix items (l : list JSON) : list string :=
            match l with
            | [] => []
            | JNull :: l' => EmptyString :: items l'
            | x :: l' => toString x :: items l'
            end) l)
  | JObject _ => "[object Object]"
  end.

Definition template (v : option JSON) : string :=
  match v with
  | None => "undefined"
  | Some x => toString x
  end.

(** [v == s] for a string [s] that is not the spelling of a number (the
    only strings the extractor compares this way hold two slashes). *)
Definition looseEqString (v : option JSON) (s : string) : bool :=
  match v with
  | Some (JString x) => String.eqb x s
  | Some (JArray l) => String.eqb (toString (JArray l)) s
  | Some (JObject m) => String.eqb (toString (JObject m)) s
  | _ => false
  end.

(** [o.k]: reading a property of [undefined] or [null] throws; the
    extractor reads no property that a string, number, boolean or array
    has of its own. *)
Definition prop (o : option JSON) (k : string) : Res (option JSON) :=
  match o with
  | None | Some JNull => TypeError
  | Some (JObject m) => Ok (JMap.get k m)
  | Some _ => Ok None
  end.

(** [o?.k] *)
Definition optProp (o : option JSON) (k : string) : option JSON :=
  match o with
  | Some (JObject m) => JMap.get k m
  | _ => None
  end.

(** [a[i]] for a number [i]. *)
Definition elementAt (a : option JSON) (i : N) : Res (option JSON) :=
  match a with
  | None | Some JNull => TypeError
  | Some (JArray l) => Ok (nth_error l (N.to_nat i))
  | Some (JString s) =>
      Ok (option_map (fun c => JString (String c EmptyString)) (String.get (N.to_nat i) s))
  | Some (JObject m) => Ok (JMap.get (Str.ofZ (Z.of_N i)) m)
  | Some _ => Ok None
  end.

(** [parseInt(digits)] on a run of decimal digits. *)
Definition parseInt (digits : string) : N :=
  match NilZero.uint_of_string digits with
  | Some u => N.of_uint u
  | None => 0%N
  end.

(** [l.findIndex(f)] where [f] may throw; [-1] when nothing is found. *)
Fixpoint findIndexFrom {A} (f : A -> Res bool) (i : Z) (l : list A) : Res Z :=
  match l with
  | [] => Ok (-1)%Z
  | x :: l' =>
      b <- f x ;;
      if b then Ok i else findIndexFrom f (i + 1)%Z l'
  end.

Definition findIndex {A} (f : A -> Res bool) (l : list A) : Res Z := findIndexFrom f 0%Z l.

(** lodash [differenceWith(array, values, comparator)] *)
Definition differenceWith {A} (array values : list A) (comparator : A -> A -> bool) : list A :=
  filter (fun x => negb (existsb (comparator x) values)) array.

(** *** The two regular expressions of the extractor *)

(** The longest run of [\d] at the head of [s], and what follows. *)
Fixpoint spanDigits (s : string) : string * string :=
  match s with
  | String c s' =>
      if Str.isDigit c
      then let '(ds, rest) := spanDigits s' in (String c ds, rest)
      else (EmptyString, s)
  | EmptyString => (EmptyString, EmptyString)
  end.

(** [/name\[(\d+)]/] anchored at the head of [s]: the digits captured. *)
Definition indexedAt (name s : string) : option string :=
  if prefix (name ++ "[") s then
    let '(ds, rest) := spanDigits (Str.drop (length name + 1) s) in
    if String.eqb ds "" then None
    else if prefix "]" rest then Some ds else None
  else None.

(** [s.match(/name\[(\d+)]/)]: the capture of the leftmost match. *)
Fixpoint matchIndexed (name s : string) : option string :=
  match indexedAt name s with
  | Some ds => Some ds
  | None =>
      match s with
      | EmptyString => None
      | String _ s' => matchIndexed name s'
      end
  end.

Definition isLineTerminator (c : ascii) : bool :=
  let n := nat_of_ascii c in ((n =? 10) || (n =? 13))%nat.

(** A property name read as a regular expression, anchored at the head
    of [s]: a dot of the name stands for any character but a line
    terminator, every other character of the tables (letters) for
    itself.  The result is what follows the match. *)
Fixpoint matchProperty (property s : string) : option string :=
  match property with
  | EmptyString => Some s
  | String p property' =>
      match s with
      | EmptyString => None
      | String c s' =>
          if (if Ascii.eqb p "." then negb (isLineTerminator c) else Ascii.eqb p c)
          then matchProperty property' s'
          else None
      end
  end.

(** [`${property}(\\[\\d+\\])?\\.`] anchored at the head of [s]. *)
Definition ignoredAt (property s : string) : bool :=
  match matchProperty property s with
  | None => false
  | Some rest =>
      prefix "." rest
      || match rest with
         | String "[" r =>
             let '(ds, r') := spanDigits r in
             negb (String.eqb ds "") && prefix "]." r'
         | _ => false
         end
  end.

(** [new RegExp(`${property}(\\[\\d+\\])?\\.`).test(key)] *)
Fixpoint testIgnored (property key : string) : bool :=
  ignoredAt property key
  || match key with
     | EmptyString => false
     | String _ key' => testIgnored property key'
     end.

End Js.

(* ------------------------------------------------------------------ *)
(** ** src/extractor/CaretValueRuleExtractor.ts *)

Module Extractor.

(** One flattened document: leaf paths and their values, in document order. *)
Definition FlatObject := list (string * JSON).

(** Modelled from the spec: [getPathValuePairs] of [../utils] is not among
    the sources.  The spec has it turn a nested object into the ordered
    sequence of (leaf-path, value) pairs, document order preserved, array
    entries addressed as [prop[n]].  A leaf is any value that is not a
    non-empty array or object. *)
Fixpoint flattenAt (path : string) (v : JSON) {struct v} : FlatObject :=
  match v with
  | JArray l =>
      match l with
      | [] => [(path, v)]
      | _ =>
          (fix items (i : nat) (l : list JSON) {struct l} : FlatObject :=
             match l with
             | [] => []
             | x :: l' =>
                 flattenAt (path ++ "[" ++ Str.ofNat i ++ "]") x ++ items (S i) l'
             end) 0 l
      end
  | JObject m =>
      match m with
      | [] => [(path, v)]
      | _ =>
          (fix props (m : list (string * JSON)) {struct m} : FlatObject :=
             match m with
             | [] => []
             | (k, x) :: m' => flattenAt (path ++ "." ++ k) x ++ props m'
             end) m
      end
  | _ => [(path, v)]
  end.

Definition getPathValuePairs (object : list (string * JSON)) : FlatObject :=
  flat_map (fun '(k, x) => flattenAt k x) object.

(** What the extractor takes from [../utils] and from the fisher it is
    handed: the FSH value of the [i]-th flattened entry, the empty-value
    predicate, and the lookup of a parent definition. *)
Class Utils :=
  { FSHValue : Type;
    getFSHValue : nat -> FlatObject -> string -> FSHValue;
    isFSHValueEmpty : FSHValue -> bool;
    fishForFHIR : option JSON -> option (list (string * JSON)) }.

Record ExportableCaretValueRule `{Utils} :=
  { path : string;
    caretPath : string;
    value : FSHValue;
    fshComment : option string;
    isCodeCaretRule : bool;
    pathArray : list string }.

(** [new ExportableCaretValueRule(path)] with [caretPath] and [value] assigned. *)
Definition newRule `{Utils} (path caretPath : string) (value : FSHValue)
  : ExportableCaretValueRule :=
  {| path := path; caretPath := caretPath; value := value;
     fshComment := None; isCodeCaretRule := false; pathArray := [] |}.

Definition setCaretPath `{Utils} (p : string) (r : ExportableCaretValueRule) :=
  {| path := path r; caretPath := p; value := value r;
     fshComment := fshComment r; isCodeCaretRule := isCodeCaretRule r;
     pathArray := pathArray r |}.

Definition setComment `{Utils} (c : string) (r : ExportableCaretValueRule) :=
  {| path := path r; caretPath := caretPath r; value := value r;
     fshComment := Some c; isCodeCaretRule := isCodeCaretRule r;
     pathArray := pathArray r |}.

(** An element of the snapshot, with the types the extractor casts to:
    [el.id as string], [snapElement?.constraint as any[]]. *)
Record SnapshotElement :=
  { id : option string;
    constraint : option (list JSON);
    mapping : option (list JSON) }.

(** [snapshot_element] is [structDef?.snapshot?.element]. *)
Record ProcessableStructureDefinition :=
  { name : string;
    snapshot_element : option (list SnapshotElement) }.

(** [getPath] and [toJSON] are what [getPath(input)] and [input.toJSON()]
    return. *)
Record ProcessableElementDefinition :=
  { getPath : string;
    toJSON : list (string * JSON);
    processedPaths : list string }.

Record Configuration := { canonical : string }.

Inductive ResourceType := ValueSet | CodeSystem | StructureDefinition.

Definition typeName (t : ResourceType) : string :=
  match t with
  | ValueSet => "ValueSet"
  | CodeSystem => "CodeSystem"
  | StructureDefinition => "StructureDefinition"
  end.

Definition CONCEPT_IGNORED_PROPERTIES : list string :=
  ["code"; "display"; "definition"; "concept"].

Definition RESOURCE_IGNORED_PROPERTIES (t : ResourceType) : list string :=
  match t with
  | ValueSet =>
      ["resourceType"; "id"; "name"; "title"; "description";
       "compose.include"; "compose.exclude"]
  | CodeSystem => ["resourceType"; "id"; "name"; "title"; "description"; "concept"]
  | StructureDefinition =>
      ["resourceType"; "id"; "name"; "title"; "description"; "fhirVersion";
       "mapping"; "baseDefinition"; "derivation"; "snapshot"; "differential"]
  end.

Definition SD_CLEARED_PROPERTIES : list string :=
  ["meta"; "implicitRules"; "language"; "text"; "contained"; "identifier";
   "experimental"; "date"; "publisher"; "contact"; "useContext";
   "jurisdiction"; "purpose"; "copyright"; "keyword"].

(** The entries of an array with their positions, as [forEach] hands them over. *)
Definition indexed {A} (l : list A) : list (nat * A) := combine (seq 0 (List.length l)) l.

(** *** findMatchingSnapshot *)

(** [el.id === differentialId], the right-hand side being any JSON value. *)
Definition idEq (elId : option string) (differentialId : option JSON) : bool :=
  match elId, differentialId with
  | None, None => true
  | Some s, Some (JString d) => String.eqb s d
  | _, _ => false
  end.

(** The alternate syntax of an id with choice slices:
    [split('.')], drop each part up to and including its first ['[x]:'],
    [join('.')]. *)
Definition elIdAltSyntax (elId : string) : string :=
  Str.join "."
    (map (fun p => match Str.indexOf "[x]:" p with
                   | Some i => Str.drop (i + 4) p
                   | None => p
                   end)
         (Str.split "." elId)).

(** The callback of [find] in [findMatchingSnapshot]. *)
Definition matchesId (differentialId : option JSON) (el : SnapshotElement) : bool :=
  if idEq (id el) differentialId then true
  else match id el with
       | Some s =>
           match Str.indexOf "[x]:" s with
           | Some (S _) => idEq (Some (elIdAltSyntax s)) differentialId
           | _ => false
           end
       | None => false
       end.

Definition findMatchingSnapshot (differentialId : option JSON)
           (structDef : ProcessableStructureDefinition) : option SnapshotElement :=
  match snapshot_element structDef with
  | Some els => find (matchesId differentialId) els
  | None => None
  end.

(** [structDef?.snapshot?.element?.length > 0] *)
Definition hasSnapshot (structDef : ProcessableStructureDefinition) : bool :=
  match snapshot_element structDef with
  | Some (_ :: _) => true
  | _ => false
  end.

(** *** process *)

(** [(snapElement?.constraint as any[])?.findIndex(c => c.key === diffConstraint.key)] *)
Definition constraintIndex (diffConstraint : option JSON)
           (snapElement : option SnapshotElement) : Res (option Z) :=
  match snapElement with
  | Some el =>
      match constraint el with
      | Some cs =>
          n <- Js.findIndex
                 (fun c => ck <- Js.prop (Some c) "key" ;;
                           dk <- Js.prop diffConstraint "key" ;;
                           Ok (Js.strictEq ck dk)) cs ;;
          Ok (Some n)
      | None => Ok None
      end
  | None => Ok None
  end.

(** [(snapElement?.mapping as any[])?.findIndex(m => isEqual(m, diffMapping))] *)
Definition mappingIndex (diffMapping : option JSON)
           (snapElement : option SnapshotElement) : Res (option Z) :=
  match snapElement with
  | Some el =>
      match mapping el with
      | Some ms =>
          n <- Js.findIndex (fun m => Ok (Js.isEqualOpt (Some m) diffMapping)) ms ;;
          Ok (Some n)
      | None => Ok None
      end
  | None => Ok None
  end.

Definition indexComment (what match0 : string) : string :=
  "WARNING: The " ++ what ++ " index in the following rule (e.g., " ++ match0
  ++ ") may be incorrect." ++ Str.LF
  ++ "Please compare with the " ++ what
  ++ " array in the original definition's snapshot and adjust as necessary.".

Definition indexWarning (what structDefName path key : string) : Level * string :=
  (Warn,
   ("Could not calculate correct " ++ what
    ++ " index relative to the snapshot for the following path in " ++ structDefName
    ++ ": " ++ path ++ " ^" ++ key
    ++ ". To resolve this issue, run GoFSH on definitions that include valid snapshots; otherwise check and fix "
    ++ what ++ " indices in the generated FSH files as necessary.")%string).

Section Process.

Context `{Utils}.
Variable input : ProcessableElementDefinition.
Variable structDef : ProcessableStructureDefinition.

(** The two blocks of [process] that fix [constraint[n]] and
    [mapping[n]] differ in the word [what] and in how the snapshot entry
    is found ([newIndexOf]); either one rewrites [key], not the caret
    path the other may have set. *)
Definition fixIndex (what : string)
           (newIndexOf : option JSON -> option SnapshotElement -> Res (option Z))
           (key : string) (state : ExportableCaretValueRule * Log)
  : Res (ExportableCaretValueRule * Log) :=
  let '(caretValueRule, log) := state in
  match Js.matchIndexed what key with
  | None => Ok state
  | Some digits =>
      let match0 := (what ++ "[" ++ digits ++ "]")%string in
      newIndex <-
        (if hasSnapshot structDef then
           diffEntry <- Js.elementAt (JMap.get what (toJSON input)) (Js.parseInt digits) ;;
           let snapElement := findMatchingSnapshot (JMap.get "id" (toJSON input)) structDef in
           newIndexOf diffEntry snapElement
         else Ok None) ;;
      match newIndex with
      | Some n =>
          Ok (setCaretPath
                (Str.replaceFirst match0 (what ++ "[" ++ Str.ofZ n ++ "]") key)
                caretValueRule,
              log)
      | None =>
          Ok (setComment (indexComment what match0) caretValueRule,
              log ++ [indexWarning what (name structDef) (getPath input) key])
      end
  end.

(** The body of [remainingFlatElementArray.forEach(([key], i) => ...)]. *)
Definition processEntry (remainingFlatElementArray : FlatObject)
           (state : list ExportableCaretValueRule * Log) (entry : nat * (string * JSON))
  : Res (list ExportableCaretValueRule * Log) :=
  let '(caretValueRules, log) := state in
  let '(i, (key, _)) := entry in
  let caretValueRule :=
    newRule (getPath input) key
            (getFSHValue i remainingFlatElementArray "ElementDefinition") in
  if isFSHValueEmpty (value caretValueRule) then
    Ok (caretValueRules,
        log ++ [(Error,
                 ("Value in StructureDefinition " ++ name structDef ++ " for element "
                  ++ getPath input ++ "." ++ key
                  ++ " is empty. No caret value rule will be created.")%string)])
  else
    s1 <- fixIndex "constraint" constraintIndex key (caretValueRule, log) ;;
    s2 <- fixIndex "mapping" mappingIndex key s1 ;;
    Ok (caretValueRules ++ [fst s2], snd s2).

Fixpoint forEachRes {A S} (f : S -> A -> Res S) (l : list A) (s : S) : Res S :=
  match l with
  | [] => Ok s
  | x :: l' => s' <- f s x ;; forEachRes f l' s'
  end.

(** [input.processedPaths] once [process] has pushed ['id'] and ['path']. *)
Definition processedPathsOf : list string := processedPaths input ++ ["id"; "path"].

Definition remainingEntries : FlatObject :=
  filter (fun kv => negb (existsb (String.eqb (fst kv)) processedPathsOf))
         (getPathValuePairs (toJSON input)).

Definition process : Res (list ExportableCaretValueRule * Log) :=
  forEachRes (processEntry remainingEntries) (indexed remainingEntries) ([], []).

End Process.

(** *** isStandardURL *)

(** [input.url == `${config.canonical}/${resourceType}/${input.id}`] *)
Definition isStandardURL (resourceType : string) (config : Configuration)
           (input : list (string * JSON)) : bool :=
  Js.looseEqString (JMap.get "url" input)
    (canonical config ++ "/" ++ resourceType ++ "/" ++ Js.template (JMap.get "id" input)).

(** *** processStructureDefinition *)

Definition deleteAll (props : list string) (o : list (string * JSON)) : list (string * JSON) :=
  fold_left (fun o prop => JMap.delete prop o) props o.

(** The body of [Object.keys(sd).forEach(key => ...)]: the reconciliation
    of one top-level array of [sd] with the one of [parent]. *)
Definition reconcileArray (state : list (string * JSON) * list (string * JSON)) (key : string)
  : list (string * JSON) * list (string * JSON) :=
  let '(sd, parent) := state in
  match JMap.get key sd with
  | Some (JArray (x :: l)) =>
      let hasNewItems :=
        match JMap.get key parent with
        | Some (JArray parentItems) =>
            match Js.differenceWith (x :: l) parentItems Js.isEqual with
            | [] => false
            | _ => true
            end
        | _ => true
        end in
      if hasNewItems && (String.eqb key "extension" || String.eqb key "modifierExtension")
      then (sd, JMap.delete key parent)
      else if negb hasNewItems then (JMap.delete key sd, parent)
      else state
  | _ => state
  end.

(** The copies [sd] and [parent] as they stand before the arrays are
    reconciled, and what was logged on the way. *)
Definition cleaned `{Utils} (input : list (string * JSON))
  : list (string * JSON) * list (string * JSON) * Log :=
  let sd := input in
  let '(parent, log) :=
    match fishForFHIR (JMap.get "baseDefinition" input) with
    | Some parent => (parent, [])
    | None =>
        (sd,
         [(Warn,
           ("Cannot reliably export top-level caret rules for "
            ++ Js.template (JMap.get "name" sd)
            ++ " because GoFSH cannot find a definition for its parent: "
            ++ Js.template (JMap.get "baseDefinition" sd)
            ++ ". If its parent is from another IG, run GoFSH again declaring that IG as a dependency.")%string)])
    end in
  let sd := deleteAll (RESOURCE_IGNORED_PROPERTIES StructureDefinition) sd in
  let parent := deleteAll (RESOURCE_IGNORED_PROPERTIES StructureDefinition) parent in
  let '(sd, parent) :=
    if Js.strictEq (Js.optProp (JMap.get "text" sd) "status") (Some (JString "generated"))
    then (JMap.delete "text" sd, JMap.delete "text" parent)
    else (sd, parent) in
  let parent := deleteAll SD_CLEARED_PROPERTIES parent in
  (sd, parent, log).

(** [sd] and [parent] as they stand when [processStructureDefinition]
    flattens them. *)
Definition prepared `{Utils} (input : list (string * JSON))
  : list (string * JSON) * list (string * JSON) * Log :=
  let '(sd, parent, log) := cleaned input in
  let '(sd, parent) := fold_left reconcileArray (JMap.keys sd) (sd, parent) in
  (sd, parent, log).

(** The condition under which a leaf of [sd] is looked at. *)
Definition differs (flatSD flatParent : FlatObject) (key : string) : bool :=
  Js.isNullish (JMap.get key flatParent)
  || negb (Js.isEqualOpt (JMap.get key flatSD) (JMap.get key flatParent))
  || (String.eqb key "status"
      && negb (Js.strictEq (JMap.get key flatSD) (Some (JString "active")))).

(** The tail shared by the three resource-level loops: resolve the value
    of entry [i], refuse it when empty. *)
Definition emit `{Utils} (rule : FSHValue -> ExportableCaretValueRule)
           (i : nat) (flatArray : FlatObject) (resourceType : string) (message : string)
           (state : list ExportableCaretValueRule * Log)
  : list ExportableCaretValueRule * Log :=
  let '(caretValueRules, log) := state in
  let v := getFSHValue i flatArray resourceType in
  if isFSHValueEmpty v then (caretValueRules, log ++ [(Error, message)])
  else (caretValueRules ++ [rule v], log).

(** The body of [flatArray.forEach(([key], i) => ...)] in
    [processStructureDefinition]. *)
Definition diffEntry `{Utils} (input : list (string * JSON)) (config : Configuration)
           (flatSD flatParent : FlatObject)
           (state : list ExportableCaretValueRule * Log) (entry : nat * (string * JSON))
  : list ExportableCaretValueRule * Log :=
  let '(i, (key, _)) := entry in
  if differs flatSD flatParent key then
    if String.eqb key "url" && isStandardURL "StructureDefinition" config input then state
    else
      emit (newRule "" key) i flatSD "StructureDefinition"
           ("Value in StructureDefinition " ++ Js.template (JMap.get "name" input)
            ++ " for element " ++ key
            ++ " is empty. No caret value rule will be created.")
           state
  else state.

Definition processStructureDefinition `{Utils} (input : list (string * JSON))
           (config : Configuration) : list ExportableCaretValueRule * Log :=
  let '(sd, parent, log) := prepared input in
  let flatSD := getPathValuePairs sd in
  let flatParent := getPathValuePairs parent in
  fold_left (diffEntry input config flatSD flatParent) (indexed flatSD) ([], log).

(** *** processResource *)

(** [key === property || new RegExp(`${property}(\\[\\d+\\])?\\.`).test(key)]
    for some [property] of the list. *)
Definition ignored (properties : list string) (key : string) : bool :=
  existsb (fun property => String.eqb key property || Js.testIgnored property key) properties.

(** [input.name ?? input.id] *)
Definition nameOrId (input : list (string * JSON)) : option JSON :=
  if Js.isNullish (JMap.get "name" input) then JMap.get "id" input else JMap.get "name" input.

Definition resourceEntry `{Utils} (input : list (string * JSON)) (resourceType : ResourceType)
           (config : Configuration) (flatArray : FlatObject)
           (state : list ExportableCaretValueRule * Log) (entry : nat * (string * JSON))
  : list ExportableCaretValueRule * Log :=
  let '(i, (key, _)) := entry in
  if String.eqb key "url" && isStandardURL (typeName resourceType) config input then state
  else
    emit (newRule "" key) i flatArray (typeName resourceType)
         ("Value in " ++ typeName resourceType ++ " " ++ Js.template (nameOrId input)
          ++ " for element " ++ key
          ++ " is empty. No caret value rule will be created.")
         state.

Definition processResource `{Utils} (input : list (string * JSON))
           (resourceType : ResourceType) (config : Configuration)
  : list ExportableCaretValueRule * Log :=
  let flatArray :=
    filter (fun kv => negb (ignored (RESOURCE_IGNORED_PROPERTIES resourceType) (fst kv)))
           (getPathValuePairs input) in
  fold_left (resourceEntry input resourceType config flatArray) (indexed flatArray) ([], []).

(** *** processConcept *)

Definition conceptRule `{Utils} (conceptHierarchy : list string) (key : string)
           (v : FSHValue) : ExportableCaretValueRule :=
  {| path := ""; caretPath := key; value := v; fshComment := None;
     isCodeCaretRule := true; pathArray := conceptHierarchy |}.

Definition conceptEntry `{Utils} (conceptHierarchy : list string) (codeSystemName : string)
           (flatArray : FlatObject)
           (state : list ExportableCaretValueRule * Log) (entry : nat * (string * JSON))
  : list ExportableCaretValueRule * Log :=
  let '(i, (key, _)) := entry in
  emit (conceptRule conceptHierarchy key) i flatArray "Concept"
       ("Value in CodeSytem " ++ codeSystemName ++ " at concept "
        ++ Str.join "." conceptHierarchy ++ " for element " ++ key
        ++ " is empty. No caret value rule will be created.")
       state.

Definition processConcept `{Utils} (input : list (string * JSON))
           (conceptHierarchy : list string) (codeSystemName : string)
  : list ExportableCaretValueRule * Log :=
  let flatArray :=
    filter (fun kv => negb (ignored CONCEPT_IGNORED_PROPERTIES (fst kv)))
           (getPathValuePairs input) in
  fold_left (conceptEntry conceptHierarchy codeSystemName flatArray) (indexed flatArray) ([], []).

End Extractor.

(* ------------------------------------------------------------------ *)
(** ** Notions the statements are written with *)

Module ExporterSpec.

Import Exporter.

(** The rules of the resources of one group that pass [test], counted
    one by one. *)
Definition uses (rulesOf : Exportable -> option (list Rule)) (test : Rule -> bool)
           (exportables : list Exportable) : nat :=
  list_sum
    (map (fun e => match rulesOf e with
                   | Some rules => List.length (filter test rules)
                   | None => 0
                   end) exportables).

Definition totalUses (rulesOf : Exportable -> option (list Rule)) (test : Rule -> bool)
           (files : Files) : nat :=
  list_sum (map (fun entry => uses rulesOf test (snd entry)) files).


(** The groups [export] keeps: those whose content is not empty once trimmed. *)
Definition retained `{Host} (files : Files) : Files :=
  filter (fun entry => negb (String.eqb (fileContent (snd entry)) "")) files.

(** One line per named exportable of each group. *)
Definition linesOf (files : Files) : list (list string) :=
  flat_map (fun entry => map (indexLine (fst entry)) (snd (partitionAliases (snd entry)))) files.

(** The rows of the index as the claim has them, written out kind by
    kind: the name of the statement, its category label and the name of
    its group; an alias has no row. *)
Definition rowOf (file : string) (e : Exportable) : list (list string) :=
  match e with
  | EAlias _ => []
  | ENamed (NProfile p) => [[profile_name p; "Profile"; file]]
  | ENamed (NExtension x) => [[extension_name x; "Extension"; file]]
  | ENamed (NCodeSystem c) => [[codeSystem_name c; "CodeSystem"; file]]
  | ENamed (NValueSet v) => [[valueSet_name v; "ValueSet"; file]]
  | ENamed (NInstance i) => [[instance_name i; "Instance"; file]]
  | ENamed (NInvariant i) => [[invariant_name i; "Invariant"; file]]
  | ENamed (NMapping m) => [[mapping_name m; "Mapping"; file]]
  end.

Definition expectedRows (files : Files) : list (list string) :=
  flat_map (fun entry => flat_map (rowOf (fst entry)) (snd entry)) files.

(** Ascending by name: every line is at most its successor, code unit by
    code unit. *)
Definition byName (line1 line2 : list string) : Prop :=
  String.leb (hd "" line1) (hd "" line2) = true.

(** Every group of every strategy is named [something.fsh], and a [Map]
    holds a key once. *)
Definition isFsh (k : string) : Prop := exists p, k = (p ++ ".fsh")%string.

Definition wf (files : Files) : Prop :=
  NoDup (JMap.keys files) /\ forall k, In k (JMap.keys files) -> isFsh k.

Definition withShared (shared : string) (files : Files) : Prop :=
  wf files /\ JMap.has shared files = true.

(** A profile that names the inline instance [I] in two of its rules. *)
Definition profileP : ExportableProfile :=
  {| profile_name := "P";
     profile_rules := [ ExportableAssignmentRule true (StringValue "I");
                        ExportableCaretValueRule true (StringValue "I") ] |}.

Definition instanceI : ExportableInstance :=
  {| instance_name := "I"; instanceOf := "Patient"; usage := "Inline";
     instance_rules := [] |}.

Definition packagePI : Package :=
  {| aliases := []; profiles := [profileP]; extensions := []; codeSystems := [];
     valueSets := []; instances := [instanceI]; invariants := []; mappings := [] |}.

(** A profile that names the inline instance [I] once and obeys two
    invariants. *)
Definition profileQ : ExportableProfile :=
  {| profile_name := "Q";
     profile_rules := [ ExportableAssignmentRule true (StringValue "I");
                        ExportableObeysRule ["inv-1"; "inv-2"] ] |}.

Definition invariant1 : ExportableInvariant := {| invariant_name := "inv-1" |}.

Definition emptyPackage : Package :=
  {| aliases := []; profiles := []; extensions := []; codeSystems := [];
     valueSets := []; instances := []; invariants := []; mappings := [] |}.

(** *** Notions for the further facts *)

(** Everything the groups hold, group after group. *)
Definition contents (files : Files) : list Exportable := flat_map snd files.

(** Everything a package holds, in the order of [groupAsSingleFile]. *)
Definition allExportables (fshPackage : Package) : list Exportable :=
  map EAlias (aliases fshPackage)
  ++ map (fun p => ENamed (NProfile p)) (profiles fshPackage)
  ++ map (fun e => ENamed (NExtension e)) (extensions fshPackage)
  ++ map (fun c => ENamed (NCodeSystem c)) (codeSystems fshPackage)
  ++ map (fun v => ENamed (NValueSet v)) (valueSets fshPackage)
  ++ map (fun i => ENamed (NInstance i)) (instances fshPackage)
  ++ map (fun i => ENamed (NInvariant i)) (invariants fshPackage)
  ++ map (fun m => ENamed (NMapping m)) (mappings fshPackage).

(** The names [groupByProfile] gives to its shared groups, less [.fsh]. *)
Definition sharedGroups : list string :=
  ["instances"; "invariants"; "aliases"; "extensions"; "valueSets"; "codeSystems";
   "mappings"].

(** The first character is no white space. *)
Definition startsTight (s : string) : bool :=
  match s with
  | String c _ => negb (Str.isWhiteSpace c)
  | EmptyString => false
  end.

(** The last character is no white space. *)
Fixpoint endsTight (s : string) : bool :=
  match s with
  | EmptyString => false
  | String c EmptyString => negb (Str.isWhiteSpace c)
  | String _ s' => endsTight s'
  end.

Definition tight (s : string) : bool := startsTight s && endsTight s.

Fixpoint allWhite (s : string) : bool :=
  match s with
  | EmptyString => true
  | String c s' => Str.isWhiteSpace c && allWhite s'
  end.

(** A host to run the exporter on examples: one line per exportable, the
    index as lines of cells parted by two blanks. *)
Definition exampleHost : Host :=
  {| toFSH := fun e => match e with
                       | EAlias a => ("Alias: " ++ alias a ++ " = " ++ url a)%string
                       | ENamed n =>
                           (Str.replaceFirst "Exportable" "" (constructorName n)
                            ++ ": " ++ name n)%string
                       end;
     table := fun rows => Str.join Str.LF (map (Str.join "  ") rows);
     platform := Posix |}.

Definition aliasLNC : ExportableAlias := {| alias := "LNC"; url := "http://loinc.org" |}.

Definition exampleInstance : ExportableInstance :=
  {| instance_name := "Example1"; instanceOf := "Q"; usage := "Example";
     instance_rules := [] |}.

Definition packageQ : Package :=
  {| aliases := [aliasLNC]; profiles := [profileQ; profileP]; extensions := [];
     codeSystems := []; valueSets := []; instances := [instanceI; exampleInstance];
     invariants := [invariant1]; mappings := [] |}.

(** The names of a list of definitions of one kind. *)
Definition namesOf {A} (inj : A -> NamedExportable) (l : list A) : list string :=
  map (fun x => name (inj x)) l.

(** One group per definition, named after it and its kind. *)
Definition perDefinition {A} (inj : A -> NamedExportable) (suffix : string) (l : list A)
  : Files :=
  map (fun x => ((name (inj x) ++ suffix)%string, [ENamed (inj x)])) l.

(** The groups [groupByProfile] sets after it has placed the instances. *)
Definition laterGroups : list string :=
  ["invariants"; "aliases"; "extensions"; "valueSets"; "codeSystems"; "mappings"].

(** The group of an instance that is not inline: the one of the profile it
    is an example of, if the package has that profile. *)
Definition homeOf (fshPackage : Package) (i : ExportableInstance) : string :=
  if String.eqb (usage i) "Example"
     && existsb (fun p => String.eqb (profile_name p) (instanceOf i)) (profiles fshPackage)
  then (instanceOf i ++ ".fsh")%string
  else "instances.fsh"%string.

(** A package whose one profile is named like a shared group. *)
Definition profileNamedMappings : ExportableProfile :=
  {| profile_name := "mappings"; profile_rules := [] |}.

Definition packageShadowed : Package :=
  {| aliases := [aliasLNC]; profiles := [profileNamedMappings; profileP]; extensions := [];
     codeSystems := []; valueSets := []; instances := [instanceI]; invariants := [];
     mappings := [] |}.

(** Every profile a group holds gave the group its name, and the group is
    none of [reset]. *)
Definition profilesAtHome (reset : list string) (files : Files) : Prop :=
  NoDup (JMap.keys files)
  /\ forall k l q,
       In (k, l) files -> In (ENamed (NProfile q)) l ->
       k = (profile_name q ++ ".fsh")%string /\ ~ In k reset.

(** *** The scan of the by-profile strategy, written out from the claim *)















End ExporterSpec.

Module ExtractorSpec.

Import Extractor.

Fixpoint allDigits (s : string) : bool :=
  match s with
  | EmptyString => true
  | String c s' => Str.isDigit c && allDigits s'
  end.

(** Nothing, or one array index [[n]]. *)
Definition optionalIndex (idx : string) : Prop :=
  idx = "" \/ exists ds, ds <> "" /\ allDigits ds = true /\ idx = ("[" ++ ds ++ "]")%string.

(** [property], an optional array index and a dot occur somewhere in [key]. *)
Definition occursIn (property key : string) : Prop :=
  exists pre idx post,
    optionalIndex idx /\ key = (pre ++ property ++ idx ++ "." ++ post)%string.

Fixpoint dotFree (s : string) : bool :=
  match s with
  | EmptyString => true
  | String c s' => negb (Ascii.eqb c ".") && dotFree s'
  end.

(** What one entry adds to the rules and to the log of a loop. *)
Definition contribution {R A} (step : list R * Log -> A -> list R * Log) (e : A)
  : list R * Log := step ([], []) e.

(** A loop body only appends to the rules and to the log. *)
Definition appends {R A} (step : list R * Log -> A -> list R * Log) : Prop :=
  forall s e,
    step s e = (fst s ++ fst (contribution step e), snd s ++ snd (contribution step e)).

(** The copies [processStructureDefinition] flattens, and their flattenings. *)
Definition sdCopy `{Utils} (input : list (string * JSON)) := fst (fst (prepared input)).
Definition parentCopy `{Utils} (input : list (string * JSON)) := snd (fst (prepared input)).
Definition flatSD `{Utils} (input : list (string * JSON)) := getPathValuePairs (sdCopy input).
Definition flatParent `{Utils} (input : list (string * JSON)) :=
  getPathValuePairs (parentCopy input).

(** The entries [processResource] and [processConcept] keep. *)
Definition keptEntries (properties : list string) (input : list (string * JSON)) : FlatObject :=
  filter (fun kv => negb (ignored properties (fst kv))) (getPathValuePairs input).

(** A statement is emitted for the leaf path [key]. *)
Definition emittedFor `{Utils} (rules : list ExportableCaretValueRule) (key : string) : Prop :=
  exists r, In r rules /\ caretPath r = key.


(** The message [process] logs for an empty value. *)
Definition emptyElementValue (structDef : ProcessableStructureDefinition)
           (input : ProcessableElementDefinition) (key : string) : Level * string :=
  (Error,
   ("Value in StructureDefinition " ++ name structDef ++ " for element "
    ++ getPath input ++ "." ++ key
    ++ " is empty. No caret value rule will be created.")%string).

(** A property name as FHIR has them: no dot and no bracket, so that the
    head of a leaf path tells the top-level property it comes from. *)
Fixpoint plainName (k : string) : bool :=
  match k with
  | EmptyString => true
  | String c k' => negb (Ascii.eqb c ".") && negb (Ascii.eqb c "[") && plainName k'
  end.

(** An object as a parser builds it: each key once, plain names. *)
Definition plainObject (o : list (string * JSON)) : Prop :=
  NoDup (JMap.keys o) /\ forallb plainName (JMap.keys o) = true.

(** What follows the name of a property in a leaf path: nothing, a dot or
    an index. *)
Definition headed (rest : string) : Prop :=
  rest = "" \/ exists rest', rest = String "." rest' \/ rest = String "[" rest'.

(** The copies before the arrays are reconciled. *)
Definition sdClean `{Utils} (input : list (string * JSON)) := fst (fst (cleaned input)).
Definition parentClean `{Utils} (input : list (string * JSON)) := snd (fst (cleaned input)).

(** The leaf paths under the top-level property [k] holding [v]. *)
Definition leafPaths (k : string) (v : JSON) : list string := JMap.keys (flattenAt k v).

(** Some item of [items] is in no way equal to an item of the parent's array. *)
Definition hasNewItems (items : list JSON) (parentValue : option JSON) : bool :=
  match parentValue with
  | Some (JArray parentItems) =>
      match Js.differenceWith items parentItems Js.isEqual with
      | [] => false
      | _ => true
      end
  | _ => true
  end.

Definition isExtensionCarrier (k : string) : bool :=
  String.eqb k "extension" || String.eqb k "modifierExtension".

(** The two inner loops of [flattenAt], on their own. *)
Fixpoint flattenItems (path : string) (i : nat) (l : list JSON) : FlatObject :=
  match l with
  | [] => []
  | x :: l' => flattenAt (path ++ "[" ++ Str.ofNat i ++ "]") x ++ flattenItems path (S i) l'
  end.

Fixpoint flattenProps (path : string) (m : list (string * JSON)) : FlatObject :=
  match m with
  | [] => []
  | (k, x) :: m' => flattenAt (path ++ "." ++ k) x ++ flattenProps path m'
  end.

(** Induction on JSON values, through arrays and objects. *)
Section JSONInduction.

Variable P : JSON -> Prop.
Hypothesis PNull : P JNull.
Hypothesis PBool : forall b, P (JBool b).
Hypothesis PNumber : forall n, P (JNumber n).
Hypothesis PString : forall s, P (JString s).
Hypothesis PArray : forall l, Forall P l -> P (JArray l).
Hypothesis PObject : forall m, Forall (fun kv => P (snd kv)) m -> P (JObject m).

Fixpoint JSON_induction (v : JSON) : P v :=
  match v with
  | JNull => PNull
  | JBool b => PBool b
  | JNumber n => PNumber n
  | JString s => PString s
  | JArray l =>
      PArray l
        ((fix items (l : list JSON) : Forall P l :=
            match l with
            | [] => Forall_nil P
            | x :: l' => Forall_cons x (JSON_induction x) (items l')
            end) l)
  | JObject m =>
      PObject m
        ((fix props (m : list (string * JSON)) : Forall (fun kv => P (snd kv)) m :=
            match m with
            | [] => Forall_nil _
            | kv :: m' => Forall_cons kv (JSON_induction (snd kv)) (props m')
            end) m)
  end.

End JSONInduction.

(** *** Collaborators to run the extractor on examples *)

Definition valueAt (i : nat) (flatArray : FlatObject) (resourceType : string) : JSON :=
  match nth_error flatArray i with
  | Some (_, v) => v
  | None => JNull
  end.

Definition emptyLeaf (v : JSON) : bool :=
  match v with
  | JNull | JArray [] | JObject [] => true
  | _ => false
  end.

(** The FSH value of a leaf is the leaf; [null], the empty array and the
    empty object are empty; [definitions] is what the fisher knows, by url. *)
Definition exampleUtils (definitions : list (string * list (string * JSON))) : Utils :=
  {| FSHValue := JSON;
     getFSHValue := valueAt;
     isFSHValueEmpty := emptyLeaf;
     fishForFHIR := fun url => match url with
                               | Some (JString u) => JMap.get u definitions
                               | _ => None
                               end |}.

(** *** A profile of Patient and the definitions around it *)

Definition patientUrl : string := "http://hl7.org/fhir/StructureDefinition/Patient".

Definition patientDefinition : list (string * JSON) :=
  [ ("resourceType", JString "StructureDefinition");
    ("id", JString "Patient");
    ("url", JString patientUrl);
    ("name", JString "Patient");
    ("status", JString "active");
    ("kind", JString "resource");
    ("abstract", JBool false);
    ("type", JString "Patient") ].

Definition knownDefinitions : list (string * list (string * JSON)) :=
  [ (patientUrl, patientDefinition) ].

Definition exampleConfig : Configuration := {| canonical := "https://example.org/fhir" |}.

(** A draft profile of Patient whose url is the standard one. *)
Definition myProfile : list (string * JSON) :=
  [ ("resourceType", JString "StructureDefinition");
    ("id", JString "my-profile");
    ("url", JString "https://example.org/fhir/StructureDefinition/my-profile");
    ("name", JString "MyProfile");
    ("status", JString "draft");
    ("kind", JString "resource");
    ("abstract", JBool false);
    ("type", JString "Patient");
    ("baseDefinition", JString patientUrl);
    ("derivation", JString "constraint") ].

(** A draft profile with a url of its own, whose parent the fisher does
    not know. *)
Definition otherProfile : list (string * JSON) :=
  [ ("resourceType", JString "StructureDefinition");
    ("id", JString "my-profile");
    ("url", JString "http://other.example.org/profiles/my-profile");
    ("name", JString "MyProfile");
    ("status", JString "draft");
    ("kind", JString "resource");
    ("abstract", JBool false);
    ("type", JString "Patient");
    ("baseDefinition", JString "http://elsewhere.example.org/StructureDefinition/Base");
    ("derivation", JString "constraint") ].

(** A base definition with one extension, and a profile of it that keeps
    the extension and adds one whose value is an empty object. *)
Definition baseUrl : string := "http://example.org/fhir/StructureDefinition/Base".

Definition extensionX : JSON := JObject [ ("url", JString "http://example.org/ext/x") ].

Definition extensionY : JSON :=
  JObject [ ("url", JString "http://example.org/ext/y");
            ("valueCodeableConcept", JObject []) ].

Definition baseDefinition : list (string * JSON) :=
  [ ("resourceType", JString "StructureDefinition");
    ("id", JString "Base");
    ("url", JString baseUrl);
    ("name", JString "Base");
    ("status", JString "active");
    ("extension", JArray [extensionX]);
    ("contextInvariant", JArray [JString "a"; JString "b"; JString "c"]) ].

Definition extendedProfile : list (string * JSON) :=
  [ ("resourceType", JString "StructureDefinition");
    ("id", JString "extended");
    ("url", JString "https://example.org/fhir/StructureDefinition/extended");
    ("name", JString "Extended");
    ("status", JString "active");
    ("extension", JArray [extensionX; extensionY]);
    ("contextInvariant", JArray [JString "a"; JString "b"]);
    ("baseDefinition", JString baseUrl) ].

Definition extensionDefinitions : list (string * list (string * JSON)) :=
  [ (baseUrl, baseDefinition) ].

(** *** An element of a differential and snapshots to read it against *)

Definition constraintKeyed (key : string) : JSON :=
  JObject [ ("key", JString key); ("severity", JString "error") ].

(** The differential element: its one constraint, [ele-1], is at index 0. *)
Definition valueQuantityElement : ProcessableElementDefinition :=
  {| getPath := "valueQuantity";
     toJSON := [ ("id", JString "Observation.valueQuantity");
                 ("path", JString "Observation.value[x]");
                 ("constraint", JArray [constraintKeyed "ele-1"]) ];
     processedPaths := [] |}.

Definition observationRoot : SnapshotElement :=
  {| id := Some "Observation"; constraint := Some [constraintKeyed "dom-2"]; mapping := None |}.

(** In the snapshot the element goes by the choice-slice id and holds
    [ele-1] at index 2. *)
Definition observationProfile : ProcessableStructureDefinition :=
  {| name := "MyObservation";
     snapshot_element :=
       Some [ observationRoot;
              {| id := Some "Observation.value[x]:valueQuantity";
                 constraint := Some [ constraintKeyed "obs-7"; constraintKeyed "qty-3";
                                      constraintKeyed "ele-1" ];
                 mapping := None |} ] |}.

(** A snapshot whose element does not hold [ele-1]. *)
Definition staleProfile : ProcessableStructureDefinition :=
  {| name := "MyObservation";
     snapshot_element :=
       Some [ observationRoot;
              {| id := Some "Observation.valueQuantity";
                 constraint := Some [ constraintKeyed "obs-7"; constraintKeyed "qty-3" ];
                 mapping := None |} ] |}.

(** No snapshot at all. *)
Definition differentialOnly : ProcessableStructureDefinition :=
  {| name := "MyObservation"; snapshot_element := None |}.

(** *** Closed forms of the loops *)

(** The entries of a flattened document whose value is not empty, with
    their positions. *)
Definition valued `{Utils} (resourceType : string) (flatArray : FlatObject)
  : list (nat * (string * JSON)) :=
  filter (fun e => negb (isFSHValueEmpty (getFSHValue (fst e) flatArray resourceType)))
         (indexed flatArray).

(** The entries whose value is empty. *)
Definition unvalued `{Utils} (resourceType : string) (flatArray : FlatObject)
  : list (nat * (string * JSON)) :=
  filter (fun e => isFSHValueEmpty (getFSHValue (fst e) flatArray resourceType))
         (indexed flatArray).

(** The comment of a statement when there is no snapshot to read its
    index against: the one for the mapping index if the path has one,
    else the one for the constraint index. *)
Definition commentWithoutSnapshot (key : string) : option string :=
  match Js.matchIndexed "mapping" key with
  | Some digits => Some (indexComment "mapping" ("mapping[" ++ digits ++ "]"))
  | None =>
      match Js.matchIndexed "constraint" key with
      | Some digits => Some (indexComment "constraint" ("constraint[" ++ digits ++ "]"))
      | None => None
      end
  end.

(** The warnings for one path when there is no snapshot: one for its
    constraint index, then one for its mapping index. *)
Definition warningsWithoutSnapshot (structDef : ProcessableStructureDefinition)
           (input : ProcessableElementDefinition) (key : string) : Log :=
  (match Js.matchIndexed "constraint" key with
   | Some _ => [indexWarning "constraint" (name structDef) (getPath input) key]
   | None => []
   end)
  ++ (match Js.matchIndexed "mapping" key with
      | Some _ => [indexWarning "mapping" (name structDef) (getPath input) key]
      | None => []
      end).

(** *** An element with a mapping, and a snapshot that lists it second *)

Definition mappedElement : ProcessableElementDefinition :=
  {| getPath := "code";
     toJSON := [ ("id", JString "Observation.code");
                 ("path", JString "Observation.code");
                 ("mapping", JArray [ JObject [ ("identity", JString "rim");
                                                ("map", JString "code") ] ]) ];
     processedPaths := [] |}.

Definition mappedSnapshotElement : SnapshotElement :=
  {| id := Some "Observation.code";
     constraint := None;
     mapping := Some [ JObject [ ("identity", JString "v2"); ("map", JString "OBX-3") ];
                       JObject [ ("map", JString "code"); ("identity", JString "rim") ] ] |}.

Definition mappedProfile : ProcessableStructureDefinition :=
  {| name := "MyObservation";
     snapshot_element := Some [ observationRoot; mappedSnapshotElement ] |}.

(** An element whose extension has a property named [constraint], and
    no constraint of its own. *)
Definition extendedElement : ProcessableElementDefinition :=
  {| getPath := "code";
     toJSON := [ ("id", JString "Observation.code");
                 ("path", JString "Observation.code");
                 ("extension",
                  JArray [ JObject [ ("constraint", JArray [ JString "x" ]) ] ]) ];
     processedPaths := [] |}.

(** *** Documents as a parser builds them *)

Fixpoint distinct (l : list string) : bool :=
  match l with
  | [] => true
  | k :: l' => negb (existsb (String.eqb k) l') && distinct l'
  end.

(** No object of the value has a property twice. *)
Fixpoint wellFormed (v : JSON) : bool :=
  match v with
  | JArray l => forallb wellFormed l
  | JObject m => distinct (JMap.keys m) && forallb (fun kv => wellFormed (snd kv)) m
  | _ => true
  end.

Definition nonEmptyArray (v : JSON) : bool :=
  match v with
  | JArray (_ :: _) => true
  | _ => false
  end.

(** [sd.text?.status === 'generated'] *)
Definition generatedText (o : list (string * JSON)) : bool :=
  Js.strictEq (Js.optProp (JMap.get "text" o) "status") (Some (JString "generated")).

(** *** A profile that repeats what its parent says *)

Definition publishedParentUrl : string := "http://example.org/fhir/StructureDefinition/Parent".

Definition contactHL7 : JSON := JObject [ ("name", JString "HL7") ].

Definition publishedParent : list (string * JSON) :=
  [ ("resourceType", JString "StructureDefinition");
    ("id", JString "Parent");
    ("url", JString publishedParentUrl);
    ("name", JString "Parent");
    ("status", JString "active");
    ("publisher", JString "HL7");
    ("contact", JArray [contactHL7]);
    ("kind", JString "resource") ].

Definition publishedProfile : list (string * JSON) :=
  [ ("resourceType", JString "StructureDefinition");
    ("id", JString "published");
    ("url", JString "https://example.org/fhir/StructureDefinition/published");
    ("name", JString "Published");
    ("text", JObject [ ("status", JString "generated"); ("div", JString "<div/>") ]);
    ("status", JString "active");
    ("publisher", JString "HL7");
    ("contact", JArray [contactHL7]);
    ("kind", JString "resource");
    ("baseDefinition", JString publishedParentUrl);
    ("derivation", JString "constraint") ].

Definition publishedDefinitions : list (string * list (string * JSON)) :=
  [ (publishedParentUrl, publishedParent) ].

(** The two inner loops of [Js.isEqual], on their own. *)
Fixpoint itemsEqual (xs ys : list JSON) : bool :=
  match xs, ys with
  | [], [] => true
  | x :: xs', y :: ys' => Js.isEqual x y && itemsEqual xs' ys'
  | _, _ => false
  end.

Fixpoint propsEqual (m' m : list (string * JSON)) : bool :=
  match m with
  | [] => true
  | (k, v) :: rest =>
      match JMap.get k m' with
      | Some v' => Js.isEqual v v'
      | None => false
      end && propsEqual m' rest
  end.

(** *** The two syntaxes of an element id *)

(** A part of an element id: a plain name, or the slice of a choice
    element, which the snapshot writes [choice[x]:slice]. *)
Inductive Segment :=
| Plain (name : string)
| Slice (choice slice : string).

Definition segmentOk (seg : Segment) : bool :=
  match seg with
  | Plain name => plainName name
  | Slice choice slice => plainName choice && dotFree slice
  end.

Definition snapshotSyntax (seg : Segment) : string :=
  match seg with
  | Plain name => name
  | Slice choice slice => choice ++ "[x]:" ++ slice
  end.

Definition differentialSyntax (seg : Segment) : string :=
  match seg with
  | Plain name => name
  | Slice _ slice => slice
  end.

(** A snapshot that has the root element only. *)
Definition rootOnlyProfile : ProcessableStructureDefinition :=
  {| name := "MyObservation"; snapshot_element := Some [ observationRoot ] |}.

(** *** A path with a constraint index and a mapping index *)






End ExtractorSpec.

(* ------------------------------------------------------------------ *)
(** ** Facts about strings *)

Module StrFacts.

Import Str.

Lemma append_assoc (a b c : string) : ((a ++ b) ++ c = a ++ (b ++ c))%string.
Proof. induction a as [|x a IH]; simpl; [reflexivity|now rewrite IH]. Qed.

Lemma append_nil_r (a : string) : (a ++ "")%string = a.
Proof. induction a as [|x a IH]; simpl; [reflexivity|now rewrite IH]. Qed.

Lemma prefix_app (p r : string) : prefix p (p ++ r) = true.
Proof.
  induction p as [|c p IH]; simpl; [now destruct r|].
  destruct (ascii_dec c c); [assumption|contradiction].
Qed.

Lemma prefix_inv (p s : string) : prefix p s = true -> exists r, s = (p ++ r)%string.
Proof.
  revert s. induction p as [|c p IH]; intros s Hp.
  - now exists s.
  - destruct s as [|d s]; simpl in Hp; [discriminate|].
    destruct (ascii_dec c d) as [->|]; [|discriminate].
    destruct (IH s Hp) as [r ->]. now exists r.
Qed.

Lemma drop_app (p r : string) : drop (length p) (p ++ r) = r.
Proof. induction p as [|c p IH]; simpl; [now destruct r|assumption]. Qed.

Lemma length_app (a b : string) : length (a ++ b) = length a + length b.
Proof. induction a as [|x a IH]; simpl; [reflexivity|now rewrite IH]. Qed.

Lemma replaceFirst_here (pat rep r : string) :
  replaceFirst pat rep (pat ++ r) = (rep ++ r)%string.
Proof.
  destruct r as [|c r]; destruct pat as [|d pat]; simpl; try reflexivity.
  - destruct (ascii_dec d d); [|contradiction].
    now rewrite (prefix_app pat ""), (drop_app pat "").
  - destruct (ascii_dec d d); [|contradiction].
    now rewrite (prefix_app pat (String c r)), (drop_app pat (String c r)).
Qed.

End StrFacts.

(* ------------------------------------------------------------------ *)
(** ** Facts about insertion-ordered maps *)

Module JMapFacts.

Import JMap.

Lemma get_set_same {V} k (v : V) m : get k (set k v m) = Some v.
Proof.
  induction m as [|[k' v'] m IH]; simpl.
  - now rewrite String.eqb_refl.
  - destruct (String.eqb k k') eqn:E; simpl.
    + now rewrite String.eqb_refl.
    + now rewrite E.
Qed.

Lemma get_set_other {V} k k' (v : V) m : k <> k' -> get k' (set k v m) = get k' m.
Proof.
  intros Hne. induction m as [|[k0 v0] m IH]; simpl.
  - destruct (String.eqb_spec k' k); congruence.
  - destruct (String.eqb_spec k k0) as [->|]; simpl.
    + destruct (String.eqb_spec k' k0); congruence.
    + now rewrite IH.
Qed.

Lemma keys_set {V} k (v : V) m k' :
  In k' (keys (set k v m)) <-> k' = k \/ In k' (keys m).
Proof.
  induction m as [|[k0 v0] m IH]; simpl.
  - intuition.
  - destruct (String.eqb_spec k k0) as [->|]; simpl; [intuition|].
    rewrite IH. intuition.
Qed.

Lemma set_NoDup {V} k (v : V) m : NoDup (keys m) -> NoDup (keys (set k v m)).
Proof.
  induction m as [|[k0 v0] m IH]; simpl; intros Hnd.
  - constructor; [intros []|constructor].
  - inversion Hnd as [|? ? Hnotin Hnd']; subst.
    destruct (String.eqb_spec k k0) as [->|Hne]; simpl.
    + now constructor.
    + constructor; [|now apply IH].
      rewrite (keys_set k v m k0). intros [->|Hin]; [congruence|contradiction].
Qed.

Lemma has_keys {V} k (m : t V) : has k m = true <-> In k (keys m).
Proof.
  unfold has. induction m as [|[k0 v0] m IH]; simpl.
  - split; [discriminate|intros []].
  - destruct (String.eqb_spec k k0) as [->|Hne].
    + intuition.
    + rewrite IH. intuition congruence.
Qed.

Lemma get_None {V} k (m : t V) : ~ In k (keys m) -> get k m = None.
Proof.
  intros Hnotin. destruct (get k m) eqn:E; [|reflexivity].
  exfalso. apply Hnotin, has_keys. unfold has. now rewrite E.
Qed.

Lemma get_In {V} k (v : V) m : NoDup (keys m) -> In (k, v) m -> get k m = Some v.
Proof.
  induction m as [|[k0 v0] m IH]; simpl; intros Hnd Hin; [contradiction|].
  inversion Hnd as [|? ? Hnotin Hnd']; subst.
  destruct Hin as [Heq|Hin].
  - inversion Heq; subst. now rewrite String.eqb_refl.
  - destruct (String.eqb_spec k k0) as [->|Hne]; [|now apply IH].
    exfalso. apply Hnotin. now apply (in_map fst) in Hin.
Qed.

Lemma get_Some_In {V} k (v : V) m : get k m = Some v -> In (k, v) m.
Proof.
  induction m as [|[k0 v0] m IH]; simpl; [discriminate|].
  destruct (String.eqb_spec k k0) as [->|Hne].
  - intros [= ->]. now left.
  - intros Hget. right. now apply IH.
Qed.

Lemma filter_NoDup {V} (keep : string * V -> bool) (m : t V) :
  NoDup (keys m) -> NoDup (keys (filter keep m)).
Proof.
  unfold keys. induction m as [|[k v] m IH]; simpl; intros Hnd; [constructor|].
  inversion Hnd as [|? ? Hnotin Hnd']; subst.
  destruct (keep (k, v)); simpl; [|now apply IH].
  constructor; [|now apply IH].
  intros Hin. apply Hnotin. apply in_map_iff in Hin. destruct Hin as (e & He & Hin).
  apply filter_In in Hin. apply in_map_iff. exists e. tauto.
Qed.

Lemma delete_In {V} k (m : t V) e : In e (delete k m) <-> In e m /\ fst e <> k.
Proof.
  unfold delete. rewrite filter_In. destruct (String.eqb_spec k (fst e)); simpl;
    intuition congruence.
Qed.

Lemma get_delete_same {V} k (m : t V) : get k (delete k m) = None.
Proof.
  apply get_None. intros Hin. apply in_map_iff in Hin. destruct Hin as (e & He & Hin).
  apply delete_In in Hin. tauto.
Qed.

Lemma get_delete_other {V} k k' (m : t V) : k <> k' -> get k' (delete k m) = get k' m.
Proof.
  intros Hne. unfold delete. induction m as [|[k0 v0] m IH]; simpl; [reflexivity|].
  destruct (String.eqb_spec k k0) as [->|Hk]; simpl.
  - destruct (String.eqb_spec k' k0); [congruence|assumption].
  - now rewrite IH.
Qed.

Lemma push_Some {A} k (x : A) m :
  has k m = true ->
  exists l, get k m = Some l /\ push k x m = Some (set k (l ++ [x]) m).
Proof.
  unfold has, push. destruct (get k m) as [l|]; [|discriminate].
  intros _. now exists l.
Qed.

Lemma push_keys {A} k (x : A) m m' k' :
  push k x m = Some m' -> (In k' (keys m') <-> In k' (keys m)).
Proof.
  unfold push. destruct (get k m) as [l|] eqn:E; [|discriminate].
  intros [= <-]. rewrite keys_set. split; [|tauto].
  intros [->|Hin]; [|assumption].
  apply has_keys. unfold has. now rewrite E.
Qed.

Lemma push_NoDup {A} k (x : A) m m' :
  push k x m = Some m' -> NoDup (keys m) -> NoDup (keys m').
Proof.
  unfold push. destruct (get k m) as [l|]; [|discriminate].
  intros [= <-]. apply set_NoDup.
Qed.

End JMapFacts.

(* ------------------------------------------------------------------ *)
(** ** Facts about the sort *)

Module JArrayFacts.

Import JArray.

Lemma insertBy_perm {A} (cmp : A -> A -> Z) x l : Permutation (x :: l) (insertBy cmp x l).
Proof.
  induction l as [|y l IH]; simpl.
  - apply Permutation_refl.
  - destruct (cmp x y <? 0)%Z.
    + apply Permutation_refl.
    + eapply perm_trans; [apply perm_swap|]. now apply perm_skip.
Qed.

Lemma sort_from_perm {A} (cmp : A -> A -> Z) l : forall acc,
  Permutation (l ++ acc) (fold_left (fun sorted x => insertBy cmp x sorted) l acc).
Proof.
  induction l as [|x l IH]; intros acc; simpl.
  - apply Permutation_refl.
  - eapply perm_trans; [|apply IH].
    eapply perm_trans; [apply Permutation_middle|].
    apply Permutation_app_head, insertBy_perm.
Qed.

Lemma sort_perm {A} (cmp : A -> A -> Z) l : Permutation l (sort cmp l).
Proof.
  unfold sort. rewrite <- (app_nil_r l) at 1. apply sort_from_perm.
Qed.

Section Ordered.

Variable A : Type.
Variable cmp : A -> A -> Z.
Variable le : A -> A -> Prop.
Hypothesis below : forall x y, (cmp x y <? 0)%Z = true -> le x y.
Hypothesis not_below : forall x y, (cmp x y <? 0)%Z = false -> le y x.

Lemma insertBy_sorted x l : Sorted le l -> Sorted le (insertBy cmp x l).
Proof.
  induction l as [|y l IH]; simpl; intros Hs.
  - repeat constructor.
  - destruct (cmp x y <? 0)%Z eqn:E.
    + constructor; [assumption|]. constructor. now apply below.
    + inversion Hs as [|? ? Hs' Hhd]; subst.
      constructor; [now apply IH|].
      destruct l as [|z l]; simpl.
      * constructor. now apply not_below.
      * destruct (cmp x z <? 0)%Z; constructor.
        -- now apply not_below.
        -- now inversion Hhd.
Qed.

Lemma sort_from_sorted l : forall acc,
  Sorted le acc -> Sorted le (fold_left (fun sorted x => insertBy cmp x sorted) l acc).
Proof.
  induction l as [|x l IH]; intros acc Hs; simpl; [assumption|].
  apply IH. now apply insertBy_sorted.
Qed.

Lemma sort_sorted l : Sorted le (sort cmp l).
Proof. apply sort_from_sorted. constructor. Qed.

End Ordered.

End JArrayFacts.

(* ------------------------------------------------------------------ *)
(** ** Facts about the exporter *)

Module ExporterFacts.

Import Exporter ExporterSpec JMapFacts.

(** *** Where an exportable is used *)

Lemma rule_pushes (test : Rule -> bool) (file : string) rules :
  flat_map (fun r => if test r then [file] else []) rules
  = repeat file (List.length (filter test rules)).
Proof.
  induction rules as [|r rules IH]; simpl; [reflexivity|].
  destruct (test r); simpl; now rewrite IH.
Qed.

Lemma group_pushes (rulesOf : Exportable -> option (list Rule)) (test : Rule -> bool)
      (file : string) exportables :
  flat_map (fun e => match rulesOf e with
                     | Some rules => flat_map (fun r => if test r then [file] else []) rules
                     | None => []
                     end) exportables
  = repeat file (uses rulesOf test exportables).
Proof.
  unfold uses. induction exportables as [|e es IH]; simpl; [reflexivity|].
  rewrite repeat_app, <- IH. f_equal.
  destruct (rulesOf e); [apply rule_pushes|reflexivity].
Qed.

Lemma usedIn_cons rulesOf test file exportables files :
  usedIn rulesOf test ((file, exportables) :: files)
  = repeat file (uses rulesOf test exportables) ++ usedIn rulesOf test files.
Proof. unfold usedIn. simpl. now rewrite group_pushes. Qed.

Lemma usedIn_length rulesOf test files :
  List.length (usedIn rulesOf test files) = totalUses rulesOf test files.
Proof.
  unfold totalUses. induction files as [|[file es] files IH]; [reflexivity|].
  rewrite usedIn_cons, length_app, repeat_length, IH. reflexivity.
Qed.

Lemma usedIn_once rulesOf test files file :
  usedIn rulesOf test files = [file] ->
  exists exportables, In (file, exportables) files /\ uses rulesOf test exportables = 1.
Proof.
  induction files as [|[g es] files IH]; [discriminate|].
  rewrite usedIn_cons.
  destruct (uses rulesOf test es) as [|[|n]] eqn:E; simpl.
  - intros Hu. destruct (IH Hu) as (es' & Hin & Hone).
    exists es'. split; [now right|assumption].
  - intros [= -> _]. exists es. split; [now left|assumption].
  - discriminate.
Qed.

(** The placement rule shared by inline instances and invariants. *)
Lemma placeByUse_spec rulesOf test shared x (files : Files) :
  NoDup (JMap.keys files) ->
  JMap.has shared files = true ->
  exists group exportables,
    JMap.get group files = Some exportables
    /\ placeByUse (usedIn rulesOf test files) shared x files
       = Some (JMap.set group (exportables ++ [x]) files)
    /\ (if Nat.eqb (totalUses rulesOf test files) 1
        then uses rulesOf test exportables = 1
        else group = shared).
Proof.
  intros Hnd Hshared.
  rewrite <- usedIn_length.
  destruct (usedIn rulesOf test files) as [|file [|file' rest]] eqn:E; simpl.
  - destruct (push_Some shared x files Hshared) as (l & Hget & Hpush).
    exists shared, l. auto.
  - destruct (usedIn_once _ _ _ _ E) as (es & Hin & Hone).
    pose proof (get_In _ _ _ Hnd Hin) as Hget.
    exists file, es. unfold JMap.push. rewrite Hget. auto.
  - destruct (push_Some shared x files Hshared) as (l & Hget & Hpush).
    exists shared, l. auto.
Qed.

Lemma usedIn_keys rulesOf test files file :
  In file (usedIn rulesOf test files) -> In file (JMap.keys files).
Proof.
  induction files as [|[g es] files IH]; [intros []|].
  rewrite usedIn_cons, in_app_iff. simpl.
  intros [Hin|Hin]; [left; now apply repeat_spec in Hin|right; now apply IH].
Qed.

(** *** The groups of every strategy are well formed *)

Lemma isFsh_suffix (a b : string) : isFsh b -> isFsh (a ++ b).
Proof. intros [p ->]. exists (a ++ p)%string. now rewrite StrFacts.append_assoc. Qed.

Lemma fsh_not_index (k : string) : isFsh k -> k <> "index.txt".
Proof.
  intros [p ->].
  do 10 (destruct p as [|? p]; [simpl; discriminate|]).
  simpl. discriminate.
Qed.

Lemma wf_nil : wf [].
Proof. split; [constructor|intros ? []]. Qed.

Lemma wf_set k v (files : Files) : isFsh k -> wf files -> wf (JMap.set k v files).
Proof.
  intros Hk [Hnd Hall]. split; [now apply set_NoDup|].
  intros k' Hin. apply keys_set in Hin. destruct Hin as [->|Hin]; auto.
Qed.

Lemma wf_push k x (files files' : Files) :
  JMap.push k x files = Some files' -> wf files -> wf files'.
Proof.
  intros Hpush [Hnd Hall]. split; [eapply push_NoDup; eauto|].
  intros k' Hin. apply Hall. now apply (push_keys _ _ _ _ k' Hpush).
Qed.

Lemma wf_setEach {A} (inj : A -> NamedExportable) suffix l :
  isFsh suffix -> forall files, wf files -> wf (setEach inj suffix l files).
Proof.
  intros Hs. unfold setEach. induction l as [|x l IH]; simpl; intros files Hwf; [assumption|].
  apply IH, wf_set; [now apply isFsh_suffix|assumption].
Qed.

Lemma isFsh_literal p : isFsh (p ++ ".fsh").
Proof. now exists p. Qed.

Lemma forEachM_keeps {A S} (f : S -> A -> option S) (I : S -> Prop) :
  (forall s x, I s -> exists s', f s x = Some s' /\ I s') ->
  forall l s, I s -> exists s', forEachM f l s = Some s' /\ I s'.
Proof.
  intros Hstep. induction l as [|x l IH]; simpl; intros s Hs; [eauto|].
  destruct (Hstep s x Hs) as (s' & -> & Hs'). now apply IH.
Qed.

Lemma push_withShared shared k x files :
  withShared shared files -> JMap.has k files = true ->
  exists files', JMap.push k x files = Some files' /\ withShared shared files'.
Proof.
  intros [Hwf Hsh] Hk.
  destruct (push_Some k x files Hk) as (l & Hget & Hpush).
  eexists. split; [eassumption|]. split; [eapply wf_push; eauto|].
  apply has_keys. apply (push_keys _ _ _ _ shared Hpush). now apply has_keys.
Qed.

Lemma placeByUse_withShared rulesOf test shared x files :
  withShared shared files ->
  exists files', placeByUse (usedIn rulesOf test files) shared x files = Some files'
                 /\ withShared shared files'.
Proof.
  intros Hinv. pose proof Hinv as [Hwf Hsh]. unfold placeByUse.
  destruct (usedIn rulesOf test files) as [|file [|file' rest]] eqn:E;
    try (now apply push_withShared).
  apply push_withShared; [assumption|].
  apply has_keys, (usedIn_keys rulesOf test). rewrite E. now left.
Qed.

Lemma has_set_same {V} k (v : V) m : JMap.has k (JMap.set k v m) = true.
Proof. unfold JMap.has. now rewrite get_set_same. Qed.

Lemma groupByProfile_wf (fshPackage : Package) :
  exists files, groupByProfile fshPackage = Some files /\ wf files.
Proof.
  unfold groupByProfile.
  match goal with
  | |- context [fold_left ?f (profiles fshPackage) ?a] =>
      set (files0 := fold_left f (profiles fshPackage) a)
  end.
  assert (Hwf0 : wf files0).
  { subst files0. generalize (@nil (string * list Exportable)) wf_nil.
    induction (profiles fshPackage) as [|p ps IH]; simpl; intros acc Hacc; [assumption|].
    apply IH, wf_set; [apply isFsh_literal|assumption]. }
  destruct (partition _ (instances fshPackage)) as [inlineInstances nonInlineInstances].
  assert (H1 : withShared "instances.fsh" (JMap.set "instances.fsh" [] files0)).
  { split; [apply wf_set; [apply (isFsh_literal "instances")|assumption]|apply has_set_same]. }
  destruct (forEachM_keeps placeNonInline (withShared "instances.fsh")) with
    (l := nonInlineInstances) (s := JMap.set "instances.fsh" [] files0)
    as (files1 & -> & Hinv1); [|assumption|].
  { intros s i Hs. unfold placeNonInline.
    destruct (String.eqb (usage i) "Example" && JMap.has (instanceOf i ++ ".fsh") s) eqn:E.
    - apply andb_true_iff in E. now apply push_withShared.
    - apply push_withShared; [assumption|apply Hs]. }
  destruct (forEachM_keeps placeInline (withShared "instances.fsh")) with
    (l := inlineInstances) (s := files1) as (files2 & -> & Hinv2); [|assumption|].
  { intros s i Hs. now apply placeByUse_withShared. }
  assert (H3 : withShared "invariants.fsh" (JMap.set "invariants.fsh" [] files2)).
  { split; [apply wf_set; [apply (isFsh_literal "invariants")|apply Hinv2]|apply has_set_same]. }
  destruct (forEachM_keeps placeInvariant (withShared "invariants.fsh")) with
    (l := invariants fshPackage) (s := JMap.set "invariants.fsh" [] files2)
    as (files3 & -> & Hinv3); [|assumption|].
  { intros s i Hs. now apply placeByUse_withShared. }
  eexists. split; [reflexivity|].
  apply wf_set; [apply (isFsh_literal "mappings")|].
  apply wf_set; [apply (isFsh_literal "codeSystems")|].
  apply wf_set; [apply (isFsh_literal "valueSets")|].
  apply wf_set; [apply (isFsh_literal "extensions")|].
  apply wf_set; [apply (isFsh_literal "aliases")|apply Hinv3].
Qed.

Lemma groupByFSHType_wf fshPackage : wf (groupByFSHType fshPackage).
Proof.
  unfold groupByFSHType.
  apply wf_set; [apply (isFsh_literal "mappings")|].
  apply wf_set; [apply (isFsh_literal "invariants")|].
  apply wf_set; [apply (isFsh_literal "instances")|].
  apply wf_set; [apply (isFsh_literal "codeSystems")|].
  apply wf_set; [apply (isFsh_literal "valueSets")|].
  apply wf_set; [apply (isFsh_literal "extensions")|].
  apply wf_set; [apply (isFsh_literal "profiles")|].
  apply wf_set; [apply (isFsh_literal "aliases")|apply wf_nil].
Qed.

Lemma groupAsSingleFile_wf fshPackage : wf (groupAsSingleFile fshPackage).
Proof. apply wf_set; [apply (isFsh_literal "resources")|apply wf_nil]. Qed.

Lemma groupAsFilePerDefinition_wf fshPackage : wf (groupAsFilePerDefinition fshPackage).
Proof.
  unfold groupAsFilePerDefinition.
  apply wf_setEach; [apply (isFsh_literal "-Instance")|].
  apply wf_setEach; [apply (isFsh_literal "-ValueSet")|].
  apply wf_setEach; [apply (isFsh_literal "-CodeSystem")|].
  apply wf_setEach; [apply (isFsh_literal "-Extension")|].
  apply wf_setEach; [apply (isFsh_literal "-Profile")|].
  apply wf_setEach; [apply (isFsh_literal "-Mapping")|].
  apply wf_setEach; [apply (isFsh_literal "-Invariant")|].
  apply wf_set; [apply (isFsh_literal "aliases")|apply wf_nil].
Qed.

(** Every strategy name, known or not, yields groups. *)
Lemma groupFiles_wf fshPackage style :
  exists log files, groupFiles fshPackage style = Some (log, files) /\ wf files.
Proof.
  unfold groupFiles. destruct style as [s|].
  - destruct (String.eqb s "single-file");
      [eexists _, _; split; [reflexivity|apply groupAsSingleFile_wf]|].
    destruct (String.eqb s "group-by-fsh-type");
      [eexists _, _; split; [reflexivity|apply groupByFSHType_wf]|].
    destruct (String.eqb s "group-by-profile").
    { destruct (groupByProfile_wf fshPackage) as (files & -> & Hwf).
      now eexists _, _. }
    destruct (String.eqb s "file-per-definition");
      [eexists _, _; split; [reflexivity|apply groupAsFilePerDefinition_wf]|].
    eexists _, _; split; [reflexivity|apply groupByFSHType_wf].
  - eexists _, _; split; [reflexivity|apply groupByFSHType_wf].
Qed.


(** *** What [export] writes *)

Section Writing.

Context `{Host}.

Lemma fileContent_nil : fileContent [] = "".
Proof. unfold fileContent, EOL. simpl. destruct platform; reflexivity. Qed.

Lemma writeFile_fold files : forall written index,
  fold_left writeFile files (written, index)
  = (fold_left (fun w e => JMap.set (fst e) (fileContent (snd e)) w) (retained files) written,
     index ++ linesOf (retained files)).
Proof.
  induction files as [|[file es] files IH]; intros written index; simpl.
  - now rewrite app_nil_r.
  - unfold retained, linesOf in *. simpl.
    destruct (String.eqb (fileContent es) "") eqn:E; simpl.
    + apply IH.
    + rewrite IH. simpl. now rewrite app_assoc.
Qed.

Lemma exportIndex_eq files :
  exportIndex files = indexHeader :: JArray.sort compareLines (linesOf (retained files)).
Proof. unfold exportIndex. now rewrite writeFile_fold. Qed.

Lemma get_written (content : list Exportable -> string) k files : forall w,
  NoDup (JMap.keys files) ->
  JMap.get k (fold_left (fun w e => JMap.set (fst e) (content (snd e)) w) files w)
  = match JMap.get k files with
    | Some es => Some (content es)
    | None => JMap.get k w
    end.
Proof.
  induction files as [|[k0 es0] files IH]; intros w Hnd; simpl; [reflexivity|].
  inversion Hnd as [|? ? Hnotin Hnd']; subst.
  rewrite IH by assumption.
  destruct (String.eqb_spec k k0) as [->|Hne].
  - rewrite (get_None k0 files Hnotin). apply get_set_same.
  - destruct (JMap.get k files); [reflexivity|].
    apply get_set_other. congruence.
Qed.

Lemma retained_NoDup files : NoDup (JMap.keys files) -> NoDup (JMap.keys (retained files)).
Proof. apply filter_NoDup. Qed.

Lemma get_retained files file es :
  NoDup (JMap.keys files) -> In (file, es) files ->
  JMap.get file (retained files)
  = if String.eqb (fileContent es) "" then None else Some es.
Proof.
  intros Hnd Hin.
  destruct (String.eqb (fileContent es) "") eqn:E.
  - destruct (JMap.get file (retained files)) as [es'|] eqn:G; [|reflexivity].
    apply get_Some_In in G. apply filter_In in G. destruct G as [Hin' Hkeep].
    pose proof (get_In _ _ _ Hnd Hin) as G1.
    pose proof (get_In _ _ _ Hnd Hin') as G2.
    rewrite G1 in G2. injection G2 as <-. simpl in Hkeep. now rewrite E in Hkeep.
  - apply get_In; [now apply retained_NoDup|].
    apply filter_In. split; [assumption|]. simpl. now rewrite E.
Qed.

Lemma get_writeFiles files file es :
  wf files -> In (file, es) files ->
  JMap.get file (writeFiles files)
  = if String.eqb (fileContent es) "" then None else Some (fileContent es).
Proof.
  intros [Hnd Hfsh] Hin. unfold writeFiles.
  rewrite get_set_other.
  2:{ intros Heq. symmetry in Heq. revert Heq. apply fsh_not_index, Hfsh.
      now apply (in_map fst) in Hin. }
  rewrite writeFile_fold. simpl.
  rewrite get_written by now apply retained_NoDup.
  rewrite (get_retained files file es Hnd Hin).
  now destruct (String.eqb (fileContent es) "").
Qed.

Lemma below_byName x y : (compareLines x y <? 0)%Z = true -> byName x y.
Proof.
  unfold compareLines, byName, Str.gtb, String.ltb, String.leb.
  rewrite (String.compare_antisym (hd "" x) (hd "" y)).
  destruct (String.compare (hd "" y) (hd "" x)); cbn; intros E;
    reflexivity || discriminate E.
Qed.

Lemma not_below_byName x y : (compareLines x y <? 0)%Z = false -> byName y x.
Proof.
  unfold compareLines, byName, Str.gtb, String.ltb, String.leb.
  destruct (String.compare (hd "" y) (hd "" x)); cbn; intros E;
    reflexivity || discriminate E.
Qed.

Lemma byName_trans a b c : byName a b -> byName b c -> byName a c.
Proof.
  unfold byName, String.leb.
  generalize (hd "" a) (hd "" b) (hd "" c). clear a b c. intros a b c Hab Hbc.
  destruct (String.compare a b) eqn:Eab; try discriminate;
    destruct (String.compare b c) eqn:Ebc; try discriminate.
  - apply String.compare_eq_iff in Eab. subst. now rewrite Ebc.
  - apply String.compare_eq_iff in Eab. subst. now rewrite Ebc.
  - apply String.compare_eq_iff in Ebc. subst. now rewrite Eab.
  - apply String_as_OT.cmp_lt in Eab, Ebc.
    pose proof (String_as_OT.lt_trans _ _ _ Eab Ebc) as Hac.
    apply String_as_OT.cmp_lt in Hac. unfold String_as_OT.cmp in Hac. now rewrite Hac.
Qed.

Lemma line_of_retained files row :
  In row (linesOf (retained files)) ->
  exists file es e,
    In (file, es) files /\ fileContent es <> ""
    /\ In e (snd (partitionAliases es)) /\ row = indexLine file e.
Proof.
  unfold linesOf. rewrite in_flat_map. intros ([file es] & Hin & Hrow).
  apply filter_In in Hin. destruct Hin as [Hin Hkeep]. simpl in *.
  apply in_map_iff in Hrow. destruct Hrow as (e & <- & He).
  exists file, es, e. repeat split; try assumption.
  intros Hc. now rewrite Hc in Hkeep.
Qed.

(** The lines the exporter pushes are the rows of the claim. *)
Lemma linesOf_expected files : linesOf files = expectedRows files.
Proof.
  unfold linesOf, expectedRows. apply flat_map_ext. intros [file es]. cbn [fst snd].
  induction es as [|e es IH]; [reflexivity|].
  cbn [partitionAliases flat_map]. revert IH.
  destruct (partitionAliases es) as [aliases named]. cbn [snd]. intros IH.
  destruct e as [a|n]; cbn [snd map rowOf app]; [exact IH|].
  rewrite IH. now destruct n.
Qed.

(** C8: whatever the package and the strategy, the index is the header
    [Name], [Type], [File] followed by one line per named exportable of
    each group that is kept, none for an alias, holding the name of the
    exportable, its category ([Profile], [Extension], [CodeSystem],
    [ValueSet], [Instance], [Invariant] or [Mapping]) and the name of the
    group, each line at most every later one by name in code-unit order,
    so that [Alpha] comes before [beta]; a group whose content is empty
    once trimmed is not written and none of the lines names it, while a
    group that is kept is written with its content. *)
Theorem index_lists_kept_groups_by_name (fshPackage : Package) (style : option string) :
  exists log0 files log written rows,
    groupFiles fshPackage style = Some (log0, files)
    /\ export fshPackage style = Some (log, written)
    /\ exportIndex files = ["Name"; "Type"; "File"]%string :: rows
    /\ JMap.get "index.txt" written
       = Some (table (["Name"; "Type"; "File"]%string :: rows))
    /\ Permutation rows (expectedRows (retained files))
    /\ StronglySorted byName rows
    /\ (forall file es, In (file, es) files -> fileContent es = "" ->
          JMap.get file written = None
          /\ forall row, In row rows -> nth 2 row "" <> file)
    /\ (forall file es, In (file, es) files -> fileContent es <> "" ->
          JMap.get file written = Some (fileContent es))
    /\ (forall t1 f1 t2 f2,
          JArray.sort compareLines [["beta"; t1; f1]; ["Alpha"; t2; f2]]
          = [["Alpha"; t2; f2]; ["beta"; t1; f1]]).
Proof.
  destruct (groupFiles_wf fshPackage style) as (log0 & files & Hgroup & Hwf).
  exists log0, files. unfold export. rewrite Hgroup.
  eexists _, _, _. split; [reflexivity|]. split; [reflexivity|].
  split; [apply exportIndex_eq|].
  split; [unfold writeFiles; rewrite get_set_same, exportIndex_eq; reflexivity|].
  split; [rewrite <- linesOf_expected; apply Permutation_sym, JArrayFacts.sort_perm|].
  split; [apply Sorted_StronglySorted;
          [intros a b c; apply byName_trans
          |apply JArrayFacts.sort_sorted; [apply below_byName|apply not_below_byName]]|].
  split; [|split].
  - intros file es Hin Hempty. split.
    + rewrite (get_writeFiles files file es Hwf Hin), Hempty. reflexivity.
    + intros row Hrow Hfile.
      apply (Permutation_in row (Permutation_sym (JArrayFacts.sort_perm compareLines _))) in Hrow.
      apply line_of_retained in Hrow.
      destruct Hrow as (file' & es' & e & Hin' & Hkept & _ & ->).
      simpl in Hfile. subst file'.
      destruct Hwf as [Hnd _].
      pose proof (get_In _ _ _ Hnd Hin) as G1.
      pose proof (get_In _ _ _ Hnd Hin') as G2.
      rewrite G1 in G2. injection G2 as <-. contradiction.
  - intros file es Hin Hkept.
    rewrite (get_writeFiles files file es Hwf Hin).
    destruct (String.eqb_spec (fileContent es) ""); [contradiction|reflexivity].
  - intros. reflexivity.
Qed.

Lemma nothing_retained files :
  Forall (fun entry => snd entry = []) files -> retained files = [].
Proof.
  unfold retained. induction 1 as [|[file es] files Hes _ IH]; simpl; [reflexivity|].
  simpl in Hes. subst es. now rewrite fileContent_nil, IH.
Qed.

Lemma writeFiles_nothing_retained files :
  retained files = [] -> writeFiles files = [("index.txt", table [indexHeader])].
Proof.
  intros Hnone. unfold writeFiles. rewrite exportIndex_eq, writeFile_fold, Hnone.
  reflexivity.
Qed.

Lemma groupFiles_emptyPackage style :
  exists log files,
    groupFiles emptyPackage style = Some (log, files)
    /\ Forall (fun entry => snd entry = []) files.
Proof.
  unfold groupFiles. destruct style as [s|].
  - destruct (String.eqb s "single-file");
      [eexists _, _; split; [reflexivity|repeat constructor]|].
    destruct (String.eqb s "group-by-fsh-type");
      [eexists _, _; split; [reflexivity|repeat constructor]|].
    destruct (String.eqb s "group-by-profile");
      [eexists _, _; split; [reflexivity|repeat constructor]|].
    destruct (String.eqb s "file-per-definition");
      [eexists _, _; split; [reflexivity|repeat constructor]|].
    eexists _, _; split; [reflexivity|repeat constructor].
  - eexists _, _; split; [reflexivity|repeat constructor].
Qed.

(** C9: whatever the package and the strategy name, known or not,
    [export] returns a mapping and the mapping holds [index.txt]; for
    the empty package every group is dropped and the mapping is exactly
    [index.txt] with the header line alone. *)
Theorem export_always_writes_index (fshPackage : Package) (style : option string) :
  (exists log written,
      export fshPackage style = Some (log, written)
      /\ JMap.has "index.txt" written = true)
  /\ (exists log,
        export emptyPackage style = Some (log, [("index.txt", table [indexHeader])])).
Proof.
  split.
  - destruct (groupFiles_wf fshPackage style) as (log0 & files & Hgroup & _).
    unfold export. rewrite Hgroup. eexists _, _. split; [reflexivity|].
    apply has_set_same.
  - destruct (groupFiles_emptyPackage style) as (log0 & files & Hgroup & Hnil).
    unfold export. rewrite Hgroup. eexists.
    rewrite (writeFiles_nothing_retained files (nothing_retained files Hnil)).
    reflexivity.
Qed.

End Writing.

(** *** Cross-reference placement under the by-profile strategy *)


End ExporterFacts.

(* ------------------------------------------------------------------ *)
(** ** Further facts about the exporter *)

Module ExporterMore.

Import Exporter ExporterSpec JMapFacts ExporterFacts StrFacts.

(** *** Strategies and the names of what is written *)

Section Styles.

Context `{Host}.

(** X1: a strategy name that is none of the four known ones yields what no
    name at all yields, the by-category groups, with one warning put before
    the seven lines of counts; the warning quotes the name and says that the
    by-category style is taken; the counts are all the log holds otherwise. *)
Theorem unknown_style_falls_back (fshPackage : Package) (s : string) :
  s <> "single-file" -> s <> "group-by-fsh-type" ->
  s <> "group-by-profile" -> s <> "file-per-definition" ->
  exists log written,
    export fshPackage (Some s)
    = Some ((Warn,
             ("Unrecognized output style " ++ Str.DQ ++ s ++ Str.DQ
              ++ ". Defaulting to " ++ Str.DQ ++ "by-category" ++ Str.DQ
              ++ " style.")%string) :: log,
            written)
    /\ export fshPackage None = Some (log, written)
    /\ export fshPackage (Some "group-by-fsh-type") = Some (log, written)
    /\ List.length log = 7
    /\ Forall (fun entry => fst entry = Info) log.
Proof.
  intros H1 H2 H3 H4. unfold export, groupFiles.
  apply String.eqb_neq in H1, H2, H3, H4. rewrite H1, H2, H3, H4.
  cbn [String.eqb Ascii.eqb Bool.eqb].
  eexists _, _. split; [reflexivity|]. split; [reflexivity|].
  split; [reflexivity|]. split; [reflexivity|].
  unfold exported. repeat constructor.
Qed.

Lemma keys_set_new {V} k (v : V) (m : JMap.t V) :
  ~ In k (JMap.keys m) -> JMap.keys (JMap.set k v m) = JMap.keys m ++ [k].
Proof.
  induction m as [|[k0 v0] m IH]; simpl; intros Hnotin; [reflexivity|].
  destruct (String.eqb_spec k k0) as [->|Hne]; [exfalso; apply Hnotin; now left|].
  simpl. f_equal. apply IH. intros Hin. apply Hnotin. now right.
Qed.

Lemma keys_written (content : list Exportable -> string) (files : Files) : forall w,
  NoDup (JMap.keys w ++ JMap.keys files) ->
  JMap.keys (fold_left (fun w e => JMap.set (fst e) (content (snd e)) w) files w)
  = JMap.keys w ++ JMap.keys files.
Proof.
  induction files as [|[k es] files IH]; intros w Hnd; simpl.
  - now rewrite app_nil_r.
  - assert (Hk : ~ In k (JMap.keys w)).
    { intros Hin. apply NoDup_remove_2 in Hnd. apply Hnd, in_or_app. now left. }
    rewrite IH; rewrite (keys_set_new k _ w Hk).
    + now rewrite <- app_assoc.
    + rewrite <- app_assoc. exact Hnd.
Qed.

(** X2: whatever the package and the strategy, the mapping [export] returns
    lists the groups that are kept under their names, in the order the
    strategy made them, and [index.txt] after them all. *)
Theorem written_names_follow_the_groups (fshPackage : Package) (style : option string) :
  exists log0 files log written,
    groupFiles fshPackage style = Some (log0, files)
    /\ export fshPackage style = Some (log, written)
    /\ JMap.keys written = JMap.keys (retained files) ++ ["index.txt"].
Proof.
  destruct (groupFiles_wf fshPackage style) as (log0 & files & Hgroup & [Hnd Hfsh]).
  exists log0, files. unfold export. rewrite Hgroup.
  eexists _, _. split; [reflexivity|]. split; [reflexivity|].
  unfold writeFiles. rewrite writeFile_fold. cbn [fst].
  assert (Hkeys : JMap.keys (fold_left (fun w e => JMap.set (fst e) (fileContent (snd e)) w)
                                       (retained files) [])
                  = JMap.keys (retained files)).
  { rewrite keys_written; [reflexivity|]. simpl. now apply retained_NoDup. }
  rewrite keys_set_new; rewrite Hkeys; [reflexivity|].
  intros Hin. apply (fsh_not_index "index.txt"); [|reflexivity].
  apply Hfsh. unfold retained, JMap.keys in *.
  apply in_map_iff in Hin. destruct Hin as (e & He & Hin).
  apply filter_In in Hin. apply in_map_iff. exists e. tauto.
Qed.

(** *** The text of a group *)

Lemma trimStart_tight a b : startsTight a = true -> Str.trimStart (a ++ b) = (a ++ b)%string.
Proof.
  destruct a as [|c a]; [discriminate|]. simpl. intros Hc.
  apply negb_true_iff in Hc. now rewrite Hc.
Qed.

Lemma join_nil sep : Str.join sep [] = ""%string.
Proof. reflexivity. Qed.

Lemma trimStart_tight_self s : startsTight s = true -> Str.trimStart s = s.
Proof.
  intros Hs. rewrite <- (append_nil_r s) at 1. rewrite trimStart_tight by assumption.
  apply append_nil_r.
Qed.

Lemma endsTight_nonempty b : endsTight b = true -> b <> ""%string.
Proof. now destruct b. Qed.

Lemma trimEnd_tight a : forall b,
  endsTight b = true -> Str.trimEnd (a ++ b) = (a ++ b)%string.
Proof.
  induction a as [|c a IH]; intros b Hb.
  - cbn [append]. induction b as [|d b IHb]; [discriminate|].
    destruct b as [|e b].
    + simpl in *. apply negb_true_iff in Hb. now rewrite Hb.
    + change (endsTight (String d (String e b))) with (endsTight (String e b)) in Hb.
      change (Str.trimEnd (String d (String e b)))
        with (match Str.trimEnd (String e b) with
              | EmptyString => if Str.isWhiteSpace d then EmptyString else String d EmptyString
              | t => String d t
              end).
      now rewrite (IHb Hb).
  - cbn [append].
    change (Str.trimEnd (String c (a ++ b)))
      with (match Str.trimEnd (a ++ b) with
            | EmptyString => if Str.isWhiteSpace c then EmptyString else String c EmptyString
            | t => String c t
            end).
    rewrite (IH b Hb).
    destruct (a ++ b)%string eqn:E; [|reflexivity].
    exfalso. destruct a; [|discriminate]. simpl in E. subst b. discriminate.
Qed.

Lemma trimStart_white w s : allWhite w = true -> Str.trimStart (w ++ s) = Str.trimStart s.
Proof.
  induction w as [|c w IH]; simpl; intros Hw; [reflexivity|].
  apply andb_true_iff in Hw. destruct Hw as [Hc Hw]. rewrite Hc. now apply IH.
Qed.

Lemma trimEnd_white_only w : allWhite w = true -> Str.trimEnd w = ""%string.
Proof.
  induction w as [|c w IH]; simpl; intros Hw; [reflexivity|].
  apply andb_true_iff in Hw. destruct Hw as [Hc Hw]. now rewrite (IH Hw), Hc.
Qed.

Lemma trimEnd_white s w : allWhite w = true -> Str.trimEnd (s ++ w) = Str.trimEnd s.
Proof.
  intros Hw. induction s as [|c s IH]; cbn [append].
  - now apply trimEnd_white_only.
  - simpl. now rewrite IH.
Qed.

Lemma endsTight_app a : forall b, endsTight b = true -> endsTight (a ++ b) = true.
Proof.
  induction a as [|c a IH]; intros b Hb; cbn [append]; [assumption|].
  specialize (IH b Hb). destruct (a ++ b)%string eqn:E; [discriminate|].
  exact IH.
Qed.

Lemma startsTight_app a b : startsTight a = true -> startsTight (a ++ b) = true.
Proof. now destruct a. Qed.

Lemma join_tight sep l :
  l <> [] -> Forall (fun x => tight x = true) l -> tight (Str.join sep l) = true.
Proof.
  intros Hne Hall. induction Hall as [|x l Hx Hall IH]; [contradiction|].
  unfold tight in Hx. apply andb_true_iff in Hx. destruct Hx as [Hs He].
  destruct l as [|y l].
  - simpl. unfold tight. now rewrite Hs, He.
  - change (Str.join sep (x :: y :: l)) with (x ++ sep ++ Str.join sep (y :: l))%string.
    assert (Hrest : tight (Str.join sep (y :: l)) = true) by (apply IH; discriminate).
    unfold tight in *. apply andb_true_iff in Hrest.
    rewrite startsTight_app by assumption.
    rewrite <- append_assoc, endsTight_app; tauto.
Qed.

Lemma partitionAliases_In exportables :
  (forall a, In a (fst (partitionAliases exportables)) -> In (EAlias a) exportables)
  /\ (forall n, In n (snd (partitionAliases exportables)) -> In (ENamed n) exportables).
Proof.
  induction exportables as [|e es [IHa IHn]]; simpl; [split; intros ? []|].
  destruct (partitionAliases es) as [aliases named]. simpl in *.
  destruct e as [a|n]; simpl; split; intros x Hx;
    try (destruct Hx as [->|Hx]; [now left|]); right; auto.
Qed.

Lemma EOL_white : allWhite (EOL ++ EOL) = true.
Proof. unfold EOL. destruct platform; reflexivity. Qed.

(** X3: when the text of every exportable of a group starts and ends with
    a character that is no white space, the content of the group is the
    aliases joined by one line break, a blank line, and the named
    exportables joined by blank lines, with nothing before or after; a
    group without aliases, or without named exportables, is the other
    block alone. *)
Theorem group_renders_two_blocks (exportables : list Exportable) :
  Forall (fun e => tight (toFSH e) = true) exportables ->
  let aliases := map (fun a => toFSH (EAlias a)) (fst (partitionAliases exportables)) in
  let named := map (fun n => toFSH (ENamed n)) (snd (partitionAliases exportables)) in
  fileContent exportables
  = match aliases, named with
    | [], [] => EmptyString
    | _ :: _, [] => Str.join EOL aliases
    | [], _ :: _ => Str.join (EOL ++ EOL) named
    | _ :: _, _ :: _ =>
        (Str.join EOL aliases ++ (EOL ++ EOL) ++ Str.join (EOL ++ EOL) named)%string
    end.
Proof.
  intros Hall aliases named.
  assert (Ha : Forall (fun x => tight x = true) aliases).
  { apply Forall_forall. intros x Hx. apply in_map_iff in Hx. destruct Hx as (a & <- & Hin).
    rewrite Forall_forall in Hall. now apply Hall, partitionAliases_In. }
  assert (Hn : Forall (fun x => tight x = true) named).
  { apply Forall_forall. intros x Hx. apply in_map_iff in Hx. destruct Hx as (n & <- & Hin).
    rewrite Forall_forall in Hall. now apply Hall, partitionAliases_In. }
  assert (Hcontent : fileContent exportables
                     = Str.trim (Str.join EOL aliases ++ (EOL ++ EOL)
                                 ++ Str.join (EOL ++ EOL) named)).
  { unfold fileContent, aliases, named.
    destruct (partitionAliases exportables) as [al nm]. reflexivity. }
  rewrite Hcontent. clear Hcontent. unfold Str.trim.
  pose proof EOL_white as Hw. set (sep := (EOL ++ EOL)%string) in *.
  destruct aliases as [|a aliases]; destruct named as [|n named].
  - rewrite !join_nil, append_nil_r. cbn [append].
    rewrite <- (append_nil_r sep), trimStart_white by assumption. reflexivity.
  - assert (Ht : tight (Str.join sep (n :: named)) = true)
      by (apply join_tight; [discriminate|assumption]).
    unfold tight in Ht. apply andb_true_iff in Ht. destruct Ht as [Hs He].
    set (N := Str.join sep (n :: named)) in *.
    rewrite join_nil. cbn [append].
    rewrite trimStart_white by assumption.
    rewrite (trimStart_tight_self N Hs). exact (trimEnd_tight "" N He).
  - assert (Ht : tight (Str.join EOL (a :: aliases)) = true)
      by (apply join_tight; [discriminate|assumption]).
    unfold tight in Ht. apply andb_true_iff in Ht. destruct Ht as [Hs He].
    set (A := Str.join EOL (a :: aliases)) in *.
    rewrite join_nil, append_nil_r.
    rewrite trimStart_tight by assumption.
    rewrite trimEnd_white by assumption.
    exact (trimEnd_tight "" A He).
  - assert (Hta : tight (Str.join EOL (a :: aliases)) = true)
      by (apply join_tight; [discriminate|assumption]).
    assert (Htn : tight (Str.join sep (n :: named)) = true)
      by (apply join_tight; [discriminate|assumption]).
    unfold tight in Hta, Htn. apply andb_true_iff in Hta, Htn.
    set (A := Str.join EOL (a :: aliases)) in *.
    set (N := Str.join sep (n :: named)) in *.
    rewrite trimStart_tight by tauto.
    rewrite <- (append_assoc A sep N). rewrite trimEnd_tight by tauto. reflexivity.
Qed.

End Styles.

Lemma unknown_style_falls_back_witness :
  exists log written,
    @export exampleHost packagePI (Some "by-category")
    = Some ((Warn,
             ("Unrecognized output style " ++ Str.DQ ++ "by-category" ++ Str.DQ
              ++ ". Defaulting to " ++ Str.DQ ++ "by-category" ++ Str.DQ
              ++ " style.")%string) :: log,
            written)
    /\ @export exampleHost packagePI None = Some (log, written)
    /\ @export exampleHost packagePI (Some "group-by-fsh-type") = Some (log, written)
    /\ List.length log = 7
    /\ Forall (fun entry => fst entry = Info) log.
Proof.
  apply (@unknown_style_falls_back exampleHost packagePI "by-category"); discriminate.
Defined.

Lemma group_renders_two_blocks_witness :
  @fileContent exampleHost
    [ENamed (NProfile profileP); EAlias aliasLNC; ENamed (NInstance instanceI)]
  = ("Alias: LNC = http://loinc.org" ++ Str.LF ++ Str.LF
     ++ "Profile: P" ++ Str.LF ++ Str.LF ++ "Instance: I")%string.
Proof.
  apply (@group_renders_two_blocks exampleHost
           [ENamed (NProfile profileP); EAlias aliasLNC; ENamed (NInstance instanceI)]).
  repeat constructor.
Defined.

(** *** Nothing is lost under the by-profile strategy *)

Lemma contents_set_new k v (files : Files) :
  ~ In k (JMap.keys files) -> contents (JMap.set k v files) = contents files ++ v.
Proof.
  unfold contents. induction files as [|[k0 v0] files IH]; simpl; intros Hnotin.
  - now rewrite app_nil_r.
  - destruct (String.eqb_spec k k0) as [->|Hne]; [exfalso; apply Hnotin; now left|].
    simpl. rewrite IH, app_assoc; [reflexivity|]. intros Hin. apply Hnotin. now right.
Qed.

Lemma contents_push k x (files files' : Files) :
  JMap.push k x files = Some files' -> Permutation (contents files') (x :: contents files).
Proof.
  unfold JMap.push. destruct (JMap.get k files) as [l|] eqn:Hget; [|discriminate].
  intros [= <-]. unfold contents. revert Hget.
  induction files as [|[k0 v0] files IH]; simpl; [discriminate|].
  destruct (String.eqb_spec k k0) as [->|Hne]; simpl.
  - intros [= ->]. rewrite <- app_assoc. simpl.
    apply Permutation_sym, Permutation_cons_app.
    apply Permutation_app_head, Permutation_refl.
  - intros Hget. eapply perm_trans; [apply Permutation_app_head, IH, Hget|].
    apply Permutation_sym, Permutation_middle.
Qed.

(** A loop that pushes each item to some group that is there. *)
Lemma forEachM_pushes {A} (f : Files -> A -> option Files) (inj : A -> Exportable)
      (shared : string) :
  (forall s x, JMap.has shared s = true ->
               exists k, JMap.has k s = true /\ f s x = JMap.push k (inj x) s) ->
  forall l s,
    JMap.has shared s = true ->
    exists s', forEachM f l s = Some s'
               /\ Permutation (contents s') (map inj l ++ contents s)
               /\ (forall k, In k (JMap.keys s') <-> In k (JMap.keys s)).
Proof.
  intros Hstep. induction l as [|x l IH]; intros s Hs; cbn [forEachM].
  - exists s. split; [reflexivity|]. split; [apply Permutation_refl|tauto].
  - destruct (Hstep s x Hs) as (k & Hk & Hf). rewrite Hf.
    destruct (push_Some k (inj x) s Hk) as (old & Hget & Hpush). rewrite Hpush.
    assert (Hkeys : forall k', In k' (JMap.keys (JMap.set k (old ++ [inj x]) s))
                               <-> In k' (JMap.keys s)).
    { intros k'. now apply (push_keys k (inj x) s). }
    destruct (IH (JMap.set k (old ++ [inj x]) s)) as (s' & Hrun & Hperm & Hsame).
    { apply has_keys, Hkeys, has_keys. assumption. }
    exists s'. split; [assumption|]. split.
    + eapply perm_trans; [exact Hperm|]. cbn [map app].
      eapply perm_trans; [apply Permutation_app_head, (contents_push k), Hpush|].
      apply Permutation_sym, Permutation_middle.
    + intros k'. rewrite Hsame. apply Hkeys.
Qed.

Lemma append_cancel_r (a : string) : forall b s, (a ++ s)%string = (b ++ s)%string -> a = b.
Proof.
  assert (Hlen : forall a s, (a ++ s)%string = s -> a = ""%string).
  { intros x s Heq. apply (f_equal String.length) in Heq. rewrite length_app in Heq.
    destruct x; [reflexivity|]. simpl in Heq. lia. }
  induction a as [|c a IH]; intros [|d b] s Heq; cbn [append] in Heq.
  - reflexivity.
  - symmetry in Heq. apply (Hlen (String d b)) in Heq. discriminate.
  - apply (Hlen (String c a)) in Heq. discriminate.
  - injection Heq as -> Heq. f_equal. now apply (IH b s).
Qed.

Lemma profile_groups (ps : list ExportableProfile) : forall acc : Files,
  NoDup (map profile_name ps) ->
  (forall p, In p ps -> ~ In (profile_name p ++ ".fsh")%string (JMap.keys acc)) ->
  let files := fold_left (fun f p => JMap.set (profile_name p ++ ".fsh")
                                              [ENamed (NProfile p)] f) ps acc in
  JMap.keys files = JMap.keys acc ++ map (fun p => (profile_name p ++ ".fsh")%string) ps
  /\ contents files = contents acc ++ map (fun p => ENamed (NProfile p)) ps.
Proof.
  induction ps as [|p ps IH]; intros acc Hnd Hfresh; cbn [fold_left map].
  - now rewrite !app_nil_r.
  - inversion Hnd as [|? ? Hp Hnd']; subst.
    assert (Hnew : ~ In (profile_name p ++ ".fsh")%string (JMap.keys acc))
      by (apply Hfresh; now left).
    destruct (IH (JMap.set (profile_name p ++ ".fsh") [ENamed (NProfile p)] acc) Hnd')
      as [Hkeys Hcontents].
    { intros q Hq Hin. rewrite (keys_set_new _ _ _ Hnew) in Hin.
      apply in_app_or in Hin. destruct Hin as [Hin|[Heq|[]]].
      - revert Hin. apply Hfresh. now right.
      - apply append_cancel_r in Heq. apply Hp. rewrite Heq. now apply in_map. }
    cbv zeta in Hkeys, Hcontents. rewrite Hkeys, Hcontents.
    rewrite (keys_set_new _ _ _ Hnew), (contents_set_new _ _ _ Hnew).
    now rewrite <- !app_assoc.
Qed.

Lemma partition_perm {A} (f : A -> bool) (l : list A) :
  Permutation (fst (partition f l) ++ snd (partition f l)) l.
Proof.
  induction l as [|x l IH]; simpl; [constructor|].
  destruct (partition f l) as [yes no]. simpl in IH.
  destruct (f x); simpl.
  - now constructor.
  - apply Permutation_sym, Permutation_cons_app, Permutation_sym. exact IH.
Qed.

Lemma perm_pull {A} (x pre post r : list A) :
  Permutation (pre ++ post) r -> Permutation (pre ++ x ++ post) (x ++ r).
Proof.
  intros Hperm. eapply perm_trans; [apply Permutation_app_swap_app|].
  now apply Permutation_app_head.
Qed.

Ltac pull x pre post :=
  transitivity (pre ++ x ++ post);
  [ repeat rewrite <- app_assoc; reflexivity
  | apply perm_pull; repeat rewrite <- app_assoc ].

(** The groups [groupByProfile] makes can only bear the name of a profile
    or one of the shared names it has set so far. *)
Lemma shared_name_is_new (ps : list ExportableProfile) (files : Files) (made : list string)
      (r : string) :
  (forall p, In p ps -> ~ In (profile_name p) sharedGroups) ->
  (forall k, In k (JMap.keys files) ->
             In k (map (fun p => (profile_name p ++ ".fsh")%string) ps) \/ In k made) ->
  In r sharedGroups -> ~ In (r ++ ".fsh")%string made ->
  ~ In (r ++ ".fsh")%string (JMap.keys files).
Proof.
  intros Hnames Hkeys Hr Hmade Hin. destruct (Hkeys _ Hin) as [Hp|Hm]; [|contradiction].
  apply in_map_iff in Hp. destruct Hp as (p & Heq & Hp).
  apply append_cancel_r in Heq. apply (Hnames p Hp). now rewrite Heq.
Qed.

(** X4: when the profiles of the package have distinct names and none is
    named like a shared group of the by-profile strategy (instances,
    invariants, aliases, extensions, valueSets, codeSystems, mappings), the
    strategy returns groups that hold every exportable of the package once:
    nothing is lost and nothing is written twice. *)
Theorem by_profile_loses_nothing (fshPackage : Package) :
  NoDup (map profile_name (profiles fshPackage)) ->
  (forall p, In p (profiles fshPackage) -> ~ In (profile_name p) sharedGroups) ->
  exists files,
    groupByProfile fshPackage = Some files
    /\ Permutation (contents files) (allExportables fshPackage).
Proof.
  intros Hnd Hnames. unfold groupByProfile.
  destruct (profile_groups (profiles fshPackage) [] Hnd (fun _ _ H => H)) as [Hk0 Hc0].
  cbv zeta in Hk0, Hc0.
  match goal with
  | |- context [fold_left ?f (profiles fshPackage) ?a] =>
      set (files0 := fold_left f (profiles fshPackage) a) in *
  end.
  cbn [JMap.keys map app contents flat_map] in Hk0, Hc0.
  set (K0 := map (fun p => (profile_name p ++ ".fsh")%string) (profiles fshPackage)) in *.
  pose proof (partition_perm (fun i => String.eqb (usage i) "Inline") (instances fshPackage))
    as Hpart.
  destruct (partition _ (instances fshPackage)) as [inlineInstances nonInlineInstances].
  cbn [fst snd] in Hpart.
  (* instances.fsh *)
  assert (Hnew1 : ~ In "instances.fsh"%string (JMap.keys files0)).
  { apply (shared_name_is_new (profiles fshPackage) files0 [] "instances" Hnames);
      [intros k Hk; left; rewrite Hk0 in Hk; exact Hk|simpl; tauto|intros []]. }
  set (files1 := JMap.set "instances.fsh" [] files0).
  assert (Hk1 : forall k, In k (JMap.keys files1) <-> In k K0 \/ In k ["instances.fsh"%string]).
  { intros k. unfold files1. rewrite (keys_set_new _ _ _ Hnew1), in_app_iff, Hk0. tauto. }
  assert (Hc1 : contents files1 = contents files0).
  { unfold files1. rewrite (contents_set_new _ _ _ Hnew1). apply app_nil_r. }
  destruct (forEachM_pushes placeNonInline (fun i => ENamed (NInstance i)) "instances.fsh")
    with (l := nonInlineInstances) (s := files1) as (files2 & -> & Hc2 & Hk2).
  { intros s i Hs. unfold placeNonInline.
    destruct (String.eqb (usage i) "Example" && JMap.has (instanceOf i ++ ".fsh") s) eqn:E.
    - apply andb_true_iff in E. exists (instanceOf i ++ ".fsh")%string. tauto.
    - now exists "instances.fsh"%string. }
  { apply has_set_same. }
  destruct (forEachM_pushes placeInline (fun i => ENamed (NInstance i)) "instances.fsh")
    with (l := inlineInstances) (s := files2) as (files3 & -> & Hc3 & Hk3).
  { intros s i Hs. unfold placeInline, placeByUse.
    destruct (inlineInstanceUsedIn i s) as [|file [|file' rest]] eqn:E;
      try (now exists "instances.fsh"%string).
    exists file. split; [|reflexivity].
    apply has_keys, (usedIn_keys resourceRules (refersToInstance (instance_name i))).
    unfold inlineInstanceUsedIn in E. rewrite E. now left. }
  { apply has_keys, Hk2, Hk1. right. now left. }
  (* invariants.fsh *)
  assert (Hkeys3 : forall k, In k (JMap.keys files3) -> In k K0 \/ In k ["instances.fsh"%string]).
  { intros k Hk. now apply Hk1, Hk2, Hk3. }
  assert (Hnew2 : ~ In "invariants.fsh"%string (JMap.keys files3)).
  { apply (shared_name_is_new (profiles fshPackage) files3 ["instances.fsh"%string]
             "invariants" Hnames Hkeys3); [simpl; tauto|].
    simpl. intros [Heq|[]]. discriminate Heq. }
  set (files4 := JMap.set "invariants.fsh" [] files3).
  destruct (forEachM_pushes placeInvariant (fun i => ENamed (NInvariant i)) "invariants.fsh")
    with (l := invariants fshPackage) (s := files4) as (files5 & -> & Hc5 & Hk5).
  { intros s i Hs. unfold placeInvariant, placeByUse.
    destruct (invariantUsedIn i s) as [|file [|file' rest]] eqn:E;
      try (now exists "invariants.fsh"%string).
    exists file. split; [|reflexivity].
    apply has_keys, (usedIn_keys profileRules (obeysInvariant (invariant_name i))).
    unfold invariantUsedIn in E. rewrite E. now left. }
  { apply has_set_same. }
  assert (Hkeys5 : forall k, In k (JMap.keys files5) ->
                             In k K0 \/ In k ["instances.fsh"%string; "invariants.fsh"%string]).
  { intros k Hk. apply Hk5 in Hk. unfold files4 in Hk.
    rewrite (keys_set_new _ _ _ Hnew2), in_app_iff in Hk.
    destruct Hk as [Hk|[<-|[]]]; [|right; simpl; tauto].
    destruct (Hkeys3 k Hk) as [|[<-|[]]]; [now left|right; simpl; tauto]. }
  (* the five groups by category *)
  assert (Hnew3 : ~ In "aliases.fsh"%string (JMap.keys files5)).
  { apply (shared_name_is_new (profiles fshPackage) files5 _ "aliases" Hnames Hkeys5);
      [simpl; tauto|simpl; intuition discriminate]. }
  set (files6 := JMap.set "aliases.fsh" (map EAlias (aliases fshPackage)) files5).
  assert (Hkeys6 : forall k, In k (JMap.keys files6) ->
                             In k K0 \/ In k ["instances.fsh"%string; "invariants.fsh"%string;
                                               "aliases.fsh"%string]).
  { intros k Hk. unfold files6 in Hk. rewrite (keys_set_new _ _ _ Hnew3), in_app_iff in Hk.
    destruct Hk as [Hk|[<-|[]]]; [|right; simpl; tauto].
    destruct (Hkeys5 k Hk) as [|Hm]; [now left|right; simpl in *; tauto]. }
  assert (Hnew4 : ~ In "extensions.fsh"%string (JMap.keys files6)).
  { apply (shared_name_is_new (profiles fshPackage) files6 _ "extensions" Hnames Hkeys6);
      [simpl; tauto|simpl; intuition discriminate]. }
  set (files7 := JMap.set "extensions.fsh"
                          (map (fun e => ENamed (NExtension e)) (extensions fshPackage)) files6).
  assert (Hkeys7 : forall k, In k (JMap.keys files7) ->
                             In k K0 \/ In k ["instances.fsh"%string; "invariants.fsh"%string;
                                               "aliases.fsh"%string; "extensions.fsh"%string]).
  { intros k Hk. unfold files7 in Hk. rewrite (keys_set_new _ _ _ Hnew4), in_app_iff in Hk.
    destruct Hk as [Hk|[<-|[]]]; [|right; simpl; tauto].
    destruct (Hkeys6 k Hk) as [|Hm]; [now left|right; simpl in *; tauto]. }
  assert (Hnew5 : ~ In "valueSets.fsh"%string (JMap.keys files7)).
  { apply (shared_name_is_new (profiles fshPackage) files7 _ "valueSets" Hnames Hkeys7);
      [simpl; tauto|simpl; intuition discriminate]. }
  set (files8 := JMap.set "valueSets.fsh"
                          (map (fun v => ENamed (NValueSet v)) (valueSets fshPackage)) files7).
  assert (Hkeys8 : forall k, In k (JMap.keys files8) ->
                             In k K0 \/ In k ["instances.fsh"%string; "invariants.fsh"%string;
                                               "aliases.fsh"%string; "extensions.fsh"%string;
                                               "valueSets.fsh"%string]).
  { intros k Hk. unfold files8 in Hk. rewrite (keys_set_new _ _ _ Hnew5), in_app_iff in Hk.
    destruct Hk as [Hk|[<-|[]]]; [|right; simpl; tauto].
    destruct (Hkeys7 k Hk) as [|Hm]; [now left|right; simpl in *; tauto]. }
  assert (Hnew6 : ~ In "codeSystems.fsh"%string (JMap.keys files8)).
  { apply (shared_name_is_new (profiles fshPackage) files8 _ "codeSystems" Hnames Hkeys8);
      [simpl; tauto|simpl; intuition discriminate]. }
  set (files9 := JMap.set "codeSystems.fsh"
                          (map (fun c => ENamed (NCodeSystem c)) (codeSystems fshPackage)) files8).
  assert (Hkeys9 : forall k, In k (JMap.keys files9) ->
                             In k K0 \/ In k ["instances.fsh"%string; "invariants.fsh"%string;
                                               "aliases.fsh"%string; "extensions.fsh"%string;
                                               "valueSets.fsh"%string; "codeSystems.fsh"%string]).
  { intros k Hk. unfold files9 in Hk. rewrite (keys_set_new _ _ _ Hnew6), in_app_iff in Hk.
    destruct Hk as [Hk|[<-|[]]]; [|right; simpl; tauto].
    destruct (Hkeys8 k Hk) as [|Hm]; [now left|right; simpl in *; tauto]. }
  assert (Hnew7 : ~ In "mappings.fsh"%string (JMap.keys files9)).
  { apply (shared_name_is_new (profiles fshPackage) files9 _ "mappings" Hnames Hkeys9);
      [simpl; tauto|simpl; intuition discriminate]. }
  eexists. split; [reflexivity|].
  fold files6 files7 files8 files9.
  rewrite (contents_set_new _ _ _ Hnew7). unfold files9.
  rewrite (contents_set_new _ _ _ Hnew6). unfold files8.
  rewrite (contents_set_new _ _ _ Hnew5). unfold files7.
  rewrite (contents_set_new _ _ _ Hnew4). unfold files6.
  rewrite (contents_set_new _ _ _ Hnew3).
  assert (Hc4 : contents files4 = contents files3).
  { unfold files4. rewrite (contents_set_new _ _ _ Hnew2). apply app_nil_r. }
  rewrite Hc4 in Hc5. rewrite Hc1, Hc0 in Hc2.
  unfold allExportables.
  set (A := map EAlias (aliases fshPackage)) in *.
  set (P := map (fun p => ENamed (NProfile p)) (profiles fshPackage)) in *.
  set (E := map (fun e => ENamed (NExtension e)) (extensions fshPackage)) in *.
  set (C := map (fun c => ENamed (NCodeSystem c)) (codeSystems fshPackage)) in *.
  set (V := map (fun v => ENamed (NValueSet v)) (valueSets fshPackage)) in *.
  set (M := map (fun m => ENamed (NMapping m)) (mappings fshPackage)) in *.
  set (IV := map (fun i => ENamed (NInvariant i)) (invariants fshPackage)) in *.
  assert (Hinst : Permutation (contents files3)
                    (P ++ map (fun i => ENamed (NInstance i)) (instances fshPackage))).
  { eapply perm_trans; [exact Hc3|].
    eapply perm_trans; [apply Permutation_app_head, Hc2|].
    rewrite app_assoc.
    eapply perm_trans; [apply Permutation_app_comm|].
    apply Permutation_app_head. rewrite <- map_app. now apply Permutation_map. }
  set (I := map (fun i => ENamed (NInstance i)) (instances fshPackage)) in *.
  assert (H5 : Permutation (contents files5) (IV ++ P ++ I)).
  { eapply perm_trans; [exact Hc5|]. now apply Permutation_app_head. }
  clearbody A P E C V M IV I.
  eapply perm_trans.
  { repeat apply Permutation_app_tail. exact H5. }
  clear. repeat rewrite <- app_assoc.
  pull A (IV ++ P ++ I) (E ++ V ++ C ++ M).
  pull P IV (I ++ E ++ V ++ C ++ M).
  pull E (IV ++ I) (V ++ C ++ M).
  pull C (IV ++ I ++ V) M.
  pull V (IV ++ I) M.
  apply Permutation_app_swap_app.
Qed.

Lemma by_profile_loses_nothing_witness :
  exists files,
    groupByProfile packageQ = Some files
    /\ Permutation (contents files) (allExportables packageQ).
Proof.
  apply by_profile_loses_nothing.
  - cbn. constructor; [simpl; intuition discriminate|].
    constructor; [simpl; tauto|constructor].
  - intros p [<-|[<-|[]]]; cbn; intuition discriminate.
Defined.

(** *** One group per definition *)

Lemma set_new {V} k (v : V) (m : JMap.t V) :
  ~ In k (JMap.keys m) -> JMap.set k v m = m ++ [(k, v)].
Proof.
  induction m as [|[k0 v0] m IH]; simpl; intros Hnotin; [reflexivity|].
  destruct (String.eqb_spec k k0) as [->|Hne]; [exfalso; apply Hnotin; now left|].
  rewrite IH; [reflexivity|]. intros Hin. apply Hnotin. now right.
Qed.

Lemma keys_app {V} (m m' : JMap.t V) : JMap.keys (m ++ m') = JMap.keys m ++ JMap.keys m'.
Proof. apply map_app. Qed.

Lemma keys_perDefinition {A} (inj : A -> NamedExportable) suffix (l : list A) :
  JMap.keys (perDefinition inj suffix l) = map (fun x => (name (inj x) ++ suffix)%string) l.
Proof. unfold JMap.keys, perDefinition. rewrite map_map. reflexivity. Qed.

Lemma setEach_new {A} (inj : A -> NamedExportable) suffix (l : list A) : forall files,
  NoDup (namesOf inj l) ->
  (forall x, In x l -> ~ In (name (inj x) ++ suffix)%string (JMap.keys files)) ->
  setEach inj suffix l files = files ++ perDefinition inj suffix l.
Proof.
  unfold setEach, namesOf.
  induction l as [|x l IH]; intros files Hnd Hfresh; cbn [fold_left map perDefinition].
  - now rewrite app_nil_r.
  - inversion Hnd as [|? ? Hx Hnd']; subst.
    rewrite (set_new _ _ _ (Hfresh x (or_introl eq_refl))).
    rewrite IH; [now rewrite <- app_assoc|assumption|].
    intros y Hy Hin. rewrite keys_app in Hin. apply in_app_or in Hin.
    destruct Hin as [Hin|[Heq|[]]].
    + revert Hin. apply Hfresh. now right.
    + apply append_cancel_r in Heq. apply Hx. rewrite Heq.
      now apply (in_map (fun x => name (inj x))).
Qed.

Lemma list_ascii_app (a b : string) :
  list_ascii_of_string (a ++ b) = list_ascii_of_string a ++ list_ascii_of_string b.
Proof. induction a as [|c a IH]; simpl; [reflexivity|now rewrite IH]. Qed.

(** Two names that end differently are different. *)
Lemma suffix_differs (s t : string) :
  (forall x y, rev (list_ascii_of_string s) ++ x <> rev (list_ascii_of_string t) ++ y) ->
  forall a b, (a ++ s)%string <> (b ++ t)%string.
Proof.
  intros Hdiff a b Heq. apply (f_equal list_ascii_of_string) in Heq.
  rewrite !list_ascii_app in Heq. apply (f_equal (@rev ascii)) in Heq.
  rewrite !rev_app_distr in Heq. exact (Hdiff _ _ Heq).
Qed.

Ltac differ := apply suffix_differs; intros ? ?; cbn; discriminate.

(** The names [groupAsFilePerDefinition] gives to the groups of two kinds
    never meet, and none is the name of the group of the aliases. *)
Lemma kinds_apart (sufs : list string) (suffix : string) (files : Files) :
  (forall s, In s sufs -> forall a b, (a ++ s)%string <> (b ++ suffix)%string) ->
  (forall k, In k (JMap.keys files) -> exists a s, In s sufs /\ k = (a ++ s)%string) ->
  forall n, ~ In (n ++ suffix)%string (JMap.keys files).
Proof.
  intros Hapart Hkeys n Hin. destruct (Hkeys _ Hin) as (a & s & Hs & Heq).
  symmetry in Heq. exact (Hapart s Hs a n Heq).
Qed.

Ltac apart K :=
  intros ? _; eapply kinds_apart; [|exact K];
  let s := fresh "s" in
  let Hs := fresh "Hs" in
  intros s Hs; simpl in Hs; repeat (destruct Hs as [<-|Hs]; [differ|]); destruct Hs.

Lemma kinds_grow {A} (inj : A -> NamedExportable) (sufs : list string) (suffix : string)
      (files : Files) (l : list A) :
  (forall k, In k (JMap.keys files) -> exists a s, In s sufs /\ k = (a ++ s)%string) ->
  forall k, In k (JMap.keys (files ++ perDefinition inj suffix l)) ->
            exists a s, In s (suffix :: sufs) /\ k = (a ++ s)%string.
Proof.
  intros Hkeys k Hin. rewrite keys_app, keys_perDefinition in Hin.
  apply in_app_or in Hin. destruct Hin as [Hin|Hin].
  - destruct (Hkeys k Hin) as (a & s & Hs & ->). exists a, s. split; [now right|reflexivity].
  - apply in_map_iff in Hin. destruct Hin as (x & <- & _).
    exists (name (inj x)), suffix. split; [now left|reflexivity].
Qed.

(** X5: when no two definitions of one kind share a name, the
    file-per-definition strategy returns the group of the aliases followed by
    one group per definition that holds that definition alone, named after
    it and its kind: invariants first, then mappings, profiles, extensions,
    code systems, value sets and instances, each kind in package order. *)
Theorem file_per_definition_one_group_each (fshPackage : Package) :
  NoDup (namesOf NInvariant (invariants fshPackage)) ->
  NoDup (namesOf NMapping (mappings fshPackage)) ->
  NoDup (namesOf NProfile (profiles fshPackage)) ->
  NoDup (namesOf NExtension (extensions fshPackage)) ->
  NoDup (namesOf NCodeSystem (codeSystems fshPackage)) ->
  NoDup (namesOf NValueSet (valueSets fshPackage)) ->
  NoDup (namesOf NInstance (instances fshPackage)) ->
  groupAsFilePerDefinition fshPackage
  = ("aliases.fsh"%string, map EAlias (aliases fshPackage))
    :: perDefinition NInvariant "-Invariant.fsh" (invariants fshPackage)
    ++ perDefinition NMapping "-Mapping.fsh" (mappings fshPackage)
    ++ perDefinition NProfile "-Profile.fsh" (profiles fshPackage)
    ++ perDefinition NExtension "-Extension.fsh" (extensions fshPackage)
    ++ perDefinition NCodeSystem "-CodeSystem.fsh" (codeSystems fshPackage)
    ++ perDefinition NValueSet "-ValueSet.fsh" (valueSets fshPackage)
    ++ perDefinition NInstance "-Instance.fsh" (instances fshPackage).
Proof.
  intros Hinv Hmap Hpro Hext Hcs Hvs Hins. unfold groupAsFilePerDefinition.
  cbn [JMap.set].
  set (files0 := [("aliases.fsh"%string, map EAlias (aliases fshPackage))]).
  assert (K0 : forall k, In k (JMap.keys files0) ->
                         exists a s, In s ["aliases.fsh"%string] /\ k = (a ++ s)%string).
  { intros k [<-|[]]. exists ""%string, "aliases.fsh"%string. split; [now left|reflexivity]. }
  rewrite (setEach_new NInvariant _ _ files0 Hinv).
  2:{ apart K0. }
  pose proof (kinds_grow NInvariant _ "-Invariant.fsh" _ (invariants fshPackage) K0) as K1.
  rewrite (setEach_new NMapping _ _ _ Hmap).
  2:{ apart K1. }
  pose proof (kinds_grow NMapping _ "-Mapping.fsh" _ (mappings fshPackage) K1) as K2.
  rewrite (setEach_new NProfile _ _ _ Hpro).
  2:{ apart K2. }
  pose proof (kinds_grow NProfile _ "-Profile.fsh" _ (profiles fshPackage) K2) as K3.
  rewrite (setEach_new NExtension _ _ _ Hext).
  2:{ apart K3. }
  pose proof (kinds_grow NExtension _ "-Extension.fsh" _ (extensions fshPackage) K3) as K4.
  rewrite (setEach_new NCodeSystem _ _ _ Hcs).
  2:{ apart K4. }
  pose proof (kinds_grow NCodeSystem _ "-CodeSystem.fsh" _ (codeSystems fshPackage) K4) as K5.
  rewrite (setEach_new NValueSet _ _ _ Hvs).
  2:{ apart K5. }
  pose proof (kinds_grow NValueSet _ "-ValueSet.fsh" _ (valueSets fshPackage) K5) as K6.
  rewrite (setEach_new NInstance _ _ _ Hins).
  2:{ apart K6. }
  unfold files0. repeat rewrite <- app_assoc. reflexivity.
Qed.

Lemma file_per_definition_one_group_each_witness :
  groupAsFilePerDefinition packageQ
  = ("aliases.fsh"%string, map EAlias (aliases packageQ))
    :: perDefinition NInvariant "-Invariant.fsh" (invariants packageQ)
    ++ perDefinition NMapping "-Mapping.fsh" (mappings packageQ)
    ++ perDefinition NProfile "-Profile.fsh" (profiles packageQ)
    ++ perDefinition NExtension "-Extension.fsh" (extensions packageQ)
    ++ perDefinition NCodeSystem "-CodeSystem.fsh" (codeSystems packageQ)
    ++ perDefinition NValueSet "-ValueSet.fsh" (valueSets packageQ)
    ++ perDefinition NInstance "-Instance.fsh" (instances packageQ).
Proof.
  apply file_per_definition_one_group_each; cbn;
    repeat (constructor; [simpl; intuition discriminate|]); constructor.
Defined.

(** *** Where the by-profile strategy puts an instance that is not inline *)

Lemma push_grows {A} k (x : A) (s s' : JMap.t (list A)) k' l0 :
  JMap.push k x s = Some s' -> JMap.get k' s = Some l0 ->
  exists more, JMap.get k' s' = Some (l0 ++ more).
Proof.
  unfold JMap.push. destruct (JMap.get k s) as [old|] eqn:Hold; [|discriminate].
  intros [= <-] Hget. destruct (String.eqb_spec k k') as [->|Hne].
  - rewrite get_set_same. exists [x]. congruence.
  - rewrite (get_set_other _ _ _ _ Hne). exists []. now rewrite app_nil_r.
Qed.

Lemma forEachM_grows {A} (f : Files -> A -> option Files) (inj : A -> Exportable)
      (shared : string) :
  (forall s x, JMap.has shared s = true ->
               exists k, JMap.has k s = true /\ f s x = JMap.push k (inj x) s) ->
  forall l s s',
    JMap.has shared s = true -> forEachM f l s = Some s' ->
    forall k l0, JMap.get k s = Some l0 -> exists more, JMap.get k s' = Some (l0 ++ more).
Proof.
  intros Hstep. induction l as [|x l IH]; intros s s' Hs Hrun k l0 Hget; cbn [forEachM] in Hrun.
  - injection Hrun as <-. exists []. now rewrite app_nil_r.
  - destruct (Hstep s x Hs) as (kx & Hkx & Hf). rewrite Hf in Hrun.
    destruct (JMap.push kx (inj x) s) as [s1|] eqn:Hpush; [|discriminate].
    destruct (push_grows _ _ _ _ _ _ Hpush Hget) as (m1 & Hget1).
    destruct (IH s1 s') with (k := k) (l0 := (l0 ++ m1)) as (m2 & Hget2);
      [|assumption|assumption|].
    + apply has_keys, (push_keys _ _ _ _ _ Hpush), has_keys. assumption.
    + exists (m1 ++ m2). now rewrite app_assoc.
Qed.

Lemma forEachM_app {A S} (f : S -> A -> option S) (l1 l2 : list A) : forall s,
  forEachM f (l1 ++ l2) s
  = match forEachM f l1 s with Some s1 => forEachM f l2 s1 | None => None end.
Proof.
  induction l1 as [|x l1 IH]; intros s; cbn [app forEachM]; [reflexivity|].
  destruct (f s x); [apply IH|reflexivity].
Qed.

Lemma placeNonInline_pushes s i :
  JMap.has "instances.fsh" s = true ->
  exists k, JMap.has k s = true
            /\ placeNonInline s i = JMap.push k (ENamed (NInstance i)) s.
Proof.
  intros Hs. unfold placeNonInline.
  destruct (String.eqb (usage i) "Example" && JMap.has (instanceOf i ++ ".fsh") s) eqn:E.
  - apply andb_true_iff in E. exists (instanceOf i ++ ".fsh")%string. tauto.
  - now exists "instances.fsh"%string.
Qed.

Lemma placeInline_pushes s i :
  JMap.has "instances.fsh" s = true ->
  exists k, JMap.has k s = true
            /\ placeInline s i = JMap.push k (ENamed (NInstance i)) s.
Proof.
  intros Hs. unfold placeInline, placeByUse.
  destruct (inlineInstanceUsedIn i s) as [|file [|file' rest]] eqn:E;
    try (now exists "instances.fsh"%string).
  exists file. split; [|reflexivity].
  apply has_keys, (usedIn_keys resourceRules (refersToInstance (instance_name i))).
  unfold inlineInstanceUsedIn in E. rewrite E. now left.
Qed.

Lemma placeInvariant_pushes s i :
  JMap.has "invariants.fsh" s = true ->
  exists k, JMap.has k s = true
            /\ placeInvariant s i = JMap.push k (ENamed (NInvariant i)) s.
Proof.
  intros Hs. unfold placeInvariant, placeByUse.
  destruct (invariantUsedIn i s) as [|file [|file' rest]] eqn:E;
    try (now exists "invariants.fsh"%string).
  exists file. split; [|reflexivity].
  apply has_keys, (usedIn_keys profileRules (obeysInvariant (invariant_name i))).
  unfold invariantUsedIn in E. rewrite E. now left.
Qed.

Lemma profile_keys (ps : list ExportableProfile) : forall (acc : Files) k,
  In k (JMap.keys (fold_left (fun f p => JMap.set (profile_name p ++ ".fsh")
                                                  [ENamed (NProfile p)] f) ps acc))
  <-> In k (JMap.keys acc) \/ exists p, In p ps /\ k = (profile_name p ++ ".fsh")%string.
Proof.
  induction ps as [|p ps IH]; intros acc k; cbn [fold_left].
  - split; [tauto|]. intros [Hin|(p & [] & _)]. exact Hin.
  - rewrite IH, keys_set. split.
    + intros [[->|Hin]|(q & Hq & ->)]; [right; exists p|tauto|right; exists q];
        (split; [simpl; tauto|reflexivity]).
    + intros [Hin|(q & [<-|Hq] & ->)]; [tauto|tauto|right; now exists q].
Qed.

Lemma home_apart fshPackage i g :
  ~ In (instanceOf i) laterGroups -> In g laterGroups ->
  (g ++ ".fsh")%string <> homeOf fshPackage i.
Proof.
  intros Hlater Hg. unfold homeOf.
  destruct (_ && _).
  - intros Heq. apply append_cancel_r in Heq. congruence.
  - simpl in Hg. repeat (destruct Hg as [<-|Hg]; [discriminate|]). destruct Hg.
Qed.

(** X6: under the by-profile strategy an instance of the package whose
    usage is not Inline ends up in the group of the profile it is an example
    of, when its usage is Example and the package has a profile of that
    name, and in the shared instances group otherwise; provided the profile
    is not named like a group the strategy sets afterwards (invariants,
    aliases, extensions, valueSets, codeSystems, mappings). *)
Theorem non_inline_instance_goes_home (fshPackage : Package) (i : ExportableInstance) :
  In i (instances fshPackage) ->
  usage i <> "Inline"%string ->
  ~ In (instanceOf i) laterGroups ->
  exists files group,
    groupByProfile fshPackage = Some files
    /\ JMap.get (homeOf fshPackage i) files = Some group
    /\ In (ENamed (NInstance i)) group.
Proof.
  intros Hin Husage Hlater. unfold groupByProfile.
  match goal with
  | |- context [fold_left ?f (profiles fshPackage) ?a] =>
      set (files0 := fold_left f (profiles fshPackage) a) in *
  end.
  set (files1 := JMap.set "instances.fsh" [] files0).
  assert (Hk1 : forall k, In k (JMap.keys files1)
                          <-> k = "instances.fsh"%string
                              \/ exists p, In p (profiles fshPackage)
                                            /\ k = (profile_name p ++ ".fsh")%string).
  { intros k. unfold files1, files0. rewrite keys_set, profile_keys. simpl. tauto. }
  rewrite partition_as_filter.
  assert (Hnon : In i (filter (fun x => negb (String.eqb (usage x) "Inline"))
                              (instances fshPackage))).
  { apply filter_In. split; [assumption|].
    destruct (String.eqb_spec (usage i) "Inline"); [contradiction|reflexivity]. }
  destruct (in_split _ _ Hnon) as (before & after & ->). clear Hnon.
  rewrite forEachM_app.
  destruct (forEachM_pushes placeNonInline (fun x => ENamed (NInstance x)) "instances.fsh"
              placeNonInline_pushes before files1 (has_set_same _ _ _))
    as (s1 & -> & _ & Hs1).
  cbn [forEachM].
  (* the step that places [i] *)
  assert (Hhome : JMap.has (homeOf fshPackage i) s1 = true
                  /\ placeNonInline s1 i
                     = JMap.push (homeOf fshPackage i) (ENamed (NInstance i)) s1).
  { unfold placeNonInline, homeOf.
    destruct (String.eqb (usage i) "Example"); cbn [andb].
    2:{ split; [|reflexivity]. apply has_keys, Hs1, Hk1. now left. }
    destruct (existsb _ (profiles fshPackage)) eqn:Ex.
    - apply existsb_exists in Ex. destruct Ex as (p & Hp & Hname).
      apply String.eqb_eq in Hname.
      assert (Hhas : JMap.has (instanceOf i ++ ".fsh") s1 = true).
      { apply has_keys, Hs1, Hk1. right. exists p. now rewrite Hname. }
      now rewrite Hhas.
    - destruct (JMap.has (instanceOf i ++ ".fsh") s1) eqn:Hhas.
      + apply has_keys, Hs1, Hk1 in Hhas. destruct Hhas as [Heq|(p & Hp & Heq)].
        * rewrite Heq. split; [|reflexivity]. apply has_keys, Hs1, Hk1. now left.
        * apply append_cancel_r in Heq.
          assert (Hex : existsb (fun p => String.eqb (profile_name p) (instanceOf i))
                                (profiles fshPackage) = true).
          { apply existsb_exists. exists p. split; [assumption|].
            apply String.eqb_eq. now symmetry. }
          congruence.
      + split; [|reflexivity]. apply has_keys, Hs1, Hk1. now left. }
  destruct Hhome as [Hhas ->].
  destruct (push_Some _ (ENamed (NInstance i)) s1 Hhas) as (old & Hold & Hpush).
  rewrite Hpush.
  set (s2 := JMap.set (homeOf fshPackage i) (old ++ [ENamed (NInstance i)]) s1) in *.
  assert (Hs2 : forall k, In k (JMap.keys s2) <-> In k (JMap.keys files1)).
  { intros k. rewrite (push_keys _ _ _ _ k Hpush). apply Hs1. }
  assert (Hshared2 : JMap.has "instances.fsh" s2 = true).
  { apply has_keys, Hs2, Hk1. now left. }
  destruct (forEachM_pushes placeNonInline (fun x => ENamed (NInstance x)) "instances.fsh"
              placeNonInline_pushes after s2 Hshared2) as (s3 & Hrun3 & _ & Hs3).
  rewrite Hrun3.
  destruct (forEachM_grows placeNonInline _ _ placeNonInline_pushes _ _ _ Hshared2 Hrun3
              (homeOf fshPackage i) _ (get_set_same _ _ _)) as (m3 & Hget3).
  assert (Hshared3 : JMap.has "instances.fsh" s3 = true).
  { apply has_keys, Hs3, has_keys. assumption. }
  destruct (forEachM_pushes placeInline (fun x => ENamed (NInstance x)) "instances.fsh"
              placeInline_pushes
              (filter (fun x => String.eqb (usage x) "Inline") (instances fshPackage))
              s3 Hshared3) as (s4 & Hrun4 & _ & Hs4).
  rewrite Hrun4.
  destruct (forEachM_grows placeInline _ _ placeInline_pushes _ _ _ Hshared3 Hrun4
              (homeOf fshPackage i) _ Hget3) as (m4 & Hget4).
  set (s5 := JMap.set "invariants.fsh" [] s4).
  assert (Hget5 : JMap.get (homeOf fshPackage i) s5 = JMap.get (homeOf fshPackage i) s4).
  { apply get_set_other, (home_apart fshPackage i "invariants" Hlater). simpl. tauto. }
  destruct (forEachM_pushes placeInvariant (fun x => ENamed (NInvariant x)) "invariants.fsh"
              placeInvariant_pushes (invariants fshPackage) s5 (has_set_same _ _ _))
    as (s6 & Hrun6 & _ & Hs6).
  rewrite Hrun6. rewrite Hget4 in Hget5.
  destruct (forEachM_grows placeInvariant _ _ placeInvariant_pushes _ _ _
              (has_set_same _ _ _) Hrun6 (homeOf fshPackage i) _ Hget5) as (m6 & Hget6).
  eexists. exists ((((old ++ [ENamed (NInstance i)]) ++ m3) ++ m4) ++ m6).
  split; [reflexivity|]. split.
  - rewrite !get_set_other; [exact Hget6| | | | |];
      [apply (home_apart fshPackage i "aliases" Hlater)
      |apply (home_apart fshPackage i "extensions" Hlater)
      |apply (home_apart fshPackage i "valueSets" Hlater)
      |apply (home_apart fshPackage i "codeSystems" Hlater)
      |apply (home_apart fshPackage i "mappings" Hlater)]; simpl; tauto.
  - rewrite !in_app_iff. simpl. tauto.
Qed.

Lemma non_inline_instance_goes_home_witness :
  exists files group,
    groupByProfile packageQ = Some files
    /\ JMap.get (homeOf packageQ exampleInstance) files = Some group
    /\ In (ENamed (NInstance exampleInstance)) group.
Proof.
  apply non_inline_instance_goes_home.
  - simpl. tauto.
  - discriminate.
  - simpl. intuition discriminate.
Defined.

(** *** A profile named like a shared group *)

Lemma In_set {V} k l k' (v : V) (m : JMap.t V) :
  NoDup (JMap.keys m) -> In (k, l) (JMap.set k' v m) ->
  (k = k' /\ l = v) \/ (k <> k' /\ In (k, l) m).
Proof.
  intros Hnd Hin.
  apply (get_In k l _ (set_NoDup k' v m Hnd)) in Hin.
  destruct (String.eqb_spec k' k) as [->|Hne].
  - rewrite get_set_same in Hin. left. split; congruence.
  - rewrite (get_set_other _ _ _ _ Hne) in Hin. right. split; [congruence|].
    now apply get_Some_In.
Qed.

Lemma atHome_set reset k' v (files : Files) :
  profilesAtHome reset files ->
  (forall q, ~ In (ENamed (NProfile q)) v) ->
  profilesAtHome (k' :: reset) (JMap.set k' v files).
Proof.
  intros [Hnd Hhome] Hv. split; [now apply set_NoDup|].
  intros k l q Hin Hq. destruct (In_set _ _ _ _ _ Hnd Hin) as [[-> ->]|[Hne Hold]].
  - now apply Hv in Hq.
  - destruct (Hhome k l q Hold Hq) as [Hk Hreset]. split; [assumption|].
    intros [Heq|Hr]; [congruence|contradiction].
Qed.

Lemma atHome_push reset k' x (files files' : Files) :
  profilesAtHome reset files ->
  JMap.push k' x files = Some files' ->
  (forall q, x <> ENamed (NProfile q)) ->
  profilesAtHome reset files'.
Proof.
  intros [Hnd Hhome] Hpush Hx. split; [now apply (push_NoDup _ _ _ _ Hpush)|].
  unfold JMap.push in Hpush. destruct (JMap.get k' files) as [old|] eqn:Hold; [|discriminate].
  injection Hpush as <-. intros k l q Hin Hq.
  destruct (In_set _ _ _ _ _ Hnd Hin) as [[-> ->]|[Hne Hin']].
  - apply in_app_or in Hq. destruct Hq as [Hq|[Hq|[]]]; [|now apply Hx in Hq].
    apply (Hhome k' old q); [now apply get_Some_In|assumption].
  - now apply (Hhome k l q).
Qed.

Lemma atHome_forEachM {A} (f : Files -> A -> option Files) (inj : A -> Exportable) reset :
  (forall s x s', f s x = Some s' -> exists k, JMap.push k (inj x) s = Some s') ->
  (forall x q, inj x <> ENamed (NProfile q)) ->
  forall l s s', profilesAtHome reset s -> forEachM f l s = Some s' -> profilesAtHome reset s'.
Proof.
  intros Hstep Hinj. induction l as [|x l IH]; intros s s' Hs Hrun; cbn [forEachM] in Hrun.
  - now injection Hrun as <-.
  - destruct (f s x) as [s1|] eqn:Hf; [|discriminate].
    destruct (Hstep _ _ _ Hf) as (k & Hpush).
    apply (IH s1 s'); [|assumption].
    now apply (atHome_push reset k (inj x) s s1).
Qed.

Lemma placeByUse_is_push used shared x (s s' : Files) :
  placeByUse used shared x s = Some s' -> exists k, JMap.push k x s = Some s'.
Proof.
  unfold placeByUse. destruct used as [|file [|file' rest]]; intros Hpush; eauto.
Qed.

Lemma atHome_profiles (ps : list ExportableProfile) : forall acc : Files,
  profilesAtHome [] acc ->
  profilesAtHome [] (fold_left (fun f p => JMap.set (profile_name p ++ ".fsh")
                                                    [ENamed (NProfile p)] f) ps acc).
Proof.
  induction ps as [|p ps IH]; intros acc Hacc; cbn [fold_left]; [assumption|].
  apply IH. destruct Hacc as [Hnd Hhome]. split; [now apply set_NoDup|].
  intros k l q Hin Hq. split; [|intros []].
  destruct (In_set _ _ _ _ _ Hnd Hin) as [[-> ->]|[Hne Hold]].
  - destruct Hq as [[= ->]|[]]. reflexivity.
  - now destruct (Hhome k l q Hold Hq).
Qed.

(** X18: under the by-profile strategy a profile named like one of the
    shared groups (instances, invariants, aliases, extensions, valueSets,
    codeSystems, mappings) is in no group of the result: the group made for
    it is overwritten when the shared group of that name is set. *)
Theorem profile_named_like_a_shared_group_is_lost
        (fshPackage : Package) (files : Files) (q : ExportableProfile) :
  groupByProfile fshPackage = Some files ->
  In (profile_name q) sharedGroups ->
  ~ In (ENamed (NProfile q)) (contents files).
Proof.
  intros Hrun Hname Hin. unfold groupByProfile in Hrun.
  pose proof (atHome_profiles (profiles fshPackage) []
                (conj (NoDup_nil _) (fun k l q (H : In (k, l) []) => match H with end)))
    as H0.
  match type of Hrun with
  | context [fold_left ?f (profiles fshPackage) ?a] =>
      set (files0 := fold_left f (profiles fshPackage) a) in *
  end.
  apply (atHome_set [] "instances.fsh" []) in H0; [|intros ? []].
  destruct (partition _ (instances fshPackage)) as [inlineInstances nonInlineInstances].
  destruct (forEachM placeNonInline nonInlineInstances _) as [files2|] eqn:Hrun2;
    [|discriminate].
  assert (H2 : profilesAtHome ["instances.fsh"%string] files2).
  { apply (atHome_forEachM placeNonInline (fun i => ENamed (NInstance i)) _)
      with (l := nonInlineInstances) (s := JMap.set "instances.fsh" [] files0);
      try assumption; [|discriminate].
    intros s x s'. unfold placeNonInline. destruct (_ && _); eauto. }
  destruct (forEachM placeInline inlineInstances files2) as [files3|] eqn:Hrun3;
    [|discriminate].
  assert (H3 : profilesAtHome ["instances.fsh"%string] files3).
  { apply (atHome_forEachM placeInline (fun i => ENamed (NInstance i)) _)
      with (l := inlineInstances) (s := files2); try assumption; [|discriminate].
    intros s x s'. apply placeByUse_is_push. }
  apply (atHome_set _ "invariants.fsh" []) in H3; [|intros ? []].
  destruct (forEachM placeInvariant (invariants fshPackage) _) as [files5|] eqn:Hrun5;
    [|discriminate].
  assert (H5 : profilesAtHome ["invariants.fsh"%string; "instances.fsh"%string] files5).
  { apply (atHome_forEachM placeInvariant (fun i => ENamed (NInvariant i)) _)
      with (l := invariants fshPackage) (s := JMap.set "invariants.fsh" [] files3);
      try assumption; [|discriminate].
    intros s x s'. apply placeByUse_is_push. }
  injection Hrun as <-.
  apply (atHome_set _ "aliases.fsh" (map EAlias (aliases fshPackage))) in H5.
  2:{ intros p Hp. apply in_map_iff in Hp. now destruct Hp as (? & ? & _). }
  apply (atHome_set _ "extensions.fsh"
           (map (fun e => ENamed (NExtension e)) (extensions fshPackage))) in H5.
  2:{ intros p Hp. apply in_map_iff in Hp. now destruct Hp as (? & ? & _). }
  apply (atHome_set _ "valueSets.fsh"
           (map (fun v => ENamed (NValueSet v)) (valueSets fshPackage))) in H5.
  2:{ intros p Hp. apply in_map_iff in Hp. now destruct Hp as (? & ? & _). }
  apply (atHome_set _ "codeSystems.fsh"
           (map (fun c => ENamed (NCodeSystem c)) (codeSystems fshPackage))) in H5.
  2:{ intros p Hp. apply in_map_iff in Hp. now destruct Hp as (? & ? & _). }
  apply (atHome_set _ "mappings.fsh"
           (map (fun m => ENamed (NMapping m)) (mappings fshPackage))) in H5.
  2:{ intros p Hp. apply in_map_iff in Hp. now destruct Hp as (? & ? & _). }
  destruct H5 as [_ Hhome].
  unfold contents in Hin. apply in_flat_map in Hin. destruct Hin as ([k l] & Hkl & Hq).
  destruct (Hhome k l q Hkl Hq) as [-> Hreset]. apply Hreset.
  simpl in Hname. simpl.
  repeat (destruct Hname as [<-|Hname]; [tauto|]). destruct Hname.
Qed.

Lemma profile_named_like_a_shared_group_is_lost_witness :
  exists files,
    groupByProfile packageShadowed = Some files
    /\ ~ In (ENamed (NProfile profileNamedMappings)) (contents files).
Proof.
  eexists. split; [reflexivity|].
  apply (profile_named_like_a_shared_group_is_lost packageShadowed _ profileNamedMappings).
  - reflexivity.
  - simpl. tauto.
Defined.

(** *** What is written is trimmed *)

Lemma trimStart_starts s : Str.trimStart s = ""%string \/ startsTight (Str.trimStart s) = true.
Proof.
  induction s as [|c s IH]; [now left|]. cbn [Str.trimStart].
  destruct (Str.isWhiteSpace c) eqn:E; [assumption|]. right. simpl. now rewrite E.
Qed.

Lemma trimEnd_ends s : Str.trimEnd s = ""%string \/ endsTight (Str.trimEnd s) = true.
Proof.
  induction s as [|c s IH]; [now left|]. cbn [Str.trimEnd].
  destruct (Str.trimEnd s) as [|d r] eqn:E.
  - destruct (Str.isWhiteSpace c) eqn:Ec; [now left|]. right. simpl. now rewrite Ec.
  - right. destruct IH as [IH|IH]; [discriminate|]. exact IH.
Qed.

Lemma trimEnd_starts s : startsTight s = true -> startsTight (Str.trimEnd s) = true.
Proof.
  destruct s as [|c s]; [discriminate|]. cbn [startsTight Str.trimEnd]. intros Hc.
  destruct (Str.trimEnd s) as [|d r]; [|exact Hc].
  apply negb_true_iff in Hc. rewrite Hc. simpl. now rewrite Hc.
Qed.

(** What [trim] leaves is empty, or starts and ends with a character that
    is no white space. *)
Lemma trim_tight s : Str.trim s <> ""%string -> tight (Str.trim s) = true.
Proof.
  unfold Str.trim, tight. intros Hne.
  destruct (trimStart_starts s) as [Hs|Hs]; [now rewrite Hs in Hne|].
  rewrite (trimEnd_starts _ Hs). cbn [andb].
  now destruct (trimEnd_ends (Str.trimStart s)).
Qed.

Section Trimmed.

Context `{Host}.

(** X20: whatever the package and the strategy, every entry of the mapping
    [export] returns, the index apart, holds a content that is not empty and
    neither starts nor ends with white space. *)
Theorem written_files_are_trimmed (fshPackage : Package) (style : option string) :
  exists log written,
    export fshPackage style = Some (log, written)
    /\ forall file content,
         JMap.get file written = Some content -> file <> "index.txt"%string ->
         content <> ""%string /\ tight content = true.
Proof.
  destruct (groupFiles_wf fshPackage style) as (log0 & files & Hgroup & [Hnd Hfsh]).
  unfold export. rewrite Hgroup. eexists _, _. split; [reflexivity|].
  intros file content Hget Hfile. unfold writeFiles in Hget.
  rewrite get_set_other in Hget by congruence.
  rewrite writeFile_fold in Hget. cbn [fst] in Hget.
  rewrite (get_written fileContent file (retained files) [] (retained_NoDup files Hnd)) in Hget.
  destruct (JMap.get file (retained files)) as [es|] eqn:Hes; [|discriminate].
  injection Hget as <-. apply get_Some_In in Hes.
  unfold retained in Hes. apply filter_In in Hes. destruct Hes as [_ Hne].
  cbn [snd] in Hne. apply negb_true_iff, String.eqb_neq in Hne. split; [exact Hne|].
  revert Hne. unfold fileContent. destruct (partitionAliases es) as [aliases named].
  apply trim_tight.
Qed.

End Trimmed.

End ExporterMore.
(* ------------------------------------------------------------------ *)
(** ** Where the by-profile strategy puts inline instances and invariants *)

Module ExporterPlacement.

Import Exporter ExporterSpec JMapFacts ExporterFacts StrFacts ExporterMore.

(** *** Counting the rules *)









(** *** One placement *)



(** *** The loops *)




(** *** The run of [groupByProfile], stage by stage *)











End ExporterPlacement.

(* ------------------------------------------------------------------ *)
(** ** Facts about the regular expressions *)

Module JsFacts.

Import Js ExtractorSpec StrFacts.

Lemma spanDigits_spec s : forall ds r,
  spanDigits s = (ds, r) ->
  s = (ds ++ r)%string /\ allDigits ds = true
  /\ match r with String c _ => Str.isDigit c = false | EmptyString => True end.
Proof.
  induction s as [|c s IH]; simpl; intros ds r Hs.
  - injection Hs as <- <-. auto.
  - destruct (Str.isDigit c) eqn:Ec.
    + destruct (spanDigits s) as [ds' r'] eqn:E. injection Hs as <- <-.
      destruct (IH ds' r' eq_refl) as (-> & Hall & Hr).
      simpl. rewrite Ec. auto.
    + injection Hs as <- <-. simpl. rewrite Ec. auto.
Qed.

Lemma spanDigits_app ds r :
  allDigits ds = true ->
  match r with String c _ => Str.isDigit c = false | EmptyString => True end ->
  spanDigits (ds ++ r) = (ds, r).
Proof.
  induction ds as [|c ds IH]; simpl; intros Hall Hr.
  - destruct r as [|c r]; [reflexivity|]. simpl. now rewrite Hr.
  - apply andb_true_iff in Hall. destruct Hall as [Hc Hall].
    now rewrite Hc, IH.
Qed.

Lemma matchProperty_self property : forall rest,
  matchProperty property (property ++ rest) = Some rest.
Proof.
  induction property as [|p property IH]; intros rest; simpl; [reflexivity|].
  destruct (Ascii.eqb_spec p ".") as [->|Hne].
  - simpl. apply IH.
  - rewrite Ascii.eqb_refl. apply IH.
Qed.

Lemma matchProperty_literal property : forall s rest,
  dotFree property = true ->
  matchProperty property s = Some rest -> s = (property ++ rest)%string.
Proof.
  induction property as [|p property IH]; simpl; intros s rest Hfree Hm.
  - now injection Hm as ->.
  - apply andb_true_iff in Hfree. destruct Hfree as [Hp Hfree].
    destruct s as [|c s]; [discriminate|].
    destruct (Ascii.eqb p ".") eqn:Ep; [discriminate|].
    destruct (Ascii.eqb_spec p c) as [->|]; [|discriminate].
    now rewrite (IH s rest Hfree Hm).
Qed.

Lemma ignoredAt_occurrence property idx post :
  optionalIndex idx -> ignoredAt property (property ++ idx ++ "." ++ post) = true.
Proof.
  intros [->|(ds & Hne & Hall & ->)]; unfold ignoredAt; rewrite matchProperty_self.
  - simpl. destruct post; reflexivity.
  - replace (("[" ++ ds ++ "]") ++ "." ++ post)%string
      with (String "[" (ds ++ String "]" (String "." post)))
      by (simpl; now rewrite append_assoc).
    rewrite (spanDigits_app ds (String "]" (String "." post))) by (assumption || reflexivity).
    destruct (String.eqb_spec ds ""); [contradiction|].
    simpl. now destruct post.
Qed.

Lemma testIgnored_shift property pre : forall s,
  ignoredAt property s = true -> testIgnored property (pre ++ s) = true.
Proof.
  induction pre as [|c pre IH]; intros s Hs; simpl.
  - destruct s; simpl; now rewrite Hs.
  - rewrite (IH s Hs). apply orb_true_r.
Qed.

Lemma testIgnored_occurs property key :
  occursIn property key -> testIgnored property key = true.
Proof.
  intros (pre & idx & post & Hidx & ->).
  now apply testIgnored_shift, ignoredAt_occurrence.
Qed.

Lemma ignoredAt_literal property s :
  dotFree property = true -> ignoredAt property s = true ->
  exists idx post, optionalIndex idx /\ s = (property ++ idx ++ "." ++ post)%string.
Proof.
  intros Hfree. unfold ignoredAt.
  destruct (matchProperty property s) as [rest|] eqn:Hm; [|discriminate].
  apply (matchProperty_literal _ _ _ Hfree) in Hm. subst s.
  intros Hor. apply orb_true_iff in Hor. destruct Hor as [Hdot|Hidx].
  - apply prefix_inv in Hdot. destruct Hdot as [post ->].
    exists "", post. split; [now left|reflexivity].
  - destruct rest as [|c r]; [discriminate|].
    destruct (Ascii.eqb_spec c "[") as [->|Hne].
    2:{ exfalso. revert Hidx.
        destruct c as [[] [] [] [] [] [] [] []]; try discriminate. congruence. }
    destruct (spanDigits r) as [ds r'] eqn:Hspan.
    apply andb_true_iff in Hidx. destruct Hidx as [Hds Hclose].
    apply spanDigits_spec in Hspan. destruct Hspan as (-> & Hall & _).
    apply prefix_inv in Hclose. destruct Hclose as [post ->].
    exists ("[" ++ ds ++ "]")%string, post. split.
    + right. exists ds. repeat split; try assumption.
      intros ->. discriminate.
    + simpl. now rewrite !append_assoc.
Qed.

Lemma testIgnored_literal property : forall key,
  dotFree property = true -> testIgnored property key = true -> occursIn property key.
Proof.
  intros key Hfree. induction key as [|c key IH]; simpl; intros Ht.
  - rewrite orb_false_r in Ht.
    destruct (ignoredAt_literal _ _ Hfree Ht) as (idx & post & Hidx & Heq).
    exists "", idx, post. auto.
  - apply orb_true_iff in Ht. destruct Ht as [Hhere|Hlater].
    + destruct (ignoredAt_literal _ _ Hfree Hhere) as (idx & post & Hidx & Heq).
      exists "", idx, post. auto.
    + destruct (IH Hlater) as (pre & idx & post & Hidx & ->).
      exists (String c pre), idx, post. auto.
Qed.

End JsFacts.

(* ------------------------------------------------------------------ *)
(** ** Facts about the extractor *)

Module ExtractorFacts.

Import Extractor ExtractorSpec JsFacts StrFacts.

Lemma indexed_from {A} (l : list A) : forall a i x,
  In (i, x) (combine (seq a (List.length l)) l) <-> a <= i /\ nth_error l (i - a) = Some x.
Proof.
  induction l as [|y l IH]; intros a i x; simpl.
  - split; [intros []|]. intros [_ Hn]. now destruct (i - a).
  - rewrite IH. split.
    + intros [Heq|[Hle Hn]].
      * injection Heq as <- <-. rewrite Nat.sub_diag. auto.
      * split; [lia|]. replace (i - a) with (S (i - S a)) by lia. assumption.
    + intros [Hle Hn]. destruct (i - a) as [|n] eqn:E.
      * left. injection Hn as ->. f_equal. lia.
      * right. split; [lia|]. replace (i - S a) with n by lia. assumption.
Qed.

Lemma indexed_In {A} (l : list A) i x : In (i, x) (indexed l) <-> nth_error l i = Some x.
Proof.
  unfold indexed. rewrite indexed_from, Nat.sub_0_r. intuition lia.
Qed.

Lemma fold_appends {R A} (step : list R * Log -> A -> list R * Log) :
  appends step ->
  forall l s,
    fold_left step l s
    = (fst s ++ flat_map (fun e => fst (contribution step e)) l,
       snd s ++ flat_map (fun e => snd (contribution step e)) l).
Proof.
  intros Happ. induction l as [|e l IH]; intros [rules log]; simpl.
  - now rewrite !app_nil_r.
  - rewrite IH, (Happ (rules, log) e). simpl. now rewrite !app_assoc.
Qed.

Section WithUtils.

Context `{Utils}.

Lemma emit_appends rule i flatArray resourceType message s :
  emit rule i flatArray resourceType message s
  = (fst s ++ fst (emit rule i flatArray resourceType message ([], [])),
     snd s ++ snd (emit rule i flatArray resourceType message ([], []))).
Proof.
  destruct s as [rules log]. unfold emit.
  destruct (isFSHValueEmpty _); simpl; now rewrite ?app_nil_r.
Qed.

Lemma emit_rules rule i flatArray resourceType message r :
  In r (fst (emit rule i flatArray resourceType message ([], []))) ->
  r = rule (getFSHValue i flatArray resourceType)
  /\ isFSHValueEmpty (getFSHValue i flatArray resourceType) = false.
Proof.
  unfold emit. destruct (isFSHValueEmpty _) eqn:E; simpl; [intros []|].
  intros [<-|[]]. auto.
Qed.


Lemma emit_nonEmpty rule i flatArray resourceType message :
  isFSHValueEmpty (getFSHValue i flatArray resourceType) = false ->
  emit rule i flatArray resourceType message ([], [])
  = ([rule (getFSHValue i flatArray resourceType)], []).
Proof. unfold emit. now intros ->. Qed.

Lemma nil_appends {R} (s : list R * Log) : s = (fst s ++ [], snd s ++ []).
Proof. destruct s. simpl. now rewrite !app_nil_r. Qed.

Lemma diffEntry_appends input config flatSD flatParent :
  appends (diffEntry input config flatSD flatParent).
Proof.
  intros s [i [key v]]. unfold contribution, diffEntry.
  destruct (differs flatSD flatParent key); [|apply nil_appends].
  destruct (String.eqb key "url" && isStandardURL "StructureDefinition" config input);
    [apply nil_appends|apply emit_appends].
Qed.

Lemma resourceEntry_appends input resourceType config flatArray :
  appends (resourceEntry input resourceType config flatArray).
Proof.
  intros s [i [key v]]. unfold contribution, resourceEntry.
  destruct (String.eqb key "url" && isStandardURL (typeName resourceType) config input);
    [apply nil_appends|apply emit_appends].
Qed.

Lemma conceptEntry_appends conceptHierarchy codeSystemName flatArray :
  appends (conceptEntry conceptHierarchy codeSystemName flatArray).
Proof. intros s [i [key v]]. apply emit_appends. Qed.

(** The rules of [processStructureDefinition], entry by entry. *)
Lemma processStructureDefinition_eq input config :
  processStructureDefinition input config
  = (flat_map (fun e => fst (contribution
                               (diffEntry input config (flatSD input) (flatParent input)) e))
              (indexed (flatSD input)),
     snd (prepared input)
     ++ flat_map (fun e => snd (contribution
                                  (diffEntry input config (flatSD input) (flatParent input)) e))
                 (indexed (flatSD input))).
Proof.
  unfold processStructureDefinition, flatSD, flatParent, sdCopy, parentCopy.
  destruct (prepared input) as [[sd parent] log]. simpl.
  now rewrite (fold_appends _ (diffEntry_appends input config _ _)).
Qed.

Lemma processResource_eq input resourceType config :
  let flatArray := keptEntries (RESOURCE_IGNORED_PROPERTIES resourceType) input in
  processResource input resourceType config
  = (flat_map (fun e => fst (contribution
                               (resourceEntry input resourceType config flatArray) e))
              (indexed flatArray),
     flat_map (fun e => snd (contribution
                               (resourceEntry input resourceType config flatArray) e))
              (indexed flatArray)).
Proof.
  intros flatArray. unfold processResource. fold (keptEntries (RESOURCE_IGNORED_PROPERTIES resourceType) input).
  fold flatArray.
  now rewrite (fold_appends _ (resourceEntry_appends input resourceType config flatArray)).
Qed.

Lemma processConcept_eq input conceptHierarchy codeSystemName :
  let flatArray := keptEntries CONCEPT_IGNORED_PROPERTIES input in
  processConcept input conceptHierarchy codeSystemName
  = (flat_map (fun e => fst (contribution
                               (conceptEntry conceptHierarchy codeSystemName flatArray) e))
              (indexed flatArray),
     flat_map (fun e => snd (contribution
                               (conceptEntry conceptHierarchy codeSystemName flatArray) e))
              (indexed flatArray)).
Proof.
  intros flatArray. unfold processConcept. fold (keptEntries CONCEPT_IGNORED_PROPERTIES input).
  fold flatArray.
  now rewrite (fold_appends _ (conceptEntry_appends conceptHierarchy codeSystemName flatArray)).
Qed.

(** Which rule an entry of [processStructureDefinition] contributes. *)
Lemma diffEntry_rule input config flatSD flatParent i key v r :
  In r (fst (contribution (diffEntry input config flatSD flatParent) (i, (key, v)))) <->
  differs flatSD flatParent key = true
  /\ String.eqb key "url" && isStandardURL "StructureDefinition" config input = false
  /\ isFSHValueEmpty (getFSHValue i flatSD "StructureDefinition") = false
  /\ r = newRule "" key (getFSHValue i flatSD "StructureDefinition").
Proof.
  unfold contribution, diffEntry.
  destruct (differs flatSD flatParent key); [|simpl; intuition discriminate].
  destruct (String.eqb key "url" && isStandardURL "StructureDefinition" config input);
    [simpl; intuition discriminate|].
  split.
  - intros Hin. apply emit_rules in Hin. tauto.
  - intros (_ & _ & Hne & ->). rewrite emit_nonEmpty by assumption. now left.
Qed.

Lemma resourceEntry_rule input resourceType config flatArray i key v r :
  In r (fst (contribution (resourceEntry input resourceType config flatArray) (i, (key, v)))) <->
  String.eqb key "url" && isStandardURL (typeName resourceType) config input = false
  /\ isFSHValueEmpty (getFSHValue i flatArray (typeName resourceType)) = false
  /\ r = newRule "" key (getFSHValue i flatArray (typeName resourceType)).
Proof.
  unfold contribution, resourceEntry.
  destruct (String.eqb key "url" && isStandardURL (typeName resourceType) config input);
    [simpl; intuition discriminate|].
  split.
  - intros Hin. apply emit_rules in Hin. tauto.
  - intros (_ & Hne & ->). rewrite emit_nonEmpty by assumption. now left.
Qed.

Lemma conceptEntry_rule conceptHierarchy codeSystemName flatArray i key v r :
  In r (fst (contribution (conceptEntry conceptHierarchy codeSystemName flatArray) (i, (key, v)))) <->
  isFSHValueEmpty (getFSHValue i flatArray "Concept") = false
  /\ r = conceptRule conceptHierarchy key (getFSHValue i flatArray "Concept").
Proof.
  unfold contribution, conceptEntry. split.
  - intros Hin. apply emit_rules in Hin. tauto.
  - intros (Hne & ->). rewrite emit_nonEmpty by assumption. now left.
Qed.

(** *** The loop of [process] *)

Lemma fixIndex_log input structDef what newIndexOf key rule log :
  fixIndex input structDef what newIndexOf key (rule, log)
  = (c <- fixIndex input structDef what newIndexOf key (rule, []) ;;
     Ok (fst c, log ++ snd c)).
Proof.
  unfold fixIndex. destruct (Js.matchIndexed what key) as [digits|];
    [|simpl; now rewrite app_nil_r].
  match goal with |- bind ?c _ = _ => destruct c as [[n|]|] end; simpl;
    now rewrite ?app_nil_r.
Qed.


Lemma processEntry_appends input structDef rem state e :
  processEntry input structDef rem state e
  = (c <- processEntry input structDef rem ([], []) e ;;
     Ok (fst state ++ fst c, snd state ++ snd c)).
Proof.
  destruct state as [rules log]. destruct e as [i [key v]]. unfold processEntry.
  cbv zeta.
  destruct (isFSHValueEmpty _); [simpl; now rewrite app_nil_r|].
  rewrite fixIndex_log.
  destruct (fixIndex input structDef "constraint" constraintIndex key (_, [])) as [[r1 l1]|];
    cbn [bind fst snd app]; [|reflexivity].
  rewrite (fixIndex_log _ _ _ _ _ r1 (log ++ l1)), (fixIndex_log _ _ _ _ _ r1 l1).
  destruct (fixIndex input structDef "mapping" mappingIndex key (r1, [])) as [[r2 l2]|];
    cbn [bind fst snd app]; [|reflexivity].
  now rewrite app_assoc.
Qed.

Lemma processEntry_empty input structDef rem state i key v :
  isFSHValueEmpty (getFSHValue i rem "ElementDefinition") = true ->
  processEntry input structDef rem state (i, (key, v))
  = Ok (fst state, snd state ++ [emptyElementValue structDef input key]).
Proof.
  intros Hempty. destruct state as [rules log]. unfold processEntry. simpl.
  now rewrite Hempty.
Qed.





(** *** The ignore lists *)

Lemma ignored_by properties property key :
  In property properties ->
  key = property \/ occursIn property key ->
  ignored properties key = true.
Proof.
  intros Hin Hkey. unfold ignored. apply existsb_exists. exists property.
  split; [assumption|]. apply orb_true_iff.
  destruct Hkey as [->|Hocc]; [left; apply String.eqb_refl|right].
  now apply testIgnored_occurs.
Qed.

Lemma ignored_literal properties key :
  forallb dotFree properties = true ->
  ignored properties key = true ->
  exists property, In property properties /\ (key = property \/ occursIn property key).
Proof.
  intros Hfree Hig. unfold ignored in Hig. apply existsb_exists in Hig.
  destruct Hig as (property & Hin & Hor). exists property. split; [assumption|].
  apply orb_true_iff in Hor. destruct Hor as [Heq|Ht].
  - left. now apply String.eqb_eq.
  - right. apply testIgnored_literal; [|assumption].
    rewrite forallb_forall in Hfree. now apply Hfree.
Qed.

Lemma kept_not_ignored properties input key :
  ignored properties key = true -> ~ In key (JMap.keys (keptEntries properties input)).
Proof.
  intros Hig Hin. unfold JMap.keys, keptEntries in Hin.
  apply in_map_iff in Hin. destruct Hin as ([k v] & <- & Hin).
  apply filter_In in Hin. simpl in *. destruct Hin as [_ Hkeep].
  now rewrite Hig in Hkeep.
Qed.

Lemma indexed_keys (l : FlatObject) i key v :
  In (i, (key, v)) (indexed l) -> In key (JMap.keys l).
Proof.
  intros Hin. apply indexed_In, nth_error_In in Hin.
  now apply (in_map fst) in Hin.
Qed.

Lemma processResource_paths input resourceType config key :
  emittedFor (fst (processResource input resourceType config)) key ->
  In key (JMap.keys (keptEntries (RESOURCE_IGNORED_PROPERTIES resourceType) input)).
Proof.
  intros (r & Hin & <-). rewrite processResource_eq in Hin. simpl in Hin.
  apply in_flat_map in Hin. destruct Hin as ([i [key v]] & He & Hr).
  apply resourceEntry_rule in Hr. destruct Hr as (_ & _ & ->).
  simpl. eapply indexed_keys; eauto.
Qed.

Lemma processConcept_paths input conceptHierarchy codeSystemName key :
  emittedFor (fst (processConcept input conceptHierarchy codeSystemName)) key ->
  In key (JMap.keys (keptEntries CONCEPT_IGNORED_PROPERTIES input)).
Proof.
  intros (r & Hin & <-). rewrite processConcept_eq in Hin. simpl in Hin.
  apply in_flat_map in Hin. destruct Hin as ([i [key v]] & He & Hr).
  apply conceptEntry_rule in Hr. destruct Hr as (_ & ->).
  simpl. eapply indexed_keys; eauto.
Qed.

(** C10: in [processResource] and [processConcept] a leaf is left out
    when its path is an ignored property name, or when the name, an
    optional array index and a dot occur anywhere in the path, at the
    head or inside, as in [_display.extension[0].url]; no statement is
    emitted for such a path.  For the names that hold no dot of their own
    these are the only paths left out. *)
Theorem ignored_names_match_anywhere (key : string) :
  (forall resourceType property input config,
      In property (RESOURCE_IGNORED_PROPERTIES resourceType) ->
      key = property \/ occursIn property key ->
      ignored (RESOURCE_IGNORED_PROPERTIES resourceType) key = true
      /\ ~ In key (JMap.keys (keptEntries (RESOURCE_IGNORED_PROPERTIES resourceType) input))
      /\ ~ emittedFor (fst (processResource input resourceType config)) key)
  /\ (forall property input conceptHierarchy codeSystemName,
        In property CONCEPT_IGNORED_PROPERTIES ->
        key = property \/ occursIn property key ->
        ignored CONCEPT_IGNORED_PROPERTIES key = true
        /\ ~ In key (JMap.keys (keptEntries CONCEPT_IGNORED_PROPERTIES input))
        /\ ~ emittedFor (fst (processConcept input conceptHierarchy codeSystemName)) key)
  /\ (forall properties,
        forallb dotFree properties = true ->
        ignored properties key = true ->
        exists property, In property properties /\ (key = property \/ occursIn property key))
  /\ forallb dotFree CONCEPT_IGNORED_PROPERTIES = true
  /\ forallb dotFree (RESOURCE_IGNORED_PROPERTIES CodeSystem) = true
  /\ occursIn "display" "_display.extension[0].url"
  /\ ignored CONCEPT_IGNORED_PROPERTIES "_display.extension[0].url" = true
  /\ ignored (RESOURCE_IGNORED_PROPERTIES CodeSystem) "property[0].description.x" = true.
Proof.
  split; [|split; [|split; [|split; [|split; [|split; [|split]]]]]].
  - intros resourceType property input config Hin Hkey.
    pose proof (ignored_by _ _ _ Hin Hkey) as Hig.
    split; [assumption|]. split; [now apply kept_not_ignored|].
    intros Hem. apply processResource_paths in Hem.
    revert Hem. now apply kept_not_ignored.
  - intros property input conceptHierarchy codeSystemName Hin Hkey.
    pose proof (ignored_by _ _ _ Hin Hkey) as Hig.
    split; [assumption|]. split; [now apply kept_not_ignored|].
    intros Hem. apply processConcept_paths in Hem.
    revert Hem. now apply kept_not_ignored.
  - intros properties. apply ignored_literal.
  - reflexivity.
  - reflexivity.
  - exists "_", "", "extension[0].url". split; [now left|reflexivity].
  - reflexivity.
  - reflexivity.
Qed.

(** *** The leaf-level diff of [processStructureDefinition] *)

Lemma processStructureDefinition_emitted input config key :
  emittedFor (fst (processStructureDefinition input config)) key <->
  exists i v,
    nth_error (flatSD input) i = Some (key, v)
    /\ differs (flatSD input) (flatParent input) key = true
    /\ String.eqb key "url" && isStandardURL "StructureDefinition" config input = false
    /\ isFSHValueEmpty (getFSHValue i (flatSD input) "StructureDefinition") = false.
Proof.
  unfold emittedFor. rewrite processStructureDefinition_eq. simpl. split.
  - intros (r & Hin & <-). apply in_flat_map in Hin.
    destruct Hin as ([i [k v]] & He & Hr).
    apply diffEntry_rule in Hr. destruct Hr as (Hd & Hu & Hne & ->).
    exists i, v. simpl. apply indexed_In in He. auto.
  - intros (i & v & Hnth & Hd & Hu & Hne).
    exists (newRule "" key (getFSHValue i (flatSD input) "StructureDefinition")).
    split; [|reflexivity].
    apply in_flat_map. exists (i, (key, v)). split; [now apply indexed_In|].
    apply diffEntry_rule. auto.
Qed.

Lemma processResource_emitted input resourceType config key :
  emittedFor (fst (processResource input resourceType config)) key <->
  exists i v,
    nth_error (keptEntries (RESOURCE_IGNORED_PROPERTIES resourceType) input) i = Some (key, v)
    /\ String.eqb key "url" && isStandardURL (typeName resourceType) config input = false
    /\ isFSHValueEmpty
         (getFSHValue i (keptEntries (RESOURCE_IGNORED_PROPERTIES resourceType) input)
                      (typeName resourceType)) = false.
Proof.
  unfold emittedFor. rewrite processResource_eq. simpl. split.
  - intros (r & Hin & <-). apply in_flat_map in Hin.
    destruct Hin as ([i [k v]] & He & Hr).
    apply resourceEntry_rule in Hr. destruct Hr as (Hu & Hne & ->).
    exists i, v. simpl. apply indexed_In in He. auto.
  - intros (i & v & Hnth & Hu & Hne).
    exists (newRule "" key
              (getFSHValue i (keptEntries (RESOURCE_IGNORED_PROPERTIES resourceType) input)
                           (typeName resourceType))).
    split; [|reflexivity].
    apply in_flat_map. exists (i, (key, v)). split; [now apply indexed_In|].
    apply resourceEntry_rule. split; [exact Hu|]. split; [exact Hne|reflexivity].
Qed.

Lemma differs_iff flatSD flatParent key :
  differs flatSD flatParent key = true <->
  Js.isNullish (JMap.get key flatParent) = true
  \/ Js.isEqualOpt (JMap.get key flatSD) (JMap.get key flatParent) = false
  \/ (key = "status"
      /\ Js.strictEq (JMap.get key flatSD) (Some (JString "active")) = false).
Proof.
  unfold differs. rewrite !orb_true_iff, andb_true_iff, !negb_true_iff, String.eqb_eq.
  tauto.
Qed.

(** C5, as the code has it: a statement is emitted for a leaf path of
    the resource copy exactly when the parent copy lacks the path or
    holds null there, or the two values differ, or the path is [status]
    with a value other than [active], and moreover the path is not a
    [url] holding the standard url and the value resolved for the leaf is
    not empty.  So a [draft] status, equal to the parent's or not, yields
    a status statement once its value resolves, and an [active] status
    equal to the parent's yields none. *)
Theorem emitted_when_leaf_differs (input : list (string * JSON)) (config : Configuration)
        (key : string) :
  (emittedFor (fst (processStructureDefinition input config)) key <->
   exists i v,
     nth_error (flatSD input) i = Some (key, v)
     /\ (Js.isNullish (JMap.get key (flatParent input)) = true
         \/ Js.isEqualOpt (JMap.get key (flatSD input)) (JMap.get key (flatParent input)) = false
         \/ (key = "status"
             /\ Js.strictEq (JMap.get key (flatSD input)) (Some (JString "active")) = false))
     /\ String.eqb key "url" && isStandardURL "StructureDefinition" config input = false
     /\ isFSHValueEmpty (getFSHValue i (flatSD input) "StructureDefinition") = false)
  /\ (forall i v,
        JMap.get "status" (flatSD input) = Some (JString "draft") ->
        nth_error (flatSD input) i = Some ("status", v) ->
        isFSHValueEmpty (getFSHValue i (flatSD input) "StructureDefinition") = false ->
        emittedFor (fst (processStructureDefinition input config)) "status")
  /\ (JMap.get "status" (flatSD input) = Some (JString "active") ->
      JMap.get "status" (flatParent input) = Some (JString "active") ->
      ~ emittedFor (fst (processStructureDefinition input config)) "status").
Proof.
  split; [|split].
  - rewrite processStructureDefinition_emitted.
    split; intros (i & v & Hnth & Hd & Hrest); exists i, v; (split; [exact Hnth|]);
      (split; [|exact Hrest]); now apply differs_iff.
  - intros i v Hdraft Hnth Hne. apply processStructureDefinition_emitted.
    exists i, v. split; [exact Hnth|]. split; [|split; [reflexivity|exact Hne]].
    apply differs_iff. right. right. split; [reflexivity|]. now rewrite Hdraft.
  - intros Hsd Hparent Hem. apply processStructureDefinition_emitted in Hem.
    destruct Hem as (i & v & _ & Hd & _).
    unfold differs in Hd. rewrite Hsd, Hparent in Hd. discriminate Hd.
Qed.

Lemma isStandardURL_string resourceType config input s :
  JMap.get "url" input = Some (JString s) ->
  (isStandardURL resourceType config input = true <->
   s = (canonical config ++ "/" ++ resourceType ++ "/"
        ++ Js.template (JMap.get "id" input))%string).
Proof.
  intros Hurl. unfold isStandardURL. rewrite Hurl. simpl. apply String.eqb_eq.
Qed.

(** C6, as the code has it: in both entry points no statement is
    emitted for [url] when the url is the canonical base, the resource
    kind and the id joined by slashes.  For any other url whose value
    resolves to a non-empty one, [processResource] emits a url
    statement, and [processStructureDefinition] emits one when moreover
    the parent copy has no [url] or another one. *)
Theorem standard_url_is_suppressed (input : list (string * JSON)) (config : Configuration) :
  (isStandardURL "StructureDefinition" config input = true ->
   ~ emittedFor (fst (processStructureDefinition input config)) "url")
  /\ (forall resourceType,
        isStandardURL (typeName resourceType) config input = true ->
        ~ emittedFor (fst (processResource input resourceType config)) "url")
  /\ (forall resourceType i v,
        isStandardURL (typeName resourceType) config input = false ->
        nth_error (keptEntries (RESOURCE_IGNORED_PROPERTIES resourceType) input) i
        = Some ("url", v) ->
        isFSHValueEmpty
          (getFSHValue i (keptEntries (RESOURCE_IGNORED_PROPERTIES resourceType) input)
                       (typeName resourceType)) = false ->
        emittedFor (fst (processResource input resourceType config)) "url")
  /\ (forall i v,
        isStandardURL "StructureDefinition" config input = false ->
        nth_error (flatSD input) i = Some ("url", v) ->
        (Js.isNullish (JMap.get "url" (flatParent input)) = true
         \/ Js.isEqualOpt (JMap.get "url" (flatSD input))
                          (JMap.get "url" (flatParent input)) = false) ->
        isFSHValueEmpty (getFSHValue i (flatSD input) "StructureDefinition") = false ->
        emittedFor (fst (processStructureDefinition input config)) "url")
  /\ (forall resourceType s,
        JMap.get "url" input = Some (JString s) ->
        (isStandardURL resourceType config input = true <->
         s = (canonical config ++ "/" ++ resourceType ++ "/"
              ++ Js.template (JMap.get "id" input))%string))
  /\ (forall resourceType, ignored (RESOURCE_IGNORED_PROPERTIES resourceType) "url" = false).
Proof.
  split; [|split; [|split; [|split; [|split]]]].
  - intros Hstd Hem. apply processStructureDefinition_emitted in Hem.
    destruct Hem as (i & v & _ & _ & Hu & _). rewrite Hstd in Hu. discriminate Hu.
  - intros resourceType Hstd Hem. apply processResource_emitted in Hem.
    destruct Hem as (i & v & _ & Hu & _). rewrite Hstd in Hu. discriminate Hu.
  - intros resourceType i v Hstd Hnth Hne. apply processResource_emitted.
    exists i, v. rewrite Hstd. auto.
  - intros i v Hstd Hnth Hd Hne. apply processStructureDefinition_emitted.
    exists i, v. rewrite Hstd. split; [exact Hnth|]. split; [|auto].
    apply differs_iff. tauto.
  - intros resourceType s. apply isStandardURL_string.
  - intros []; reflexivity.
Qed.

(** *** Leaf paths and the property they come from *)

Lemma plainName_app a b : plainName (a ++ b) = plainName a && plainName b.
Proof.
  induction a as [|c a IH]; simpl; [reflexivity|].
  rewrite IH. now rewrite !andb_assoc.
Qed.

Lemma headed_cons c rest : headed (String c rest) -> c = "."%char \/ c = "["%char.
Proof.
  intros [Hnil|(rest' & [Heq|Heq])]; [discriminate| |]; injection Heq as -> _; auto.
Qed.

Lemma plain_head c k : plainName (String c k) = true -> c <> "."%char /\ c <> "["%char.
Proof.
  simpl. intros Hp. apply andb_true_iff in Hp. destruct Hp as [Hp _].
  apply andb_true_iff in Hp. destruct Hp as [Hdot Hbr].
  split; intros ->; discriminate.
Qed.

Lemma head_unique k : forall k' rest rest',
  plainName k = true -> plainName k' = true -> headed rest -> headed rest' ->
  (k ++ rest)%string = (k' ++ rest')%string -> k = k'.
Proof.
  induction k as [|c k IH]; intros [|c' k'] rest rest' Hk Hk' Hr Hr' Heq; simpl in Heq.
  - reflexivity.
  - exfalso. subst rest. apply headed_cons in Hr. apply plain_head in Hk'. tauto.
  - exfalso. subst rest'. apply headed_cons in Hr'. apply plain_head in Hk. tauto.
  - injection Heq as -> Heq. f_equal.
    simpl in Hk, Hk'. apply andb_true_iff in Hk, Hk'.
    apply (IH k' rest rest'); tauto.
Qed.

Lemma flattenItems_eq path : forall l i,
  (fix items (i : nat) (l : list JSON) {struct l} : FlatObject :=
     match l with
     | [] => []
     | x :: l' => flattenAt (path ++ "[" ++ Str.ofNat i ++ "]") x ++ items (S i) l'
     end) i l = flattenItems path i l.
Proof.
  induction l as [|x l IH]; intros i; [reflexivity|].
  simpl flattenItems. rewrite <- IH. reflexivity.
Qed.

Lemma flattenProps_eq path : forall m,
  (fix props (m : list (string * JSON)) {struct m} : FlatObject :=
     match m with
     | [] => []
     | (k, x) :: m' => flattenAt (path ++ "." ++ k) x ++ props m'
     end) m = flattenProps path m.
Proof.
  induction m as [|[k x] m IH]; [reflexivity|].
  simpl flattenProps. rewrite <- IH. reflexivity.
Qed.

Lemma flattenAt_array path x l :
  flattenAt path (JArray (x :: l)) = flattenItems path 0 (x :: l).
Proof. exact (flattenItems_eq path (x :: l) 0). Qed.

Lemma flattenAt_object path kv m :
  flattenAt path (JObject (kv :: m)) = flattenProps path (kv :: m).
Proof. exact (flattenProps_eq path (kv :: m)). Qed.

Lemma flattenAt_paths v : forall path p,
  In p (JMap.keys (flattenAt path v)) ->
  exists rest, p = (path ++ rest)%string /\ headed rest.
Proof.
  induction v as [| | | |l IH|m IH] using JSON_induction; intros path p;
    try (simpl; intros [<-|[]]; exists ""%string; split;
         [now rewrite append_nil_r|now left]).
  - destruct l as [|x l];
      [simpl; intros [<-|[]]; exists ""%string; split;
       [now rewrite append_nil_r|now left]|].
    rewrite flattenAt_array. generalize 0. revert IH. generalize (x :: l). clear x l.
    intros l. induction l as [|y l IHl]; intros Hall i; simpl; [intros []|].
    unfold JMap.keys in *. rewrite map_app, in_app_iff.
    inversion Hall as [|? ? Hy Hl]; subst. intros [Hin|Hin].
    + destruct (Hy _ _ Hin) as (rest & -> & Hrest).
      exists ("[" ++ Str.ofNat i ++ "]" ++ rest)%string. split.
      * repeat (rewrite append_assoc; cbn [append]). reflexivity.
      * right. eexists. right. reflexivity.
    + now apply (IHl Hl (S i)).
  - destruct m as [|kv m];
      [simpl; intros [<-|[]]; exists ""%string; split;
       [now rewrite append_nil_r|now left]|].
    rewrite flattenAt_object. revert IH. generalize (kv :: m). clear kv m.
    intros m. induction m as [|[k y] m IHm]; intros Hall; simpl; [intros []|].
    unfold JMap.keys in *. rewrite map_app, in_app_iff.
    inversion Hall as [|? ? Hy Hm]; subst. simpl in Hy. intros [Hin|Hin].
    + destruct (Hy _ _ Hin) as (rest & -> & Hrest).
      exists ("." ++ k ++ rest)%string. split.
      * repeat (rewrite append_assoc; cbn [append]). reflexivity.
      * right. eexists. left. reflexivity.
    + now apply (IHm Hm).
Qed.

Lemma array_leaf_paths k x l p :
  In p (leafPaths k (JArray (x :: l))) ->
  exists rest, p = (k ++ String "[" rest)%string.
Proof.
  unfold leafPaths. rewrite flattenAt_array. generalize 0 (x :: l). clear x l.
  intros i l. revert i. induction l as [|y l IH]; intros i; simpl; [intros []|].
  unfold JMap.keys in *. rewrite map_app, in_app_iff. intros [Hin|Hin].
  - destruct (flattenAt_paths _ _ _ Hin) as (rest & -> & _).
    exists (Str.ofNat i ++ "]" ++ rest)%string.
    repeat (rewrite append_assoc; cbn [append]). reflexivity.
  - now apply (IH (S i)).
Qed.

Lemma getPathValuePairs_paths o p :
  In p (JMap.keys (getPathValuePairs o)) ->
  exists k v rest, In (k, v) o /\ p = (k ++ rest)%string /\ headed rest.
Proof.
  unfold JMap.keys, getPathValuePairs. rewrite in_map_iff.
  intros ([p' w] & <- & Hin). apply in_flat_map in Hin.
  destruct Hin as ([k v] & Hkv & Hin).
  destruct (flattenAt_paths v k p') as (rest & -> & Hrest).
  { apply in_map_iff. now exists (p', w). }
  now exists k, v, rest.
Qed.

Lemma getPathValuePairs_under o k v p :
  In (k, v) o -> In p (leafPaths k v) -> In p (JMap.keys (getPathValuePairs o)).
Proof.
  unfold leafPaths, JMap.keys, getPathValuePairs. rewrite !in_map_iff.
  intros Hkv (e & <- & Hin). exists e. split; [reflexivity|].
  apply in_flat_map. now exists (k, v).
Qed.

Lemma plain_key (o : list (string * JSON)) k :
  forallb plainName (JMap.keys o) = true -> In k (JMap.keys o) ->
  plainName k = true.
Proof. intros Hall. rewrite forallb_forall in Hall. apply Hall. Qed.

(** An object without the property [k] has no leaf path under [k]. *)
Lemma no_path_without_property o k rest :
  forallb plainName (JMap.keys o) = true -> plainName k = true -> headed rest ->
  JMap.get k o = None -> ~ In (k ++ rest)%string (JMap.keys (getPathValuePairs o)).
Proof.
  intros Hplain Hk Hrest Hget Hin.
  apply getPathValuePairs_paths in Hin. destruct Hin as (k' & v & rest' & Hkv & Heq & Hrest').
  assert (Hk' : In k' (JMap.keys o)) by now apply (in_map fst) in Hkv.
  pose proof (head_unique k k' rest rest' Hk (plain_key _ _ Hplain Hk') Hrest Hrest' Heq).
  subst k'. apply JMapFacts.has_keys in Hk'. unfold JMap.has in Hk'.
  now rewrite Hget in Hk'.
Qed.

(** *** The reconciliation of the top-level arrays *)

Lemma reconcileArray_here sd parent k x l :
  JMap.get k sd = Some (JArray (x :: l)) ->
  reconcileArray (sd, parent) k
  = if hasNewItems (x :: l) (JMap.get k parent) && isExtensionCarrier k
    then (sd, JMap.delete k parent)
    else if negb (hasNewItems (x :: l) (JMap.get k parent))
         then (JMap.delete k sd, parent)
         else (sd, parent).
Proof. intros Hget. unfold reconcileArray, hasNewItems, isExtensionCarrier. now rewrite Hget. Qed.

Lemma reconcileArray_cases state key :
  (fst (reconcileArray state key) = fst state
   \/ fst (reconcileArray state key) = JMap.delete key (fst state))
  /\ (snd (reconcileArray state key) = snd state
      \/ snd (reconcileArray state key) = JMap.delete key (snd state)).
Proof.
  destruct state as [sd parent]. unfold reconcileArray.
  destruct (JMap.get key sd) as [[| | | |[|x l]|]|]; simpl; auto.
  match goal with |- context [if ?c then _ else _] => destruct c end; simpl; auto.
  match goal with |- context [if ?c then _ else _] => destruct c end; simpl; auto.
Qed.

Lemma fold_reconcile_other k ks : forall state,
  ~ In k ks ->
  JMap.get k (fst (fold_left reconcileArray ks state)) = JMap.get k (fst state)
  /\ JMap.get k (snd (fold_left reconcileArray ks state)) = JMap.get k (snd state).
Proof.
  induction ks as [|key ks IH]; intros state Hnotin; simpl; [auto|].
  destruct (IH (reconcileArray state key)) as [Hsd Hparent]; [intros Hin; apply Hnotin; now right|].
  rewrite Hsd, Hparent.
  assert (Hne : key <> k) by (intros ->; apply Hnotin; now left).
  destruct (reconcileArray_cases state key) as [[-> | ->] [-> | ->]];
    rewrite ?(JMapFacts.get_delete_other key k) by assumption; auto.
Qed.

Lemma fold_reconcile_sub ks : forall state e,
  (In e (fst (fold_left reconcileArray ks state)) -> In e (fst state))
  /\ (In e (snd (fold_left reconcileArray ks state)) -> In e (snd state)).
Proof.
  induction ks as [|key ks IH]; intros state e; simpl; [auto|].
  destruct (IH (reconcileArray state key) e) as [Hsd Hparent].
  destruct (reconcileArray_cases state key) as [[Es | Es] [Ep | Ep]];
    rewrite Es in Hsd; rewrite Ep in Hparent; split; intros Hin;
    try (apply Hsd in Hin); try (apply Hparent in Hin);
    try (apply JMapFacts.delete_In in Hin); tauto.
Qed.

(** What becomes of the array [k] of the resource copy. *)
Lemma fold_reconcile_at sd0 parent0 k x l :
  NoDup (JMap.keys sd0) ->
  JMap.get k sd0 = Some (JArray (x :: l)) ->
  let final := fold_left reconcileArray (JMap.keys sd0) (sd0, parent0) in
  let new := hasNewItems (x :: l) (JMap.get k parent0) in
  (new = false -> JMap.get k (fst final) = None)
  /\ (new = true -> isExtensionCarrier k = true ->
      JMap.get k (fst final) = Some (JArray (x :: l)) /\ JMap.get k (snd final) = None)
  /\ (new = true -> isExtensionCarrier k = false ->
      JMap.get k (fst final) = Some (JArray (x :: l))
      /\ JMap.get k (snd final) = JMap.get k parent0).
Proof.
  intros Hnd Hget final new.
  assert (Hin : In k (JMap.keys sd0)).
  { apply JMapFacts.has_keys. unfold JMap.has. now rewrite Hget. }
  destruct (in_split _ _ Hin) as (ks1 & ks2 & Hks).
  rewrite Hks in Hnd. apply NoDup_remove_2 in Hnd.
  assert (H1 : ~ In k ks1) by (intros Hk; apply Hnd, in_or_app; now left).
  assert (H2 : ~ In k ks2) by (intros Hk; apply Hnd, in_or_app; now right).
  subst final. rewrite Hks, fold_left_app. cbn [fold_left].
  destruct (fold_reconcile_other k ks1 (sd0, parent0) H1) as [Hsd1 Hparent1].
  destruct (fold_left reconcileArray ks1 (sd0, parent0)) as [sd1 parent1].
  simpl in Hsd1, Hparent1.
  pose proof (reconcileArray_here sd1 parent1 k x l) as Hstep.
  rewrite Hsd1, Hparent1 in Hstep. specialize (Hstep Hget). fold new in Hstep.
  destruct (fold_reconcile_other k ks2 (reconcileArray (sd1, parent1) k) H2) as [Hsd2 Hparent2].
  rewrite Hsd2, Hparent2, Hstep.
  split; [|split].
  - intros Hnew. rewrite Hnew. simpl. apply JMapFacts.get_delete_same.
  - intros Hnew Hext. rewrite Hnew, Hext. simpl.
    split; [now rewrite Hsd1|apply JMapFacts.get_delete_same].
  - intros Hnew Hext. rewrite Hnew, Hext. simpl.
    split; [now rewrite Hsd1|assumption].
Qed.

(** *** The copies are plain objects when the definitions are *)

Lemma plainObject_sub (o o' : list (string * JSON)) :
  (forall e, In e o' -> In e o) -> forallb plainName (JMap.keys o) = true ->
  forallb plainName (JMap.keys o') = true.
Proof.
  intros Hsub Hall. rewrite forallb_forall in *. intros k Hk.
  apply in_map_iff in Hk. destruct Hk as (e & <- & He).
  apply Hall. apply in_map. now apply Hsub.
Qed.

Lemma plainObject_delete k o : plainObject o -> plainObject (JMap.delete k o).
Proof.
  intros [Hnd Hall]. split; [now apply JMapFacts.filter_NoDup|].
  apply (plainObject_sub o); [|assumption].
  intros e He. now apply JMapFacts.delete_In in He.
Qed.

Lemma plainObject_deleteAll props : forall o, plainObject o -> plainObject (deleteAll props o).
Proof.
  unfold deleteAll. induction props as [|p props IH]; intros o Ho; simpl; [assumption|].
  now apply IH, plainObject_delete.
Qed.

Lemma cleaned_plain input :
  plainObject input ->
  (forall parent, fishForFHIR (JMap.get "baseDefinition" input) = Some parent ->
                  plainObject parent) ->
  plainObject (sdClean input) /\ plainObject (parentClean input).
Proof.
  intros Hin Hparent. unfold sdClean, parentClean, cleaned.
  destruct (fishForFHIR (JMap.get "baseDefinition" input)) as [parent|] eqn:E.
  - specialize (Hparent parent eq_refl).
    destruct (Js.strictEq _ _); cbv beta iota zeta delta [fst snd]; split;
      repeat (apply plainObject_deleteAll || apply plainObject_delete); assumption.
  - destruct (Js.strictEq _ _); cbv beta iota zeta delta [fst snd]; split;
      repeat (apply plainObject_deleteAll || apply plainObject_delete); assumption.
Qed.

Lemma prepared_eq input :
  prepared input
  = (fold_left reconcileArray (JMap.keys (sdClean input)) (sdClean input, parentClean input),
     snd (cleaned input)).
Proof.
  unfold prepared, sdClean, parentClean.
  destruct (cleaned input) as [[sd parent] log]. simpl.
  now destruct (fold_left reconcileArray (JMap.keys sd) (sd, parent)).
Qed.

Lemma copies_plain input :
  plainObject (sdClean input) -> plainObject (parentClean input) ->
  forallb plainName (JMap.keys (sdCopy input)) = true
  /\ forallb plainName (JMap.keys (parentCopy input)) = true.
Proof.
  intros [_ Hsd] [_ Hparent]. unfold sdCopy, parentCopy. rewrite prepared_eq. simpl.
  split.
  - apply (plainObject_sub (sdClean input)); [|assumption].
    intros e. apply (fold_reconcile_sub _ (sdClean input, parentClean input) e).
  - apply (plainObject_sub (parentClean input)); [|assumption].
    intros e. apply (fold_reconcile_sub _ (sdClean input, parentClean input) e).
Qed.

Lemma array_leaf_not_plain k x l p :
  In p (leafPaths k (JArray (x :: l))) -> plainName p = false.
Proof.
  intros Hin. destruct (array_leaf_paths _ _ _ _ Hin) as (rest & ->).
  rewrite plainName_app. simpl. apply andb_false_r.
Qed.

Lemma keys_nth_error (flat : FlatObject) p :
  In p (JMap.keys flat) -> exists i v, nth_error flat i = Some (p, v).
Proof.
  unfold JMap.keys. rewrite in_map_iff. intros ([p' v] & <- & Hin).
  apply In_nth_error in Hin. destruct Hin as [i Hi]. now exists i, v.
Qed.

Lemma nth_error_keys (flat : FlatObject) i p v :
  nth_error flat i = Some (p, v) -> In p (JMap.keys flat).
Proof. intros Hnth. apply nth_error_In in Hnth. now apply (in_map fst) in Hnth. Qed.

(** C4, as the code has it.  For a non-empty top-level array [k] of the
    resource copy, compared with the array [k] of the parent copy (the
    parent once the ignored and the cleared properties are removed): when
    no item is new, no statement is emitted for a leaf under [k]; when
    some item is new and [k] is [extension] or [modifierExtension], every
    leaf of the whole array is looked at and a statement is emitted for
    each leaf whose value resolves to a non-empty one; when some item is
    new and [k] is another array, both copies keep their array and a
    statement is emitted under [k] only for a leaf that the parent copy
    lacks or holds with another value. *)
Theorem arrays_are_reconciled (input : list (string * JSON)) (config : Configuration)
        (k : string) (x : JSON) (l : list JSON) :
  plainObject input ->
  (forall parent, fishForFHIR (JMap.get "baseDefinition" input) = Some parent ->
                  plainObject parent) ->
  JMap.get k (sdClean input) = Some (JArray (x :: l)) ->
  let rules := fst (processStructureDefinition input config) in
  let new := hasNewItems (x :: l) (JMap.get k (parentClean input)) in
  (new = false ->
   forall p, In p (leafPaths k (JArray (x :: l))) -> ~ emittedFor rules p)
  /\ (new = true -> isExtensionCarrier k = true ->
      forall p, In p (leafPaths k (JArray (x :: l))) ->
        exists i v,
          nth_error (flatSD input) i = Some (p, v)
          /\ (isFSHValueEmpty (getFSHValue i (flatSD input) "StructureDefinition") = false ->
              emittedFor rules p))
  /\ (new = true -> isExtensionCarrier k = false ->
      JMap.get k (sdCopy input) = Some (JArray (x :: l))
      /\ JMap.get k (parentCopy input) = JMap.get k (parentClean input)
      /\ forall p, In p (leafPaths k (JArray (x :: l))) -> emittedFor rules p ->
           Js.isNullish (JMap.get p (flatParent input)) = true
           \/ Js.isEqualOpt (JMap.get p (flatSD input)) (JMap.get p (flatParent input))
              = false).
Proof.
  intros Hinput Hparent Hget rules new.
  destruct (cleaned_plain input Hinput Hparent) as [Hsd Hpar].
  destruct (copies_plain input Hsd Hpar) as [Hsdc Hparc].
  assert (Hk : plainName k = true).
  { apply (plain_key (sdClean input)); [apply Hsd|].
    apply JMapFacts.has_keys. unfold JMap.has. now rewrite Hget. }
  pose proof (fold_reconcile_at (sdClean input) (parentClean input) k x l (proj1 Hsd) Hget)
    as Hat.
  cbv zeta in Hat. fold new in Hat.
  assert (Hcopies : fold_left reconcileArray (JMap.keys (sdClean input))
                              (sdClean input, parentClean input)
                    = (sdCopy input, parentCopy input)).
  { unfold sdCopy, parentCopy. rewrite prepared_eq. simpl.
    now destruct (fold_left reconcileArray _ _). }
  rewrite Hcopies in Hat. simpl in Hat. destruct Hat as (Hnone & Hext & Hother).
  split; [|split].
  - intros Hnew p Hp Hem. specialize (Hnone Hnew).
    apply processStructureDefinition_emitted in Hem.
    destruct Hem as (i & v & Hnth & _).
    apply nth_error_keys in Hnth.
    destruct (flattenAt_paths _ _ _ Hp) as (rest & -> & Hrest).
    revert Hnth. now apply no_path_without_property.
  - intros Hnew Hcarrier p Hp. destruct (Hext Hnew Hcarrier) as [Hsdk Hpark].
    destruct (keys_nth_error (flatSD input) p) as (i & v & Hnth).
    { apply (getPathValuePairs_under _ k (JArray (x :: l))); [|assumption].
      now apply JMapFacts.get_Some_In. }
    exists i, v. split; [assumption|]. intros Hne.
    apply processStructureDefinition_emitted. exists i, v.
    split; [assumption|]. split; [|split; [|assumption]].
    + unfold differs.
      destruct (flattenAt_paths _ _ _ Hp) as (rest & -> & Hrest).
      rewrite (JMapFacts.get_None _ (flatParent input)); [reflexivity|].
      now apply no_path_without_property.
    + destruct (String.eqb_spec p "url") as [->|]; [|reflexivity].
      apply array_leaf_not_plain in Hp. discriminate Hp.
  - intros Hnew Hcarrier. destruct (Hother Hnew Hcarrier) as [Hsdk Hpark].
    split; [assumption|]. split; [assumption|].
    intros p Hp Hem. apply processStructureDefinition_emitted in Hem.
    destruct Hem as (i & v & _ & Hd & _).
    apply differs_iff in Hd. destruct Hd as [Hd|[Hd|[-> _]]]; [now left|now right|].
    apply array_leaf_not_plain in Hp. discriminate Hp.
Qed.

(** *** Index reconciliation in [process] *)

Lemma replaceFirst_cons pat rep c s :
  prefix pat (String c s) = false ->
  Str.replaceFirst pat rep (String c s) = String c (Str.replaceFirst pat rep s).
Proof.
  intros Hp.
  change (Str.replaceFirst pat rep (String c s))
    with (if prefix pat (String c s)
          then (rep ++ Str.drop (length pat) (String c s))%string
          else String c (Str.replaceFirst pat rep s)).
  now rewrite Hp.
Qed.

Lemma indexedAt_Some what s ds :
  Js.indexedAt what s = Some ds ->
  ds <> ""%string /\ allDigits ds = true
  /\ exists post, s = ((what ++ "[" ++ ds ++ "]") ++ post)%string.
Proof.
  unfold Js.indexedAt.
  destruct (prefix (what ++ "[") s) eqn:Hp; [|discriminate].
  apply prefix_inv in Hp. destruct Hp as [r ->].
  replace (length what + 1) with (length (what ++ "[")%string)
    by (rewrite length_app; reflexivity).
  rewrite drop_app.
  destruct (Js.spanDigits r) as [ds' rest] eqn:Hspan.
  destruct (String.eqb_spec ds' "") as [|Hne]; [discriminate|].
  destruct (prefix "]" rest) eqn:Hclose; [|discriminate].
  intros [= <-].
  apply spanDigits_spec in Hspan. destruct Hspan as (-> & Hall & _).
  apply prefix_inv in Hclose. destruct Hclose as [post ->].
  split; [assumption|]. split; [assumption|]. exists post.
  repeat (rewrite append_assoc; cbn [append]). reflexivity.
Qed.

Lemma indexedAt_here what ds post :
  ds <> ""%string -> allDigits ds = true ->
  Js.indexedAt what ((what ++ "[" ++ ds ++ "]") ++ post) = Some ds.
Proof.
  intros Hne Hall. unfold Js.indexedAt.
  replace ((what ++ "[" ++ ds ++ "]") ++ post)%string
    with ((what ++ "[") ++ (ds ++ String "]" post))%string
    by (repeat (rewrite append_assoc; cbn [append]); reflexivity).
  rewrite prefix_app.
  replace (length what + 1) with (length (what ++ "[")%string)
    by (rewrite length_app; reflexivity).
  rewrite drop_app, (spanDigits_app ds (String "]" post)) by (assumption || reflexivity).
  destruct (String.eqb_spec ds ""); [contradiction|].
  simpl. now destruct post.
Qed.

(** The leftmost [what[n]] of a path, and what [replace] does with it. *)
Lemma matchIndexed_split what : forall key ds,
  Js.matchIndexed what key = Some ds ->
  exists pre post,
    key = (pre ++ (what ++ "[" ++ ds ++ "]") ++ post)%string
    /\ forall rep,
         Str.replaceFirst (what ++ "[" ++ ds ++ "]") rep key = (pre ++ rep ++ post)%string.
Proof.
  assert (Hhere : forall key ds, Js.indexedAt what key = Some ds ->
            exists pre post,
              key = (pre ++ (what ++ "[" ++ ds ++ "]") ++ post)%string
              /\ forall rep,
                   Str.replaceFirst (what ++ "[" ++ ds ++ "]") rep key
                   = (pre ++ rep ++ post)%string).
  { intros key ds Hat. apply indexedAt_Some in Hat.
    destruct Hat as (_ & _ & post & ->). exists ""%string, post.
    split; [reflexivity|]. intros rep.
    exact (replaceFirst_here (what ++ "[" ++ ds ++ "]") rep post). }
  induction key as [|c key IH]; intros ds Hm; cbn [Js.matchIndexed] in Hm.
  - destruct (Js.indexedAt what "") as [ds'|] eqn:Hat; [|discriminate].
    injection Hm as ->. now apply Hhere.
  - destruct (Js.indexedAt what (String c key)) as [ds'|] eqn:Hat.
    + injection Hm as ->. now apply Hhere.
    + destruct (IH ds Hm) as (pre & post & Hkey & Hrep).
      exists (String c pre), post. split; [cbn [append]; f_equal; exact Hkey|].
      intros rep. rewrite replaceFirst_cons; [cbn [append]; f_equal; apply Hrep|].
      destruct (prefix (what ++ "[" ++ ds ++ "]") (String c key)) eqn:Hp; [|reflexivity].
      exfalso. apply prefix_inv in Hp. destruct Hp as [r Hr].
      assert (Hds : ds <> ""%string /\ allDigits ds = true).
      { clear - Hm. revert Hm. induction key as [|d key IHk];
          intros Hm; cbn [Js.matchIndexed] in Hm.
        - destruct (Js.indexedAt what "") eqn:E; [|discriminate].
          injection Hm as ->. apply indexedAt_Some in E. tauto.
        - destruct (Js.indexedAt what (String d key)) eqn:E.
          + injection Hm as ->. apply indexedAt_Some in E. tauto.
          + now apply IHk. }
      rewrite Hr, indexedAt_here in Hat by tauto. discriminate Hat.
Qed.

Lemma find_first {A} (f : A -> bool) before x after :
  Forall (fun e => f e = false) before -> f x = true ->
  find f (before ++ x :: after) = Some x.
Proof.
  induction 1 as [|e before He _ IH]; simpl; intros Hx.
  - now rewrite Hx.
  - rewrite He. now apply IH.
Qed.

Lemma matchesId_iff differentialId el :
  matchesId differentialId el = true <->
  idEq (id el) differentialId = true
  \/ exists s n, id el = Some s /\ Str.indexOf "[x]:" s = Some (S n)
                 /\ idEq (Some (elIdAltSyntax s)) differentialId = true.
Proof.
  unfold matchesId. destruct (idEq (id el) differentialId) eqn:E; [intuition|].
  split.
  - destruct (id el) as [s|]; [|discriminate].
    destruct (Str.indexOf "[x]:" s) as [[|n]|] eqn:Ei; try discriminate.
    intros Halt. right. now exists s, n.
  - intros [Hd|(s & n & Hs & Hi & Halt)]; [discriminate|].
    now rewrite Hs, Hi.
Qed.

Lemma findIndexFrom_first {A} (f : A -> Res bool) (l : list A) : forall j start x,
  nth_error l j = Some x ->
  f x = Ok true ->
  (forall j' x', j' < j -> nth_error l j' = Some x' -> f x' = Ok false) ->
  Js.findIndexFrom f start l = Ok (start + Z.of_nat j)%Z.
Proof.
  induction l as [|x0 l IH]; intros j start x Hnth Hx Hbefore.
  - now destruct j.
  - destruct j as [|j]; cbn [nth_error] in Hnth; cbn [Js.findIndexFrom].
    + injection Hnth as ->. rewrite Hx. cbn [bind]. f_equal. lia.
    + rewrite (Hbefore 0 x0) by (lia || reflexivity). cbn [bind].
      rewrite (IH j (start + 1)%Z x Hnth Hx); [f_equal; lia|].
      intros j' x' Hlt Hn. apply (Hbefore (S j') x'); [lia|assumption].
Qed.

Lemma fixIndex_found input structDef what newIndexOf key digits diffEntry n rule log :
  Js.matchIndexed what key = Some digits ->
  hasSnapshot structDef = true ->
  Js.elementAt (JMap.get what (toJSON input)) (Js.parseInt digits) = Ok diffEntry ->
  newIndexOf diffEntry (findMatchingSnapshot (JMap.get "id" (toJSON input)) structDef)
  = Ok (Some n) ->
  fixIndex input structDef what newIndexOf key (rule, log)
  = Ok (setCaretPath
          (Str.replaceFirst (what ++ "[" ++ digits ++ "]") (what ++ "[" ++ Str.ofZ n ++ "]") key)
          rule,
        log).
Proof.
  intros Hm Hsnap Hdiff Hnew. unfold fixIndex.
  rewrite Hm, Hsnap, Hdiff. cbn [bind]. now rewrite Hnew.
Qed.

Lemma fixIndex_no_index input structDef what newIndexOf key state :
  Js.matchIndexed what key = None ->
  fixIndex input structDef what newIndexOf key state = Ok state.
Proof. intros Hm. unfold fixIndex. destruct state. now rewrite Hm. Qed.


Lemma forEachRes_grows input structDef rem l : forall state rules log,
  forEachRes (processEntry input structDef rem) l state = Ok (rules, log) ->
  incl (fst state) rules.
Proof.
  induction l as [|e l IH]; cbn [forEachRes]; intros state rules log.
  - intros [= ->]. apply incl_refl.
  - rewrite processEntry_appends.
    destruct (processEntry input structDef rem ([], []) e) as [c|]; cbn [bind];
      [|discriminate].
    intros Hrest. apply IH in Hrest. cbn [fst] in Hrest.
    intros r Hr. apply Hrest, in_or_app. now left.
Qed.

Lemma forEachRes_contains input structDef rem l e c : forall state rules log,
  forEachRes (processEntry input structDef rem) l state = Ok (rules, log) ->
  In e l ->
  processEntry input structDef rem ([], []) e = Ok c ->
  incl (fst c) rules.
Proof.
  induction l as [|e0 l IH]; cbn [forEachRes]; intros state rules log Hrun Hin Hc;
    [destruct Hin|].
  rewrite processEntry_appends in Hrun.
  destruct Hin as [->|Hin].
  - rewrite Hc in Hrun. cbn [bind] in Hrun. apply forEachRes_grows in Hrun.
    cbn [fst] in Hrun. intros r Hr. apply Hrun, in_or_app. now right.
  - destruct (processEntry input structDef rem ([], []) e0) as [c0|]; cbn [bind] in Hrun;
      [|discriminate].
    now apply (IH _ _ _ Hrun).
Qed.


(** Without a snapshot the index is left as it is, the statement gets
    the warning comment and a warning is logged. *)
Lemma index_kept_without_snapshot input structDef what newIndexOf key digits rule log :
  hasSnapshot structDef = false ->
  Js.matchIndexed what key = Some digits ->
  fixIndex input structDef what newIndexOf key (rule, log)
  = Ok (setComment (indexComment what (what ++ "[" ++ digits ++ "]")) rule,
        log ++ [indexWarning what (name structDef) (getPath input) key]).
Proof.
  intros Hno Hm. unfold fixIndex. now rewrite Hm, Hno.
Qed.
(** *** More on the loop of [process] *)

(** A loop whose every entry goes through is the concatenation of what
    the entries add. *)
Lemma forEachRes_total input structDef rem
      (g : nat * (string * JSON) -> list ExportableCaretValueRule * Log) l :
  (forall e, In e l -> processEntry input structDef rem ([], []) e = Ok (g e)) ->
  forall state,
    forEachRes (processEntry input structDef rem) l state
    = Ok (fst state ++ flat_map (fun e => fst (g e)) l,
          snd state ++ flat_map (fun e => snd (g e)) l).
Proof.
  induction l as [|e l IH]; intros Hall state; cbn [forEachRes flat_map].
  - rewrite !app_nil_r. now destruct state.
  - rewrite processEntry_appends, (Hall e (or_introl eq_refl)). cbn [bind].
    rewrite IH by (intros e' He'; apply Hall; now right).
    cbn [fst snd]. now rewrite !app_assoc.
Qed.

Lemma flat_map_valued {A B} (empty : A -> bool) (f : A -> B) (l : list A) :
  flat_map (fun e => if empty e then [] else [f e]) l
  = map f (filter (fun e => negb (empty e)) l).
Proof.
  induction l as [|e l IH]; simpl; [reflexivity|].
  destruct (empty e); simpl; now rewrite IH.
Qed.

(** X7: when the structure definition has no snapshot (none, or one
    without elements), [process] never throws; it returns one statement
    per remaining entry with a non-empty value, in document order, with
    the path of the entry unchanged as caret path and the warning comment
    exactly on the paths with a constraint or mapping index (the mapping
    comment where a path has both); it logs an error per empty value and a
    warning per index. *)
Theorem process_without_snapshot
        (input : ProcessableElementDefinition) (structDef : ProcessableStructureDefinition) :
  hasSnapshot structDef = false ->
  process input structDef
  = Ok (map (fun e =>
               {| path := getPath input;
                  caretPath := fst (snd e);
                  value := getFSHValue (fst e) (remainingEntries input) "ElementDefinition";
                  fshComment := commentWithoutSnapshot (fst (snd e));
                  isCodeCaretRule := false;
                  pathArray := [] |})
            (valued "ElementDefinition" (remainingEntries input)),
        flat_map (fun e =>
                    if isFSHValueEmpty
                         (getFSHValue (fst e) (remainingEntries input) "ElementDefinition")
                    then [emptyElementValue structDef input (fst (snd e))]
                    else warningsWithoutSnapshot structDef input (fst (snd e)))
                 (indexed (remainingEntries input))).
Proof.
  intros Hno. unfold process.
  rewrite (forEachRes_total input structDef (remainingEntries input)
             (fun e =>
                if isFSHValueEmpty
                     (getFSHValue (fst e) (remainingEntries input) "ElementDefinition")
                then ([], [emptyElementValue structDef input (fst (snd e))])
                else ([{| path := getPath input;
                          caretPath := fst (snd e);
                          value := getFSHValue (fst e) (remainingEntries input)
                                               "ElementDefinition";
                          fshComment := commentWithoutSnapshot (fst (snd e));
                          isCodeCaretRule := false;
                          pathArray := [] |}],
                      warningsWithoutSnapshot structDef input (fst (snd e))))).
  - cbn [fst snd app]. f_equal. f_equal.
    + unfold valued. rewrite <- flat_map_valued. apply flat_map_ext.
      intros e. now destruct (isFSHValueEmpty _).
    + apply flat_map_ext. intros e. now destruct (isFSHValueEmpty _).
  - intros [i [key v]] _. cbn [fst snd].
    destruct (isFSHValueEmpty (getFSHValue i (remainingEntries input) "ElementDefinition"))
      eqn:Hempty.
    + now rewrite processEntry_empty.
    + unfold processEntry. cbv zeta. cbn [value newRule]. rewrite Hempty.
      unfold commentWithoutSnapshot, warningsWithoutSnapshot.
      destruct (Js.matchIndexed "constraint" key) as [dc|] eqn:Hc;
        destruct (Js.matchIndexed "mapping" key) as [dm|] eqn:Hm.
      * rewrite (index_kept_without_snapshot _ _ _ _ _ _ _ _ Hno Hc). cbn [bind].
        rewrite (index_kept_without_snapshot _ _ _ _ _ _ _ _ Hno Hm). reflexivity.
      * rewrite (index_kept_without_snapshot _ _ _ _ _ _ _ _ Hno Hc). cbn [bind].
        rewrite (fixIndex_no_index _ _ _ _ _ _ Hm). reflexivity.
      * rewrite (fixIndex_no_index _ _ _ _ _ _ Hc). cbn [bind].
        rewrite (index_kept_without_snapshot _ _ _ _ _ _ _ _ Hno Hm). reflexivity.
      * rewrite (fixIndex_no_index _ _ _ _ _ _ Hc). cbn [bind].
        rewrite (fixIndex_no_index _ _ _ _ _ _ Hm). reflexivity.
Qed.




(** *** The index of a mapping *)

Lemma mapping_entry_follows_snapshot
      (input : ProcessableElementDefinition) (structDef : ProcessableStructureDefinition)
      (rem : FlatObject) (state : list ExportableCaretValueRule * Log)
      (i : nat) (key : string) (v : JSON) (digits : string)
      (before after : list SnapshotElement) (el : SnapshotElement)
      (ms : list JSON) (j : nat) (diffMapping : option JSON) (m : JSON)
      (pre post : string) :
  snapshot_element structDef = Some (before ++ el :: after) ->
  Forall (fun e => matchesId (JMap.get "id" (toJSON input)) e = false) before ->
  matchesId (JMap.get "id" (toJSON input)) el = true ->
  isFSHValueEmpty (getFSHValue i rem "ElementDefinition") = false ->
  Js.matchIndexed "constraint" key = None ->
  Js.matchIndexed "mapping" key = Some digits ->
  Js.elementAt (JMap.get "mapping" (toJSON input)) (Js.parseInt digits) = Ok diffMapping ->
  mapping el = Some ms ->
  nth_error ms j = Some m ->
  Js.isEqualOpt (Some m) diffMapping = true ->
  (forall j' m', j' < j -> nth_error ms j' = Some m' ->
                 Js.isEqualOpt (Some m') diffMapping = false) ->
  (forall rep,
      Str.replaceFirst ("mapping" ++ "[" ++ digits ++ "]") rep key
      = (pre ++ rep ++ post)%string) ->
  processEntry input structDef rem state (i, (key, v))
  = Ok (fst state
        ++ [newRule (getPath input)
                    (pre ++ ("mapping[" ++ Str.ofNat j ++ "]") ++ post)
                    (getFSHValue i rem "ElementDefinition")],
        snd state).
Proof.
  intros Hsnap Hbefore Hel Hne Hc Hm Hdiff Hms Hnth Heq Hfirst Hrep.
  assert (Hhas : hasSnapshot structDef = true).
  { unfold hasSnapshot. rewrite Hsnap. now destruct before. }
  assert (Hfind : findMatchingSnapshot (JMap.get "id" (toJSON input)) structDef = Some el).
  { unfold findMatchingSnapshot. rewrite Hsnap. now apply find_first. }
  assert (Hindex : mappingIndex diffMapping
                     (findMatchingSnapshot (JMap.get "id" (toJSON input)) structDef)
                   = Ok (Some (Z.of_nat j))).
  { rewrite Hfind. unfold mappingIndex, Js.findIndex. rewrite Hms.
    rewrite (findIndexFrom_first _ ms j 0%Z m Hnth).
    - reflexivity.
    - now rewrite Heq.
    - intros j' m' Hlt Hn. now rewrite (Hfirst j' m' Hlt Hn). }
  destruct state as [rules log]. unfold processEntry. cbv zeta.
  cbn [value newRule]. rewrite Hne.
  rewrite (fixIndex_no_index _ _ _ _ _ _ Hc). cbn [bind].
  rewrite (fixIndex_found _ _ _ _ _ _ _ _ _ _ Hm Hhas Hdiff Hindex). cbn [bind fst snd].
  rewrite Hrep. reflexivity.
Qed.

(** X9, for a path that has a mapping index and no constraint index:
    with a snapshot at hand, let [el] be the first snapshot element
    whose id is the id of the differential element, as it stands or in
    the alternate syntax of choice slices, and let the mapping of the
    differential that the path names be read without a throw and be
    equal, as a whole and whatever the order of its properties, to the
    mapping at index [j] of [el] and to none before it.  Then the
    statement built for the path has the index [j] in place of the
    differential one and no comment, nothing is logged for it, and the
    statement is among those [process] returns. *)
Theorem mapping_index_follows_snapshot
        (input : ProcessableElementDefinition) (structDef : ProcessableStructureDefinition)
        (i : nat) (key : string) (v : JSON) (digits : string)
        (before after : list SnapshotElement) (el : SnapshotElement)
        (ms : list JSON) (j : nat) (diffMapping : option JSON) (m : JSON) :
  snapshot_element structDef = Some (before ++ el :: after) ->
  Forall (fun e => matchesId (JMap.get "id" (toJSON input)) e = false) before ->
  (idEq (id el) (JMap.get "id" (toJSON input)) = true
   \/ exists s n, id el = Some s /\ Str.indexOf "[x]:" s = Some (S n)
                  /\ idEq (Some (elIdAltSyntax s)) (JMap.get "id" (toJSON input)) = true) ->
  nth_error (remainingEntries input) i = Some (key, v) ->
  isFSHValueEmpty (getFSHValue i (remainingEntries input) "ElementDefinition") = false ->
  Js.matchIndexed "constraint" key = None ->
  Js.matchIndexed "mapping" key = Some digits ->
  Js.elementAt (JMap.get "mapping" (toJSON input)) (Js.parseInt digits) = Ok diffMapping ->
  mapping el = Some ms ->
  nth_error ms j = Some m ->
  Js.isEqualOpt (Some m) diffMapping = true ->
  (forall j' m', j' < j -> nth_error ms j' = Some m' ->
                 Js.isEqualOpt (Some m') diffMapping = false) ->
  exists pre post,
    key = (pre ++ ("mapping[" ++ digits ++ "]") ++ post)%string
    /\ (forall state,
          processEntry input structDef (remainingEntries input) state (i, (key, v))
          = Ok (fst state
                ++ [newRule (getPath input)
                            (pre ++ ("mapping[" ++ Str.ofNat j ++ "]") ++ post)
                            (getFSHValue i (remainingEntries input) "ElementDefinition")],
                snd state))
    /\ (forall rules log,
          process input structDef = Ok (rules, log) ->
          In (newRule (getPath input)
                      (pre ++ ("mapping[" ++ Str.ofNat j ++ "]") ++ post)
                      (getFSHValue i (remainingEntries input) "ElementDefinition"))
             rules).
Proof.
  intros Hsnap Hbefore Hel Hentry Hne Hc Hm Hdiff Hms Hnth Heq Hfirst.
  destruct (matchIndexed_split "mapping" key digits Hm) as (pre & post & Hsplit & Hrep).
  exists pre, post. split; [exact Hsplit|].
  apply matchesId_iff in Hel.
  assert (Hone : forall state,
             processEntry input structDef (remainingEntries input) state (i, (key, v))
             = Ok (fst state
                   ++ [newRule (getPath input)
                               (pre ++ ("mapping[" ++ Str.ofNat j ++ "]") ++ post)
                               (getFSHValue i (remainingEntries input) "ElementDefinition")],
                   snd state)).
  { intros state.
    now apply (mapping_entry_follows_snapshot input structDef (remainingEntries input)
                 state i key v digits before after el ms j diffMapping m pre post). }
  split; [exact Hone|].
  intros rules log Hrun. unfold process in Hrun.
  pose proof (forEachRes_contains input structDef _ _ (i, (key, v)) _ _ _ _ Hrun
                (proj2 (indexed_In _ _ _) Hentry) (Hone ([], []))) as Hincl.
  apply Hincl. cbn [fst app]. now left.
Qed.

(** *** When [process] throws *)

Lemma forEachRes_throws input structDef rem l e :
  In e l ->
  (forall state, processEntry input structDef rem state e = TypeError) ->
  forall state, forEachRes (processEntry input structDef rem) l state = TypeError.
Proof.
  intros Hin Hthrow. induction l as [|e0 l IH]; [destruct Hin|].
  intros state. cbn [forEachRes]. destruct Hin as [->|Hin].
  - now rewrite Hthrow.
  - destruct (processEntry input structDef rem state e0); cbn [bind]; [|reflexivity].
    now apply IH.
Qed.

(** X10: with a snapshot that has elements, [process] throws as soon as
    a remaining entry with a non-empty value has a path with a constraint
    index while the element has no [constraint] property (or a null
    one): the differential constraint is read off [undefined].  The same
    holds for a path with a mapping index and no constraint index on an
    element without [mapping]. *)
Theorem process_throws_without_the_array
        (input : ProcessableElementDefinition) (structDef : ProcessableStructureDefinition)
        (i : nat) (key : string) (v : JSON) (what digits : string) :
  hasSnapshot structDef = true ->
  nth_error (remainingEntries input) i = Some (key, v) ->
  isFSHValueEmpty (getFSHValue i (remainingEntries input) "ElementDefinition") = false ->
  Js.isNullish (JMap.get what (toJSON input)) = true ->
  Js.matchIndexed what key = Some digits ->
  what = "constraint"%string
  \/ (what = "mapping"%string /\ Js.matchIndexed "constraint" key = None) ->
  process input structDef = TypeError.
Proof.
  intros Hhas Hentry Hne Hnull Hmatch Hwhat. unfold process.
  apply (forEachRes_throws input structDef _ _ (i, (key, v)));
    [now apply indexed_In|].
  intros [rules log]. unfold processEntry. cbv zeta. cbn [value newRule]. rewrite Hne.
  assert (Hthrow : forall newIndexOf state,
             fixIndex input structDef what newIndexOf key state = TypeError).
  { intros newIndexOf [rule log']. unfold fixIndex. rewrite Hmatch, Hhas.
    destruct (JMap.get what (toJSON input)) as [[]|]; try discriminate; reflexivity. }
  destruct Hwhat as [->|[-> Hc]].
  - now rewrite Hthrow.
  - rewrite (fixIndex_no_index _ _ _ _ _ _ Hc). cbn [bind]. now rewrite Hthrow.
Qed.

(** *** A snapshot without the element, or without its array *)

Lemma fixIndex_not_found input structDef what newIndexOf key digits diffEntry rule log :
  Js.matchIndexed what key = Some digits ->
  hasSnapshot structDef = true ->
  Js.elementAt (JMap.get what (toJSON input)) (Js.parseInt digits) = Ok diffEntry ->
  newIndexOf diffEntry (findMatchingSnapshot (JMap.get "id" (toJSON input)) structDef)
  = Ok None ->
  fixIndex input structDef what newIndexOf key (rule, log)
  = Ok (setComment (indexComment what (what ++ "[" ++ digits ++ "]")) rule,
        log ++ [indexWarning what (name structDef) (getPath input) key]).
Proof.
  intros Hm Hsnap Hdiff Hnew. unfold fixIndex.
  rewrite Hm, Hsnap, Hdiff. cbn [bind]. now rewrite Hnew.
Qed.

(** X21, for a path that has one of the two indices and not the other,
    on an element whose array of that name is read without a throw: with
    a snapshot that has elements, when no snapshot element matches the
    id of the differential element, or the one that does has no
    constraint array (no mapping array, for a mapping index), the
    statement for an entry with a non-empty value keeps the
    differential index in its caret path, gets the warning comment, and
    the warning is logged. *)
Theorem index_kept_when_the_snapshot_lacks_it
        (input : ProcessableElementDefinition) (structDef : ProcessableStructureDefinition)
        (rem : FlatObject) (i : nat) (key : string) (v : JSON) (what digits : string)
        (diffEntry : option JSON) :
  (what = "constraint"%string /\ Js.matchIndexed "mapping" key = None)
  \/ (what = "mapping"%string /\ Js.matchIndexed "constraint" key = None) ->
  hasSnapshot structDef = true ->
  isFSHValueEmpty (getFSHValue i rem "ElementDefinition") = false ->
  Js.matchIndexed what key = Some digits ->
  Js.elementAt (JMap.get what (toJSON input)) (Js.parseInt digits) = Ok diffEntry ->
  (forall el,
      findMatchingSnapshot (JMap.get "id" (toJSON input)) structDef = Some el ->
      (what = "constraint"%string -> constraint el = None)
      /\ (what = "mapping"%string -> mapping el = None)) ->
  forall state,
    processEntry input structDef rem state (i, (key, v))
    = Ok (fst state
          ++ [setComment (indexComment what (what ++ "[" ++ digits ++ "]"))
                         (newRule (getPath input) key
                                  (getFSHValue i rem "ElementDefinition"))],
          snd state ++ [indexWarning what (name structDef) (getPath input) key]).
Proof.
  intros Hwhat Hhas Hne Hmatch Hdiff Hlacks [rules log].
  unfold processEntry. cbv zeta. cbn [value newRule]. rewrite Hne.
  destruct Hwhat as [[-> Hother]|[-> Hother]].
  - assert (Hindex : constraintIndex diffEntry
                       (findMatchingSnapshot (JMap.get "id" (toJSON input)) structDef)
                     = Ok None).
    { unfold constraintIndex.
      destruct (findMatchingSnapshot _ structDef) as [el|]; [|reflexivity].
      destruct (Hlacks el eq_refl) as [Hc _]. now rewrite (Hc eq_refl). }
    rewrite (fixIndex_not_found _ _ _ _ _ _ _ _ _ Hmatch Hhas Hdiff Hindex). cbn [bind].
    rewrite (fixIndex_no_index _ _ _ _ _ _ Hother). reflexivity.
  - assert (Hindex : mappingIndex diffEntry
                       (findMatchingSnapshot (JMap.get "id" (toJSON input)) structDef)
                     = Ok None).
    { unfold mappingIndex.
      destruct (findMatchingSnapshot _ structDef) as [el|]; [|reflexivity].
      destruct (Hlacks el eq_refl) as [_ Hm]. now rewrite (Hm eq_refl). }
    rewrite (fixIndex_no_index _ _ _ _ _ _ Hother). cbn [bind].
    rewrite (fixIndex_not_found _ _ _ _ _ _ _ _ _ Hmatch Hhas Hdiff Hindex). reflexivity.
Qed.

(** *** The loops of [processConcept] and [processResource] *)

Lemma flat_map_unvalued {A B} (empty : A -> bool) (f : A -> B) (l : list A) :
  flat_map (fun e => if empty e then [f e] else []) l = map f (filter empty l).
Proof.
  induction l as [|e l IH]; simpl; [reflexivity|].
  destruct (empty e); simpl; now rewrite IH.
Qed.

Lemma filter_lengths {A} (f : A -> bool) (l : list A) :
  List.length (filter (fun e => negb (f e)) l) + List.length (filter f l) = List.length l.
Proof.
  induction l as [|e l IH]; simpl; [reflexivity|].
  destruct (f e); simpl; lia.
Qed.

Lemma indexed_length {A} (l : list A) : List.length (indexed l) = List.length l.
Proof. unfold indexed. rewrite length_combine, length_seq. apply Nat.min_id. Qed.

(** X16: [processConcept] returns, in document order, one statement per
    kept leaf of the concept whose value is not empty, each a code caret
    rule with the concept hierarchy as path array, an empty path and no
    comment, and it logs one error per kept leaf whose value is empty; so
    statements and errors together are as many as the kept leaves. *)
Theorem concept_statements (input : list (string * JSON))
        (conceptHierarchy : list string) (codeSystemName : string) :
  let kept := keptEntries CONCEPT_IGNORED_PROPERTIES input in
  let result := processConcept input conceptHierarchy codeSystemName in
  fst result
  = map (fun e =>
           {| path := "";
              caretPath := fst (snd e);
              value := getFSHValue (fst e) kept "Concept";
              fshComment := None;
              isCodeCaretRule := true;
              pathArray := conceptHierarchy |})
        (valued "Concept" kept)
  /\ snd result
     = map (fun e =>
              (Error,
               ("Value in CodeSytem " ++ codeSystemName ++ " at concept "
                ++ Str.join "." conceptHierarchy ++ " for element " ++ fst (snd e)
                ++ " is empty. No caret value rule will be created.")%string))
           (unvalued "Concept" kept)
  /\ List.length (fst result) + List.length (snd result) = List.length kept.
Proof.
  cbv zeta. rewrite processConcept_eq. cbv zeta. cbn [fst snd].
  set (kept := keptEntries CONCEPT_IGNORED_PROPERTIES input).
  assert (Hrules :
            flat_map (fun e => fst (contribution
                                      (conceptEntry conceptHierarchy codeSystemName kept) e))
                     (indexed kept)
            = map (fun e =>
                     {| path := "";
                        caretPath := fst (snd e);
                        value := getFSHValue (fst e) kept "Concept";
                        fshComment := None;
                        isCodeCaretRule := true;
                        pathArray := conceptHierarchy |})
                  (valued "Concept" kept)).
  { unfold valued. rewrite <- flat_map_valued. apply flat_map_ext.
    intros [i [key v]]. unfold contribution, conceptEntry, emit. cbn [fst snd].
    now destruct (isFSHValueEmpty _). }
  assert (Hlog :
            flat_map (fun e => snd (contribution
                                      (conceptEntry conceptHierarchy codeSystemName kept) e))
                     (indexed kept)
            = map (fun e =>
                     (Error,
                      ("Value in CodeSytem " ++ codeSystemName ++ " at concept "
                       ++ Str.join "." conceptHierarchy ++ " for element " ++ fst (snd e)
                       ++ " is empty. No caret value rule will be created.")%string))
                  (unvalued "Concept" kept)).
  { unfold unvalued. rewrite <- flat_map_unvalued. apply flat_map_ext.
    intros [i [key v]]. unfold contribution, conceptEntry, emit. cbn [fst snd].
    now destruct (isFSHValueEmpty _). }
  rewrite Hrules, Hlog. split; [reflexivity|]. split; [reflexivity|].
  rewrite !length_map. unfold valued, unvalued.
  rewrite filter_lengths. apply indexed_length.
Qed.

(** X17: [processResource] returns, in document order, one statement
    per kept leaf whose value is not empty, with the leaf path as caret
    path, an empty path and no comment, and logs one error per kept leaf
    whose value is empty; only a [url] leaf is passed over, and only when
    the resource has the standard url, whether its value is empty or
    not. *)
Theorem resource_statements (input : list (string * JSON))
        (resourceType : ResourceType) (config : Configuration) :
  let kept := keptEntries (RESOURCE_IGNORED_PROPERTIES resourceType) input in
  let passedOver (e : nat * (string * JSON)) :=
    String.eqb (fst (snd e)) "url" && isStandardURL (typeName resourceType) config input in
  let result := processResource input resourceType config in
  fst result
  = map (fun e => newRule "" (fst (snd e))
                          (getFSHValue (fst e) kept (typeName resourceType)))
        (filter (fun e => negb (passedOver e)) (valued (typeName resourceType) kept))
  /\ snd result
     = map (fun e =>
              (Error,
               ("Value in " ++ typeName resourceType ++ " "
                ++ Js.template (nameOrId input) ++ " for element " ++ fst (snd e)
                ++ " is empty. No caret value rule will be created.")%string))
           (filter (fun e => negb (passedOver e)) (unvalued (typeName resourceType) kept))
  /\ (isStandardURL (typeName resourceType) config input = false ->
      List.length (fst result) + List.length (snd result) = List.length kept).
Proof.
  cbv zeta. rewrite processResource_eq. cbv zeta. cbn [fst snd].
  set (kept := keptEntries (RESOURCE_IGNORED_PROPERTIES resourceType) input).
  set (passedOver := fun e : nat * (string * JSON) =>
                       String.eqb (fst (snd e)) "url"
                       && isStandardURL (typeName resourceType) config input).
  assert (Hrules :
            flat_map (fun e => fst (contribution
                                      (resourceEntry input resourceType config kept) e))
                     (indexed kept)
            = map (fun e => newRule "" (fst (snd e))
                                    (getFSHValue (fst e) kept (typeName resourceType)))
                  (filter (fun e => negb (passedOver e))
                          (valued (typeName resourceType) kept))).
  { unfold valued. generalize (indexed kept). intros l.
    induction l as [|[i [key v]] l IH]; [reflexivity|].
    cbn [flat_map filter fst snd]. rewrite IH.
    unfold contribution, resourceEntry, emit. subst passedOver.
    destruct (String.eqb key "url" && isStandardURL (typeName resourceType) config input)
      eqn:E;
      destruct (isFSHValueEmpty (getFSHValue i kept (typeName resourceType))) eqn:Ev;
      cbn [negb filter fst snd app]; rewrite ?E; reflexivity. }
  assert (Hlog :
            flat_map (fun e => snd (contribution
                                      (resourceEntry input resourceType config kept) e))
                     (indexed kept)
            = map (fun e =>
                     (Error,
                      ("Value in " ++ typeName resourceType ++ " "
                       ++ Js.template (nameOrId input) ++ " for element " ++ fst (snd e)
                       ++ " is empty. No caret value rule will be created.")%string))
                  (filter (fun e => negb (passedOver e))
                          (unvalued (typeName resourceType) kept))).
  { unfold unvalued. generalize (indexed kept). intros l.
    induction l as [|[i [key v]] l IH]; [reflexivity|].
    cbn [flat_map filter fst snd]. rewrite IH.
    unfold contribution, resourceEntry, emit. subst passedOver.
    destruct (String.eqb key "url" && isStandardURL (typeName resourceType) config input)
      eqn:E;
      destruct (isFSHValueEmpty (getFSHValue i kept (typeName resourceType))) eqn:Ev;
      cbn [negb filter fst snd app]; rewrite ?E; reflexivity. }
  rewrite Hrules, Hlog. split; [reflexivity|]. split; [reflexivity|].
  intros Hstandard. rewrite !length_map.
  assert (Hall : forall l : list (nat * (string * JSON)),
             filter (fun e => negb (passedOver e)) l = l).
  { intros l. induction l as [|e l IH]; [reflexivity|]. simpl.
    unfold passedOver at 1. rewrite Hstandard, andb_false_r. cbn [negb]. now rewrite IH. }
  rewrite !Hall. unfold valued, unvalued. rewrite filter_lengths. apply indexed_length.
Qed.

(** *** More on [processStructureDefinition] *)

Lemma get_deleteAll_None props : forall (o : list (string * JSON)) k,
  JMap.get k o = None -> JMap.get k (deleteAll props o) = None.
Proof.
  unfold deleteAll. induction props as [|p props IH]; intros o k Hget; simpl;
    [assumption|].
  apply IH. destruct (String.eqb_spec p k) as [->|Hne].
  - apply JMapFacts.get_delete_same.
  - now rewrite JMapFacts.get_delete_other.
Qed.

Lemma get_deleteAll_in props : forall (o : list (string * JSON)) k,
  In k props -> JMap.get k (deleteAll props o) = None.
Proof.
  induction props as [|p props IH]; intros o k Hin; [destruct Hin|].
  destruct (String.eqb_spec p k) as [->|Hne].
  - change (deleteAll (k :: props) o) with (deleteAll props (JMap.delete k o)).
    apply get_deleteAll_None, JMapFacts.get_delete_same.
  - destruct Hin as [Heq|Hin]; [contradiction|].
    change (deleteAll (p :: props) o) with (deleteAll props (JMap.delete p o)).
    now apply IH.
Qed.

Lemma get_deleteAll_other props : forall (o : list (string * JSON)) k,
  ~ In k props -> JMap.get k (deleteAll props o) = JMap.get k o.
Proof.
  induction props as [|p props IH]; intros o k Hnotin; [reflexivity|].
  change (deleteAll (p :: props) o) with (deleteAll props (JMap.delete p o)).
  rewrite IH by (intros Hin; apply Hnotin; now right).
  apply JMapFacts.get_delete_other. intros ->. apply Hnotin. now left.
Qed.

(** The copies before the arrays are reconciled, spelled out. *)
Lemma sdClean_eq input :
  sdClean input
  = let sd := deleteAll (RESOURCE_IGNORED_PROPERTIES StructureDefinition) input in
    if generatedText sd then JMap.delete "text" sd else sd.
Proof.
  unfold sdClean, cleaned, generatedText.
  destruct (fishForFHIR (JMap.get "baseDefinition" input));
    destruct (Js.strictEq _ _); reflexivity.
Qed.

Lemma parentClean_eq input :
  parentClean input
  = let sd := deleteAll (RESOURCE_IGNORED_PROPERTIES StructureDefinition) input in
    let parent :=
      deleteAll (RESOURCE_IGNORED_PROPERTIES StructureDefinition)
                (match fishForFHIR (JMap.get "baseDefinition" input) with
                 | Some parent => parent
                 | None => input
                 end) in
    deleteAll SD_CLEARED_PROPERTIES
              (if generatedText sd then JMap.delete "text" parent else parent).
Proof.
  unfold parentClean, cleaned, generatedText.
  destruct (fishForFHIR (JMap.get "baseDefinition" input));
    destruct (Js.strictEq _ _); reflexivity.
Qed.

Lemma generatedText_input input :
  generatedText (deleteAll (RESOURCE_IGNORED_PROPERTIES StructureDefinition) input)
  = generatedText input.
Proof.
  unfold generatedText. rewrite get_deleteAll_other; [reflexivity|].
  simpl. intuition discriminate.
Qed.

Lemma copies_eq input :
  fold_left reconcileArray (JMap.keys (sdClean input)) (sdClean input, parentClean input)
  = (sdCopy input, parentCopy input).
Proof.
  unfold sdCopy, parentCopy. rewrite prepared_eq. cbn [fst snd].
  now destruct (fold_left reconcileArray _ _).
Qed.

Lemma get_sdCopy_None input k :
  JMap.get k (sdClean input) = None -> JMap.get k (sdCopy input) = None.
Proof.
  intros Hnone. destruct (JMap.get k (sdCopy input)) as [v|] eqn:Hget; [|reflexivity].
  apply JMapFacts.get_Some_In in Hget.
  assert (Hin : In (k, v) (sdClean input)).
  { apply (fold_reconcile_sub (JMap.keys (sdClean input))
                              (sdClean input, parentClean input) (k, v)).
    now rewrite copies_eq. }
  apply (in_map fst) in Hin. cbn [fst] in Hin.
  apply JMapFacts.has_keys in Hin. unfold JMap.has in Hin.
  now rewrite Hnone in Hin.
Qed.

Lemma get_parentCopy_None input k :
  JMap.get k (parentClean input) = None -> JMap.get k (parentCopy input) = None.
Proof.
  intros Hnone. destruct (JMap.get k (parentCopy input)) as [v|] eqn:Hget; [|reflexivity].
  apply JMapFacts.get_Some_In in Hget.
  assert (Hin : In (k, v) (parentClean input)).
  { apply (fold_reconcile_sub (JMap.keys (sdClean input))
                              (sdClean input, parentClean input) (k, v)).
    now rewrite copies_eq. }
  apply (in_map fst) in Hin. cbn [fst] in Hin.
  apply JMapFacts.has_keys in Hin. unfold JMap.has in Hin.
  now rewrite Hnone in Hin.
Qed.

(** No statement under a property the resource copy has lost. *)
Lemma nothing_under_absent input config k rest :
  plainObject input ->
  (forall parent, fishForFHIR (JMap.get "baseDefinition" input) = Some parent ->
                  plainObject parent) ->
  plainName k = true -> headed rest ->
  JMap.get k (sdClean input) = None ->
  ~ emittedFor (fst (processStructureDefinition input config)) (k ++ rest).
Proof.
  intros Hinput Hparent Hk Hrest Hnone Hem.
  destruct (cleaned_plain input Hinput Hparent) as [Hsd Hpar].
  destruct (copies_plain input Hsd Hpar) as [Hsdc _].
  apply processStructureDefinition_emitted in Hem.
  destruct Hem as (i & v & Hnth & _). apply nth_error_keys in Hnth.
  revert Hnth. apply no_path_without_property; try assumption.
  now apply get_sdCopy_None.
Qed.

(** X11: the properties other extractors and keywords cover
    (resourceType, id, name, title, description, fhirVersion, mapping,
    baseDefinition, derivation, snapshot, differential) never get a
    statement from [processStructureDefinition], neither for the
    property itself nor for a leaf under it, whatever the parent holds. *)
Theorem ignored_properties_have_no_statement
        (input : list (string * JSON)) (config : Configuration) (prop rest : string) :
  plainObject input ->
  (forall parent, fishForFHIR (JMap.get "baseDefinition" input) = Some parent ->
                  plainObject parent) ->
  In prop (RESOURCE_IGNORED_PROPERTIES StructureDefinition) ->
  headed rest ->
  ~ emittedFor (fst (processStructureDefinition input config)) (prop ++ rest).
Proof.
  intros Hinput Hparent Hprop Hrest.
  apply nothing_under_absent; try assumption.
  - revert prop Hprop. apply forallb_forall. reflexivity.
  - rewrite sdClean_eq. cbv zeta.
    assert (Hnone : JMap.get prop (deleteAll (RESOURCE_IGNORED_PROPERTIES StructureDefinition)
                                             input) = None)
      by now apply get_deleteAll_in.
    destruct (generatedText _); [|assumption].
    destruct (String.eqb_spec "text" prop) as [<-|Hne].
    + apply JMapFacts.get_delete_same.
    + now rewrite JMapFacts.get_delete_other.
Qed.

(** X12: a narrative that was generated gets no statement: when the
    status of the text of the resource is [generated], neither [text]
    nor any leaf under it is stated, whatever the parent holds. *)
Theorem generated_text_has_no_statement
        (input : list (string * JSON)) (config : Configuration) (rest : string) :
  plainObject input ->
  (forall parent, fishForFHIR (JMap.get "baseDefinition" input) = Some parent ->
                  plainObject parent) ->
  generatedText input = true ->
  headed rest ->
  ~ emittedFor (fst (processStructureDefinition input config)) ("text" ++ rest).
Proof.
  intros Hinput Hparent Hgen Hrest.
  apply nothing_under_absent; try assumption; [reflexivity|].
  rewrite sdClean_eq. cbv zeta. rewrite generatedText_input, Hgen.
  apply JMapFacts.get_delete_same.
Qed.

(** A property of the resource copy that is no array with items is left
    alone by the reconciliation, on both sides. *)
Lemma fold_reconcile_leaf sd0 parent0 k v :
  NoDup (JMap.keys sd0) ->
  JMap.get k sd0 = Some v ->
  nonEmptyArray v = false ->
  let final := fold_left reconcileArray (JMap.keys sd0) (sd0, parent0) in
  JMap.get k (fst final) = Some v /\ JMap.get k (snd final) = JMap.get k parent0.
Proof.
  intros Hnd Hget Hleaf final.
  assert (Hin : In k (JMap.keys sd0)).
  { apply JMapFacts.has_keys. unfold JMap.has. now rewrite Hget. }
  destruct (in_split _ _ Hin) as (ks1 & ks2 & Hks).
  rewrite Hks in Hnd. apply NoDup_remove_2 in Hnd.
  assert (H1 : ~ In k ks1) by (intros Hk; apply Hnd, in_or_app; now left).
  assert (H2 : ~ In k ks2) by (intros Hk; apply Hnd, in_or_app; now right).
  subst final. rewrite Hks, fold_left_app. cbn [fold_left].
  destruct (fold_reconcile_other k ks1 (sd0, parent0) H1) as [Hsd1 Hparent1].
  destruct (fold_left reconcileArray ks1 (sd0, parent0)) as [sd1 parent1].
  cbn [fst snd] in Hsd1, Hparent1.
  assert (Hstep : reconcileArray (sd1, parent1) k = (sd1, parent1)).
  { unfold reconcileArray. rewrite Hsd1, Hget.
    destruct v as [| | | |[|x l]|]; try reflexivity. discriminate Hleaf. }
  destruct (fold_reconcile_other k ks2 (reconcileArray (sd1, parent1) k) H2)
    as [Hsd2 Hparent2].
  rewrite Hsd2, Hparent2, Hstep. cbn [fst snd]. split; congruence.
Qed.

(** A property the parent copy lacks stays on the resource copy, unless
    it is an array of extensions. *)
Lemma fold_reconcile_kept sd0 parent0 k v :
  NoDup (JMap.keys sd0) ->
  JMap.get k sd0 = Some v ->
  JMap.get k parent0 = None ->
  JMap.get k (fst (fold_left reconcileArray (JMap.keys sd0) (sd0, parent0))) = Some v.
Proof.
  intros Hnd Hget Hnone.
  destruct (nonEmptyArray v) eqn:Hv.
  - destruct v as [| | | |[|x l]|]; try discriminate Hv.
    destruct (fold_reconcile_at sd0 parent0 k x l Hnd Hget) as (_ & Hext & Hother).
    rewrite Hnone in Hext, Hother. cbn [hasNewItems] in Hext, Hother.
    destruct (isExtensionCarrier k).
    + now destruct (Hext eq_refl eq_refl).
    + now destruct (Hother eq_refl eq_refl).
  - now destruct (fold_reconcile_leaf sd0 parent0 k v Hnd Hget Hv).
Qed.

Lemma cleared_not_ignored prop :
  In prop SD_CLEARED_PROPERTIES ->
  ~ In prop (RESOURCE_IGNORED_PROPERTIES StructureDefinition)
  /\ plainName prop = true /\ prop <> "url"%string.
Proof.
  intros Hprop. simpl in Hprop.
  repeat (destruct Hprop as [<-|Hprop];
          [split; [simpl; intuition discriminate|split; [reflexivity|discriminate]]|]).
  destruct Hprop.
Qed.

(** X13: the properties SUSHI clears before it creates a profile (meta,
    implicitRules, language, text, contained, identifier, experimental,
    date, publisher, contact, useContext, jurisdiction, purpose,
    copyright, keyword) are stated whatever the parent holds: every leaf
    under such a property of the resource, the text apart when it was
    generated, is a leaf of the flattened resource copy and gets a
    statement as soon as its value is not empty. *)
Theorem cleared_properties_are_always_stated
        (input : list (string * JSON)) (config : Configuration) (prop : string) (w : JSON) :
  plainObject input ->
  (forall parent, fishForFHIR (JMap.get "baseDefinition" input) = Some parent ->
                  plainObject parent) ->
  In prop SD_CLEARED_PROPERTIES ->
  JMap.get prop input = Some w ->
  (prop = "text"%string -> generatedText input = false) ->
  forall p, In p (leafPaths prop w) ->
    exists i v,
      nth_error (flatSD input) i = Some (p, v)
      /\ (isFSHValueEmpty (getFSHValue i (flatSD input) "StructureDefinition") = false ->
          emittedFor (fst (processStructureDefinition input config)) p).
Proof.
  intros Hinput Hparent Hprop Hget Htext p Hp.
  destruct (cleared_not_ignored prop Hprop) as (Hign & Hplain & Hurl).
  destruct (cleaned_plain input Hinput Hparent) as [Hsd Hpar].
  destruct (copies_plain input Hsd Hpar) as [_ Hparc].
  assert (Hclean : JMap.get prop (sdClean input) = Some w).
  { rewrite sdClean_eq. cbv zeta. rewrite generatedText_input.
    destruct (generatedText input) eqn:Hgen.
    - rewrite JMapFacts.get_delete_other; [now rewrite get_deleteAll_other|].
      intros <-. now discriminate Htext.
    - now rewrite get_deleteAll_other. }
  assert (Hnone : JMap.get prop (parentClean input) = None).
  { rewrite parentClean_eq. cbv zeta. now apply get_deleteAll_in. }
  assert (Hcopy : JMap.get prop (sdCopy input) = Some w).
  { pose proof (fold_reconcile_kept (sdClean input) (parentClean input) prop w
                  (proj1 Hsd) Hclean Hnone) as Hkept.
    now rewrite copies_eq in Hkept. }
  destruct (keys_nth_error (flatSD input) p) as (i & v & Hnth).
  { apply (getPathValuePairs_under _ prop w); [|assumption].
    now apply JMapFacts.get_Some_In. }
  exists i, v. split; [assumption|]. intros Hne.
  apply processStructureDefinition_emitted. exists i, v.
  destruct (flattenAt_paths _ _ _ Hp) as (rest & -> & Hrest).
  split; [assumption|]. split; [|split; [|assumption]].
  - unfold differs. rewrite (JMapFacts.get_None _ (flatParent input)); [reflexivity|].
    apply no_path_without_property; try assumption.
    now apply get_parentCopy_None.
  - destruct (String.eqb_spec (prop ++ rest) "url") as [Heq|]; [|reflexivity].
    exfalso. apply Hurl.
    apply (head_unique prop "url" rest ""); try assumption; try reflexivity.
    now left.
Qed.

Lemma diffEntry_log input config flatSD flatParent e :
  Forall (fun entry => fst entry = Error)
         (snd (contribution (diffEntry input config flatSD flatParent) e)).
Proof.
  destruct e as [i [key v]]. unfold contribution, diffEntry.
  destruct (differs flatSD flatParent key); [|constructor].
  destruct (String.eqb key "url" && isStandardURL "StructureDefinition" config input);
    [constructor|].
  unfold emit. destruct (isFSHValueEmpty _); repeat constructor.
Qed.

Lemma Forall_flat_map {A B} (P : B -> Prop) (f : A -> list B) (l : list A) :
  (forall e, Forall P (f e)) -> Forall P (flat_map f l).
Proof.
  intros Hall. induction l as [|e l IH]; simpl; [constructor|].
  apply Forall_app. now split.
Qed.

(** X14: the log of [processStructureDefinition] starts with one
    warning exactly when the fisher finds no definition for the parent;
    whatever else it holds are errors. *)
Theorem parent_warning_is_the_only_warning
        (input : list (string * JSON)) (config : Configuration) :
  let log := snd (processStructureDefinition input config) in
  match fishForFHIR (JMap.get "baseDefinition" input) with
  | Some _ => Forall (fun entry => fst entry = Error) log
  | None =>
      exists message errors,
        log = (Warn, message) :: errors
        /\ Forall (fun entry => fst entry = Error) errors
  end.
Proof.
  cbv zeta. rewrite processStructureDefinition_eq. cbn [snd].
  rewrite prepared_eq. cbn [snd].
  assert (Herrors : Forall (fun entry => fst entry = Error)
                      (flat_map (fun e => snd (contribution
                                                 (diffEntry input config (flatSD input)
                                                            (flatParent input)) e))
                                (indexed (flatSD input)))).
  { apply Forall_flat_map. intros e. apply diffEntry_log. }
  unfold cleaned.
  destruct (fishForFHIR (JMap.get "baseDefinition" input)).
  - destruct (Js.strictEq _ _); exact Herrors.
  - destruct (Js.strictEq _ _); eexists _, _; (split; [reflexivity|exact Herrors]).
Qed.

(** *** Without the parent *)

Lemma itemsEqual_eq : forall xs ys,
  (fix items (xs ys : list JSON) {struct xs} : bool :=
     match xs, ys with
     | [], [] => true
     | x :: xs', y :: ys' => Js.isEqual x y && items xs' ys'
     | _, _ => false
     end) xs ys = itemsEqual xs ys.
Proof.
  induction xs as [|x xs IH]; intros [|y ys]; reflexivity.
Qed.

Lemma propsEqual_eq m' : forall m,
  (fix props (m : list (string * JSON)) {struct m} : bool :=
     match m with
     | [] => true
     | (k, v) :: rest =>
         match JMap.get k m' with
         | Some v' => Js.isEqual v v'
         | None => false
         end && props rest
     end) m = propsEqual m' m.
Proof.
  induction m as [|[k v] m IH]; [reflexivity|].
  simpl propsEqual. rewrite <- IH. reflexivity.
Qed.

Lemma isEqual_array xs ys : Js.isEqual (JArray xs) (JArray ys) = itemsEqual xs ys.
Proof. exact (itemsEqual_eq xs ys). Qed.

Lemma isEqual_object m m' :
  Js.isEqual (JObject m) (JObject m')
  = Nat.eqb (List.length m) (List.length m') && propsEqual m' m.
Proof.
  change (Js.isEqual (JObject m) (JObject m'))
    with (Nat.eqb (List.length m) (List.length m')
          && (fix props (m : list (string * JSON)) {struct m} : bool :=
                match m with
                | [] => true
                | (k, v) :: rest =>
                    match JMap.get k m' with
                    | Some v' => Js.isEqual v v'
                    | None => false
                    end && props rest
                end) m).
  now rewrite propsEqual_eq.
Qed.

Lemma distinct_NoDup l : distinct l = true -> NoDup l.
Proof.
  induction l as [|k l IH]; simpl; intros Hd; [constructor|].
  apply andb_true_iff in Hd. destruct Hd as [Hk Hl]. constructor; [|now apply IH].
  intros Hin. apply negb_true_iff in Hk.
  assert (Hex : existsb (String.eqb k) l = true).
  { apply existsb_exists. exists k. split; [assumption|apply String.eqb_refl]. }
  congruence.
Qed.

(** A value is equal to itself when none of its objects has a property
    twice. *)
Lemma isEqual_refl v : wellFormed v = true -> Js.isEqual v v = true.
Proof.
  induction v as [|b|n|s|l IH|m IH] using JSON_induction; intros Hwf.
  - reflexivity.
  - now destruct b.
  - apply Z.eqb_refl.
  - apply String.eqb_refl.
  - rewrite isEqual_array. simpl in Hwf.
    induction IH as [|x l Hx Hl IHl]; [reflexivity|].
    simpl in Hwf. apply andb_true_iff in Hwf. destruct Hwf as [Hwx Hwl].
    simpl. now rewrite (Hx Hwx), (IHl Hwl).
  - rewrite isEqual_object, Nat.eqb_refl. simpl in Hwf.
    apply andb_true_iff in Hwf. destruct Hwf as [Hd Hall].
    apply distinct_NoDup in Hd. cbn [andb].
    assert (Hsub : forall rest, incl rest m -> propsEqual m rest = true).
    { induction rest as [|[k v] rest IHrest]; intros Hincl; [reflexivity|].
      simpl. rewrite (JMapFacts.get_In k v m Hd) by (apply Hincl; now left).
      rewrite Forall_forall in IH. rewrite forallb_forall in Hall.
      assert (Hv : Js.isEqual v v = true).
      { apply (IH (k, v)); [apply Hincl; now left|].
        apply (Hall (k, v)), Hincl. now left. }
      rewrite Hv. apply IHrest. intros e He. apply Hincl. now right. }
    apply Hsub, incl_refl.
Qed.

(** An array has no new items against itself. *)
Lemma no_new_items_against_itself items :
  forallb wellFormed items = true ->
  hasNewItems items (Some (JArray items)) = false.
Proof.
  intros Hwf. unfold hasNewItems, Js.differenceWith.
  assert (Hnone : filter (fun x => negb (existsb (Js.isEqual x) items)) items = []).
  { rewrite forallb_forall in Hwf.
    assert (Hall : forall l, incl l items ->
                     filter (fun x => negb (existsb (Js.isEqual x) items)) l = []).
    { induction l as [|x l IHl]; intros Hincl; [reflexivity|]. simpl.
      assert (Hex : existsb (Js.isEqual x) items = true).
      { apply existsb_exists. exists x. split; [apply Hincl; now left|].
        apply isEqual_refl, Hwf, Hincl. now left. }
      rewrite Hex. apply IHl. intros e He. apply Hincl. now right. }
    apply Hall, incl_refl. }
  now rewrite Hnone.
Qed.

Lemma In_deleteAll props : forall (o : list (string * JSON)) e,
  In e (deleteAll props o) -> In e o.
Proof.
  induction props as [|p props IH]; intros o e Hin; [assumption|].
  change (deleteAll (p :: props) o) with (deleteAll props (JMap.delete p o)) in Hin.
  apply IH in Hin. now apply JMapFacts.delete_In in Hin.
Qed.

Lemma In_sdClean input e : In e (sdClean input) -> In e input.
Proof.
  rewrite sdClean_eq. cbv zeta. destruct (generatedText _); intros Hin.
  - apply JMapFacts.delete_In in Hin. apply (In_deleteAll _ _ _ (proj1 Hin)).
  - now apply In_deleteAll in Hin.
Qed.

Lemma parentClean_without_parent input :
  fishForFHIR (JMap.get "baseDefinition" input) = None ->
  parentClean input = deleteAll SD_CLEARED_PROPERTIES (sdClean input).
Proof.
  intros Hnone. rewrite parentClean_eq, sdClean_eq, Hnone. cbv zeta.
  now destruct (generatedText _).
Qed.

Lemma fold_reconcile_NoDup ks : forall state,
  NoDup (JMap.keys (fst state)) -> NoDup (JMap.keys (snd state)) ->
  NoDup (JMap.keys (fst (fold_left reconcileArray ks state)))
  /\ NoDup (JMap.keys (snd (fold_left reconcileArray ks state))).
Proof.
  induction ks as [|key ks IH]; intros state Hsd Hparent; simpl; [now split|].
  apply IH.
  - destruct (reconcileArray_cases state key) as [[-> | ->] _];
      [assumption|now apply JMapFacts.filter_NoDup].
  - destruct (reconcileArray_cases state key) as [_ [-> | ->]];
      [assumption|now apply JMapFacts.filter_NoDup].
Qed.

Lemma get_app {V} k (a b : JMap.t V) :
  JMap.get k (a ++ b) = match JMap.get k a with Some v => Some v | None => JMap.get k b end.
Proof.
  induction a as [|[k0 v0] a IH]; simpl; [reflexivity|].
  now destruct (String.eqb k k0).
Qed.

(** The value at a leaf path is the one under the top-level property
    the path starts with. *)
Lemma get_flat (o : list (string * JSON)) k v p x :
  NoDup (JMap.keys o) -> forallb plainName (JMap.keys o) = true ->
  In (k, v) o -> JMap.get p (flattenAt k v) = Some x ->
  JMap.get p (getPathValuePairs o) = Some x.
Proof.
  intros Hnd Hplain Hin Hget. induction o as [|[k0 v0] o IH]; [destruct Hin|].
  cbn [getPathValuePairs flat_map]. rewrite get_app.
  inversion Hnd as [|? ? Hk0 Hnd']; subst.
  simpl in Hplain. apply andb_true_iff in Hplain. destruct Hplain as [Hp0 Hplain].
  destruct Hin as [Heq|Hin].
  - injection Heq as -> ->. now rewrite Hget.
  - assert (Hnone : JMap.get p (flattenAt k0 v0) = None).
    { apply JMapFacts.get_None. intros Hp.
      destruct (flattenAt_paths _ _ _ Hp) as (r0 & E0 & Hr0).
      assert (Hpk : In p (JMap.keys (flattenAt k v))).
      { apply JMapFacts.has_keys. unfold JMap.has. now rewrite Hget. }
      destruct (flattenAt_paths _ _ _ Hpk) as (r & E & Hr).
      assert (Hk : In k (JMap.keys o)) by now apply (in_map fst) in Hin.
      apply Hk0. rewrite E in E0.
      now rewrite <- (head_unique k k0 r r0 (plain_key _ _ Hplain Hk) Hp0 Hr Hr0 E0). }
    rewrite Hnone. now apply IH.
Qed.

(** A leaf is equal to itself. *)
Lemma leaf_equal v : forall path p x,
  In (p, x) (flattenAt path v) -> Js.isEqual x x = true.
Proof.
  induction v as [|b|n|s|l IH|m IH] using JSON_induction; intros path p x.
  - intros [[= _ <-]|[]]. reflexivity.
  - intros [[= _ <-]|[]]. now destruct b.
  - intros [[= _ <-]|[]]. apply Z.eqb_refl.
  - intros [[= _ <-]|[]]. apply String.eqb_refl.
  - destruct l as [|y l]; [intros [[= _ <-]|[]]; reflexivity|].
    rewrite flattenAt_array. generalize 0. revert IH. generalize (y :: l). clear y l.
    intros l. induction l as [|y l IHl]; intros Hall i; simpl; [intros []|].
    inversion Hall as [|? ? Hy Hl]; subst. rewrite in_app_iff. intros [Hin|Hin].
    + now apply (Hy _ _ _ Hin).
    + now apply (IHl Hl (S i)).
  - destruct m as [|kv m]; [intros [[= _ <-]|[]]; reflexivity|].
    rewrite flattenAt_object. revert IH. generalize (kv :: m). clear kv m.
    intros m. induction m as [|[k y] m IHm]; intros Hall; simpl; [intros []|].
    inversion Hall as [|? ? Hy Hm]; subst. rewrite in_app_iff. intros [Hin|Hin].
    + now apply (Hy _ _ _ Hin).
    + now apply (IHm Hm).
Qed.

(** X15: when the fisher finds no definition for the parent, the
    resource is compared with itself, and the only statements are those
    for the properties SUSHI clears, for a status other than [active],
    and for leaves that hold null. *)
Theorem without_parent_only_cleared_properties
        (input : list (string * JSON)) (config : Configuration) (p : string) :
  plainObject input ->
  Forall (fun kv => wellFormed (snd kv) = true) input ->
  fishForFHIR (JMap.get "baseDefinition" input) = None ->
  emittedFor (fst (processStructureDefinition input config)) p ->
  (exists prop rest,
      In prop SD_CLEARED_PROPERTIES /\ p = (prop ++ rest)%string /\ headed rest)
  \/ (p = "status"%string
      /\ Js.strictEq (JMap.get p (flatSD input)) (Some (JString "active")) = false)
  \/ JMap.get p (flatSD input) = Some JNull.
Proof.
  intros Hinput Hwf Hfish Hem.
  assert (Hparent : forall parent,
             fishForFHIR (JMap.get "baseDefinition" input) = Some parent ->
             plainObject parent) by (intros parent; rewrite Hfish; discriminate).
  destruct (cleaned_plain input Hinput Hparent) as [Hsd Hpar].
  destruct (copies_plain input Hsd Hpar) as [Hsdc Hparc].
  destruct (fold_reconcile_NoDup (JMap.keys (sdClean input))
              (sdClean input, parentClean input) (proj1 Hsd) (proj1 Hpar))
    as [Hnds Hndp].
  rewrite copies_eq in Hnds, Hndp. cbn [fst snd] in Hnds, Hndp.
  apply processStructureDefinition_emitted in Hem.
  destruct Hem as (i & v & Hnth & Hdiff & _).
  (* the top-level property the path comes from *)
  assert (Hflat : In (p, v) (flatSD input)) by (eapply nth_error_In; eassumption).
  unfold flatSD, getPathValuePairs in Hflat. apply in_flat_map in Hflat.
  destruct Hflat as ([k w] & Hkw & Hleaf).
  assert (Hpk : In p (JMap.keys (flattenAt k w))) by now apply (in_map fst) in Hleaf.
  destruct (flattenAt_paths _ _ _ Hpk) as (rest & Hp & Hrest).
  destruct (in_dec string_dec k SD_CLEARED_PROPERTIES) as [Hcleared|Hkept];
    [left; now exists k, rest|right].
  assert (Hclean : In (k, w) (sdClean input)).
  { apply (fold_reconcile_sub (JMap.keys (sdClean input))
                              (sdClean input, parentClean input) (k, w)).
    now rewrite copies_eq. }
  assert (Hgets : JMap.get k (sdClean input) = Some w)
    by now apply JMapFacts.get_In; [apply Hsd|].
  assert (Hgetp : JMap.get k (parentClean input) = Some w).
  { rewrite (parentClean_without_parent input Hfish).
    now rewrite get_deleteAll_other. }
  assert (Hcopys : JMap.get k (sdCopy input) = Some w)
    by now apply JMapFacts.get_In.
  (* the property is the same on both copies *)
  assert (Hcopyp : JMap.get k (parentCopy input) = Some w).
  { destruct (nonEmptyArray w) eqn:Harr.
    - destruct w as [| | | |[|x l]|]; try discriminate Harr. exfalso.
      destruct (fold_reconcile_at (sdClean input) (parentClean input) k x l
                  (proj1 Hsd) Hgets) as (Hnone & _).
      rewrite copies_eq, Hgetp in Hnone. cbn [fst] in Hnone.
      rewrite Hnone in Hcopys; [discriminate|].
      apply no_new_items_against_itself.
      rewrite Forall_forall in Hwf.
      exact (Hwf (k, JArray (x :: l)) (In_sdClean _ _ Hclean)).
    - destruct (fold_reconcile_leaf (sdClean input) (parentClean input) k w
                  (proj1 Hsd) Hgets Harr) as [_ Hsame].
      rewrite copies_eq in Hsame. cbn [snd] in Hsame. congruence. }
  (* so is the leaf *)
  destruct (JMap.get p (flattenAt k w)) as [x|] eqn:Hx.
  2:{ apply JMapFacts.has_keys in Hpk. unfold JMap.has in Hpk. now rewrite Hx in Hpk. }
  assert (Hxs : JMap.get p (flatSD input) = Some x).
  { now apply (get_flat (sdCopy input) k w). }
  assert (Hxp : JMap.get p (flatParent input) = Some x).
  { apply (get_flat (parentCopy input) k w); try assumption.
    now apply JMapFacts.get_Some_In. }
  apply differs_iff in Hdiff. rewrite Hxs, Hxp in Hdiff.
  destruct Hdiff as [Hnull|[Hne|[Hstatus Hactive]]].
  - right. rewrite Hxs. destruct x; try discriminate Hnull. reflexivity.
  - cbn [Js.isEqualOpt] in Hne.
    rewrite (leaf_equal w k p x (JMapFacts.get_Some_In _ _ _ Hx)) in Hne. discriminate.
  - left. rewrite Hxs. now split.
Qed.

(** *** The alternate syntax of a snapshot id *)

Lemma split_part p rest :
  dotFree p = true ->
  Str.split "."%char (p ++ String "."%char rest) = p :: Str.split "."%char rest.
Proof.
  induction p as [|c p IH]; intros Hp; [reflexivity|].
  simpl in Hp. apply andb_true_iff in Hp. destruct Hp as [Hc Hp].
  apply negb_true_iff in Hc. cbn [append Str.split]. rewrite Hc.
  now rewrite (IH Hp).
Qed.

Lemma split_dotFree p : dotFree p = true -> Str.split "."%char p = [p].
Proof.
  induction p as [|c p IH]; intros Hp; [reflexivity|].
  simpl in Hp. apply andb_true_iff in Hp. destruct Hp as [Hc Hp].
  apply negb_true_iff in Hc. cbn [Str.split]. rewrite Hc.
  now rewrite (IH Hp).
Qed.

(** Splitting at the dots what was joined with dots gives the parts
    back, when no part holds a dot. *)
Lemma split_join parts :
  parts <> [] -> forallb dotFree parts = true ->
  Str.split "."%char (Str.join "." parts) = parts.
Proof.
  unfold Str.join. induction parts as [|p parts IH]; intros Hne Hall; [contradiction|].
  simpl in Hall. apply andb_true_iff in Hall. destruct Hall as [Hp Hall].
  destruct parts as [|p' parts]; [now apply split_dotFree|].
  change (concat "." (p :: p' :: parts))
    with (p ++ String "."%char (concat "." (p' :: parts)))%string.
  rewrite (split_part _ _ Hp). f_equal. apply IH; [discriminate|assumption].
Qed.

Lemma indexOf_cons c s :
  c <> "["%char ->
  Str.indexOf "[x]:" (String c s) = option_map S (Str.indexOf "[x]:" s).
Proof.
  intros Hc. cbn [Str.indexOf prefix].
  destruct (ascii_dec "["%char c) as [Heq|Hneq]; [now symmetry in Heq|reflexivity].
Qed.

Lemma indexOf_plain p : plainName p = true -> Str.indexOf "[x]:" p = None.
Proof.
  induction p as [|c p IH]; intros Hp; [reflexivity|].
  destruct (plain_head _ _ Hp) as [_ Hc].
  simpl in Hp. apply andb_true_iff in Hp. destruct Hp as [_ Hp].
  now rewrite (indexOf_cons _ _ Hc), (IH Hp).
Qed.

Lemma indexOf_choice choice slice :
  plainName choice = true ->
  Str.indexOf "[x]:" (choice ++ "[x]:" ++ slice) = Some (length choice).
Proof.
  induction choice as [|c choice IH]; intros Hp.
  - cbn. now destruct slice.
  - destruct (plain_head _ _ Hp) as [_ Hc].
    simpl in Hp. apply andb_true_iff in Hp. destruct Hp as [_ Hp].
    change ((String c choice ++ "[x]:" ++ slice)%string)
      with (String c (choice ++ "[x]:" ++ slice)).
    now rewrite (indexOf_cons _ _ Hc), (IH Hp).
Qed.

Lemma drop_choice choice slice :
  Str.drop (length choice + 4) (choice ++ "[x]:" ++ slice) = slice.
Proof. induction choice as [|c choice IH]; [reflexivity|exact IH]. Qed.

Lemma dotFree_plain p : plainName p = true -> dotFree p = true.
Proof.
  induction p as [|c p IH]; [reflexivity|]. simpl. intros Hp.
  apply andb_true_iff in Hp. destruct Hp as [Hc Hp].
  apply andb_true_iff in Hc. destruct Hc as [Hc _]. now rewrite Hc, (IH Hp).
Qed.

Lemma dotFree_app a b : dotFree (a ++ b) = dotFree a && dotFree b.
Proof.
  induction a as [|c a IH]; simpl; [reflexivity|]. now rewrite IH, andb_assoc.
Qed.

Lemma snapshotSyntax_dotFree seg : segmentOk seg = true -> dotFree (snapshotSyntax seg) = true.
Proof.
  destruct seg as [name|choice slice]; simpl; intros Hok.
  - now apply dotFree_plain.
  - apply andb_true_iff in Hok. destruct Hok as [Hc Hs].
    rewrite dotFree_app, (dotFree_plain _ Hc). simpl. exact Hs.
Qed.

Lemma snapshotSyntax_cut seg :
  segmentOk seg = true ->
  match Str.indexOf "[x]:" (snapshotSyntax seg) with
  | Some i => Str.drop (i + 4) (snapshotSyntax seg)
  | None => snapshotSyntax seg
  end = differentialSyntax seg.
Proof.
  destruct seg as [name|choice slice];
    cbn [snapshotSyntax differentialSyntax segmentOk]; intros Hok.
  - now rewrite indexOf_plain.
  - apply andb_true_iff in Hok. destruct Hok as [Hc _].
    rewrite (indexOf_choice _ _ Hc). apply drop_choice.
Qed.

(** X19: the alternate syntax [findMatchingSnapshot] computes for a
    snapshot id replaces every part [choice[x]:slice] of the id by
    [slice] and keeps the other parts; so a snapshot element with such an
    id, the marker not being at its very start, matches the differential
    id written with the slices alone. *)
Theorem alternate_syntax_drops_the_choice (segs : list Segment) :
  segs <> [] ->
  forallb segmentOk segs = true ->
  elIdAltSyntax (Str.join "." (map snapshotSyntax segs))
  = Str.join "." (map differentialSyntax segs)
  /\ (forall el n,
         id el = Some (Str.join "." (map snapshotSyntax segs)) ->
         Str.indexOf "[x]:" (Str.join "." (map snapshotSyntax segs)) = Some (S n) ->
         matchesId (Some (JString (Str.join "." (map differentialSyntax segs)))) el
         = true).
Proof.
  intros Hne Hok.
  assert (Halt : elIdAltSyntax (Str.join "." (map snapshotSyntax segs))
                 = Str.join "." (map differentialSyntax segs)).
  { unfold elIdAltSyntax. rewrite split_join.
    - f_equal. rewrite map_map. apply map_ext_in. intros seg Hseg.
      apply snapshotSyntax_cut. rewrite forallb_forall in Hok. now apply Hok.
    - destruct segs; [contradiction|discriminate].
    - rewrite forallb_forall in *. intros part Hpart.
      apply in_map_iff in Hpart. destruct Hpart as (seg & <- & Hseg).
      now apply snapshotSyntax_dotFree, Hok. }
  split; [exact Halt|].
  intros el n Hid Hindex. apply matchesId_iff. right.
  exists (Str.join "." (map snapshotSyntax segs)), n.
  split; [assumption|]. split; [assumption|].
  rewrite Halt. cbn [idEq]. apply String.eqb_refl.
Qed.


End WithUtils.

(** *** The extractor at work *)

(** C5 as the spec words it fails: the url of [myProfile] is not the url
    of its parent, and no url statement is emitted, the url being the
    standard one; the status statement is the only one. *)
Lemma standard_url_differs_and_is_not_emitted :
  JMap.get "url" (@flatSD (exampleUtils knownDefinitions) myProfile)
  = Some (JString "https://example.org/fhir/StructureDefinition/my-profile")
  /\ JMap.get "url" (@flatParent (exampleUtils knownDefinitions) myProfile)
     = Some (JString patientUrl)
  /\ Js.isEqualOpt (JMap.get "url" (@flatSD (exampleUtils knownDefinitions) myProfile))
                   (JMap.get "url" (@flatParent (exampleUtils knownDefinitions) myProfile))
     = false
  /\ map (@caretPath (exampleUtils knownDefinitions))
         (fst (@processStructureDefinition (exampleUtils knownDefinitions)
                                           myProfile exampleConfig))
     = ["status"].
Proof. repeat split. Qed.

(** C6 as the spec words it fails: the url of [otherProfile] is not the
    standard one and is not empty, its parent cannot be found, and no url
    statement is emitted. *)
Lemma other_url_is_not_emitted_without_parent :
  isStandardURL "StructureDefinition" exampleConfig otherProfile = false
  /\ nth_error (@flatSD (exampleUtils knownDefinitions) otherProfile) 0
     = Some ("url", JString "http://other.example.org/profiles/my-profile")
  /\ @isFSHValueEmpty (exampleUtils knownDefinitions)
       (@getFSHValue (exampleUtils knownDefinitions) 0
          (@flatSD (exampleUtils knownDefinitions) otherProfile) "StructureDefinition")
     = false
  /\ map (@caretPath (exampleUtils knownDefinitions))
         (fst (@processStructureDefinition (exampleUtils knownDefinitions)
                                           otherProfile exampleConfig))
     = ["status"].
Proof. repeat split. Qed.

(** C4 as the spec words it fails: [extensionY] is new in the
    [extension] array of [extendedProfile], and the leaf
    [extension[1].valueCodeableConcept] of that array, an empty object,
    has no statement: its value is refused and an error is logged. *)
Lemma extension_leaf_with_empty_value_has_no_statement :
  hasNewItems [extensionX; extensionY]
    (JMap.get "extension" (@parentClean (exampleUtils extensionDefinitions) extendedProfile))
  = true
  /\ isExtensionCarrier "extension" = true
  /\ In "extension[1].valueCodeableConcept"
        (leafPaths "extension" (JArray [extensionX; extensionY]))
  /\ map (@caretPath (exampleUtils extensionDefinitions))
         (fst (@processStructureDefinition (exampleUtils extensionDefinitions)
                                           extendedProfile exampleConfig))
     = ["extension[0].url"; "extension[1].url"]
  /\ map fst (snd (@processStructureDefinition (exampleUtils extensionDefinitions)
                                               extendedProfile exampleConfig))
     = [Error].
Proof.
  split; [reflexivity|]. split; [reflexivity|].
  split; [simpl; tauto|]. split; reflexivity.
Qed.

Lemma extendedProfile_plain : plainObject extendedProfile.
Proof.
  split; [|reflexivity].
  repeat (constructor; [simpl; intuition discriminate|]). constructor.
Defined.

Lemma baseDefinition_plain : plainObject baseDefinition.
Proof.
  split; [|reflexivity].
  repeat (constructor; [simpl; intuition discriminate|]). constructor.
Defined.

Lemma arrays_are_reconciled_witness :
  plainObject extendedProfile
  /\ JMap.get "contextInvariant" (@sdClean (exampleUtils extensionDefinitions) extendedProfile)
     = Some (JArray [JString "a"; JString "b"])
  /\ forall p,
       In p (leafPaths "contextInvariant" (JArray [JString "a"; JString "b"])) ->
       ~ @emittedFor (exampleUtils extensionDefinitions)
           (fst (@processStructureDefinition (exampleUtils extensionDefinitions)
                                             extendedProfile exampleConfig)) p.
Proof.
  split; [exact extendedProfile_plain|]. split; [reflexivity|].
  apply (proj1 (@arrays_are_reconciled (exampleUtils extensionDefinitions)
                  extendedProfile exampleConfig "contextInvariant"
                  (JString "a") [JString "b"]
                  extendedProfile_plain
                  (fun parent Hfound =>
                     eq_ind baseDefinition plainObject baseDefinition_plain parent
                            (f_equal (fun o => match o with
                                               | Some d => d
                                               | None => baseDefinition
                                               end) Hfound))
                  eq_refl)).
  reflexivity.
Defined.



(** C1, the code against the claim: the snapshot element is found and
    holds no constraint with the key [ele-1] of the differential;
    [findIndex] answers -1, which is not [null], so both statements get the
    index -1, neither a comment, and no warning is logged. *)
Lemma unmatched_constraint_gets_index_minus_one :
  @process (exampleUtils []) valueQuantityElement staleProfile
  = Ok ([ @newRule (exampleUtils []) "valueQuantity" "constraint[-1].key" (JString "ele-1");
          @newRule (exampleUtils []) "valueQuantity" "constraint[-1].severity" (JString "error") ],
        []).
Proof. reflexivity. Qed.

(** The half of C1 that holds, on the same element: with no snapshot the
    index stays, the comment is attached and the warning is logged, once
    per statement. *)
Lemma index_kept_and_commented_without_snapshot :
  exists rules log,
    @process (exampleUtils []) valueQuantityElement differentialOnly = Ok (rules, log)
    /\ map (@caretPath (exampleUtils [])) rules = ["constraint[0].key"; "constraint[0].severity"]
    /\ map (@fshComment (exampleUtils [])) rules
       = [ Some (indexComment "constraint" "constraint[0]");
           Some (indexComment "constraint" "constraint[0]") ]
    /\ map fst log = [Warn; Warn].
Proof. eexists _, _. split; [reflexivity|]. repeat split. Qed.

(** The snapshot of [observationProfile] read by [process] as a whole:
    [ele-1] is at index 2 there. *)
Lemma constraint_index_rewritten_by_process :
  @process (exampleUtils []) valueQuantityElement observationProfile
  = Ok ([ @newRule (exampleUtils []) "valueQuantity" "constraint[2].key" (JString "ele-1");
          @newRule (exampleUtils []) "valueQuantity" "constraint[2].severity" (JString "error") ],
        []).
Proof. reflexivity. Qed.


(** *** More of the extractor at work *)

Lemma process_without_snapshot_witness :
  @process (exampleUtils []) valueQuantityElement differentialOnly
  = Ok (map (fun e =>
               {| path := getPath valueQuantityElement;
                  caretPath := fst (snd e);
                  value := @getFSHValue (exampleUtils []) (fst e)
                             (remainingEntries valueQuantityElement) "ElementDefinition";
                  fshComment := commentWithoutSnapshot (fst (snd e));
                  isCodeCaretRule := false;
                  pathArray := [] |})
            (@valued (exampleUtils []) "ElementDefinition"
                     (remainingEntries valueQuantityElement)),
        flat_map (fun e =>
                    if @isFSHValueEmpty (exampleUtils [])
                         (@getFSHValue (exampleUtils []) (fst e)
                            (remainingEntries valueQuantityElement) "ElementDefinition")
                    then [emptyElementValue differentialOnly valueQuantityElement (fst (snd e))]
                    else warningsWithoutSnapshot differentialOnly valueQuantityElement
                                                 (fst (snd e)))
                 (indexed (remainingEntries valueQuantityElement))).
Proof.
  apply (@process_without_snapshot (exampleUtils []) valueQuantityElement differentialOnly).
  reflexivity.
Defined.


Lemma mapped_no_earlier_mapping :
  forall j' m', j' < 1 ->
    nth_error [ JObject [ ("identity", JString "v2"); ("map", JString "OBX-3") ];
                JObject [ ("map", JString "code"); ("identity", JString "rim") ] ] j'
    = Some m' ->
    Js.isEqualOpt (Some m')
      (Some (JObject [ ("identity", JString "rim"); ("map", JString "code") ])) = false.
Proof.
  intros [|j'] m' Hlt Hnth; [|lia]. injection Hnth as <-. reflexivity.
Defined.

Lemma mapping_index_follows_snapshot_witness :
  exists pre post,
    "mapping[0].identity"%string = (pre ++ ("mapping[" ++ "0" ++ "]") ++ post)%string
    /\ (forall state,
          @processEntry (exampleUtils []) mappedElement mappedProfile
            (@remainingEntries mappedElement) state
            (0, ("mapping[0].identity", JString "rim"))
          = Ok (fst state
                ++ [@newRule (exampleUtils []) "code"
                      (pre ++ ("mapping[" ++ Str.ofNat 1 ++ "]") ++ post)
                      (JString "rim")],
                snd state))
    /\ (forall rules log,
          @process (exampleUtils []) mappedElement mappedProfile = Ok (rules, log) ->
          In (@newRule (exampleUtils []) "code"
                (pre ++ ("mapping[" ++ Str.ofNat 1 ++ "]") ++ post)
                (JString "rim"))
             rules).
Proof.
  apply (@mapping_index_follows_snapshot (exampleUtils [])
           mappedElement mappedProfile
           0 "mapping[0].identity" (JString "rim") "0"
           [observationRoot] [] mappedSnapshotElement
           [ JObject [ ("identity", JString "v2"); ("map", JString "OBX-3") ];
             JObject [ ("map", JString "code"); ("identity", JString "rim") ] ]
           1
           (Some (JObject [ ("identity", JString "rim"); ("map", JString "code") ]))
           (JObject [ ("map", JString "code"); ("identity", JString "rim") ])).
  - reflexivity.
  - repeat constructor.
  - left. reflexivity.
  - reflexivity.
  - reflexivity.
  - reflexivity.
  - reflexivity.
  - reflexivity.
  - reflexivity.
  - reflexivity.
  - reflexivity.
  - exact mapped_no_earlier_mapping.
Defined.

Lemma process_throws_without_the_array_witness :
  @process (exampleUtils []) extendedElement observationProfile = TypeError.
Proof.
  apply (@process_throws_without_the_array (exampleUtils [])
           extendedElement observationProfile
           0 "extension[0].constraint[0]" (JString "x") "constraint" "0").
  - reflexivity.
  - reflexivity.
  - reflexivity.
  - reflexivity.
  - reflexivity.
  - now left.
Defined.

Lemma publishedProfile_plain : plainObject publishedProfile.
Proof.
  split; [|reflexivity].
  repeat (constructor; [simpl; intuition discriminate|]). constructor.
Defined.

Lemma publishedParent_plain : plainObject publishedParent.
Proof.
  split; [|reflexivity].
  repeat (constructor; [simpl; intuition discriminate|]). constructor.
Defined.

Lemma publishedParent_found parent :
  @fishForFHIR (exampleUtils publishedDefinitions)
               (JMap.get "baseDefinition" publishedProfile) = Some parent ->
  plainObject parent.
Proof. intros [= <-]. exact publishedParent_plain. Defined.

Lemma otherProfile_plain : plainObject otherProfile.
Proof.
  split; [|reflexivity].
  repeat (constructor; [simpl; intuition discriminate|]). constructor.
Defined.

Lemma ignored_properties_have_no_statement_witness :
  ~ @emittedFor (exampleUtils publishedDefinitions)
      (fst (@processStructureDefinition (exampleUtils publishedDefinitions)
                                        publishedProfile exampleConfig))
      ("derivation" ++ "").
Proof.
  apply (@ignored_properties_have_no_statement (exampleUtils publishedDefinitions)
           publishedProfile exampleConfig "derivation" ""
           publishedProfile_plain publishedParent_found).
  - simpl. tauto.
  - now left.
Defined.

Lemma generated_text_has_no_statement_witness :
  ~ @emittedFor (exampleUtils publishedDefinitions)
      (fst (@processStructureDefinition (exampleUtils publishedDefinitions)
                                        publishedProfile exampleConfig))
      ("text" ++ ".div").
Proof.
  apply (@generated_text_has_no_statement (exampleUtils publishedDefinitions)
           publishedProfile exampleConfig ".div"
           publishedProfile_plain publishedParent_found).
  - reflexivity.
  - right. exists "div"%string. now left.
Defined.

Lemma cleared_properties_are_always_stated_witness :
  exists i v,
    nth_error (@flatSD (exampleUtils publishedDefinitions) publishedProfile) i
    = Some ("contact[0].name"%string, v)
    /\ (@isFSHValueEmpty (exampleUtils publishedDefinitions)
          (@getFSHValue (exampleUtils publishedDefinitions) i
             (@flatSD (exampleUtils publishedDefinitions) publishedProfile)
             "StructureDefinition") = false ->
        @emittedFor (exampleUtils publishedDefinitions)
          (fst (@processStructureDefinition (exampleUtils publishedDefinitions)
                                            publishedProfile exampleConfig))
          "contact[0].name").
Proof.
  apply (@cleared_properties_are_always_stated (exampleUtils publishedDefinitions)
           publishedProfile exampleConfig "contact" (JArray [contactHL7])
           publishedProfile_plain publishedParent_found).
  - simpl. tauto.
  - reflexivity.
  - discriminate.
  - simpl. tauto.
Defined.

Lemma without_parent_only_cleared_properties_witness :
  (exists prop rest,
      In prop SD_CLEARED_PROPERTIES /\ "status"%string = (prop ++ rest)%string /\ headed rest)
  \/ ("status"%string = "status"%string
      /\ Js.strictEq
           (JMap.get "status" (@flatSD (exampleUtils knownDefinitions) otherProfile))
           (Some (JString "active")) = false)
  \/ JMap.get "status" (@flatSD (exampleUtils knownDefinitions) otherProfile) = Some JNull.
Proof.
  apply (@without_parent_only_cleared_properties (exampleUtils knownDefinitions)
           otherProfile exampleConfig "status" otherProfile_plain).
  - repeat constructor.
  - reflexivity.
  - exists (@newRule (exampleUtils knownDefinitions) "" "status" (JString "draft")).
    split; [vm_compute; now left|reflexivity].
Defined.

Lemma alternate_syntax_drops_the_choice_witness :
  elIdAltSyntax (Str.join "." (map snapshotSyntax
                                   [Plain "Observation"; Slice "value" "valueQuantity"]))
  = Str.join "." (map differentialSyntax
                      [Plain "Observation"; Slice "value" "valueQuantity"])
  /\ (forall el n,
         id el = Some (Str.join "." (map snapshotSyntax
                                         [Plain "Observation"; Slice "value" "valueQuantity"])) ->
         Str.indexOf "[x]:" (Str.join "." (map snapshotSyntax
                                               [Plain "Observation";
                                                Slice "value" "valueQuantity"]))
         = Some (S n) ->
         matchesId (Some (JString (Str.join "." (map differentialSyntax
                                                     [Plain "Observation";
                                                      Slice "value" "valueQuantity"])))) el
         = true).
Proof.
  apply (alternate_syntax_drops_the_choice
           [Plain "Observation"; Slice "value" "valueQuantity"]).
  - discriminate.
  - reflexivity.
Defined.

Lemma index_kept_when_the_snapshot_lacks_it_witness :
  @processEntry (exampleUtils []) valueQuantityElement rootOnlyProfile
    (remainingEntries valueQuantityElement) ([], [])
    (0, ("constraint[0].key", JString "ele-1"))
  = Ok ([@setComment (exampleUtils [])
           (indexComment "constraint" "constraint[0]")
           (@newRule (exampleUtils []) "valueQuantity" "constraint[0].key"
                     (JString "ele-1"))],
        [indexWarning "constraint" "MyObservation" "valueQuantity" "constraint[0].key"]).
Proof.
  refine (@index_kept_when_the_snapshot_lacks_it (exampleUtils [])
            valueQuantityElement rootOnlyProfile (remainingEntries valueQuantityElement)
            0 "constraint[0].key" (JString "ele-1") "constraint" "0"
            (Some (constraintKeyed "ele-1")) _ _ _ _ _ _ ([], [])).
  - left. split; reflexivity.
  - reflexivity.
  - reflexivity.
  - reflexivity.
  - reflexivity.
  - intros el Hel. discriminate Hel.
Defined.

End ExtractorFacts.
